(** * Verification of the SLURM job-accounting dispatch layer and timers

    Shallow embedding of
      - [src/common/timers.c]         (module [Timers]);
      - [src/common/slurm_jobacct.c]  (module [Jobacct]).

    C integers are mathematical integers with the wrap-around of their
    width written out (LP64: [int] is 32 bits, [long], [time_t] and
    [suseconds_t] are 64 bits).  Pointers are addresses in an explicit
    heap; the plugin loader, the configuration and the backend functions
    are an explicit [world] that every call receives. *)

From Stdlib Require Import ZArith Lia DecimalString.
From Stdlib Require DecimalPos DecimalFacts.
From stdpp Require Import gmap strings list.

(* ===================================================================== *)
(** * Machine integers *)
(* ===================================================================== *)

Module CInt.

Local Open Scope Z_scope.

(** Two's-complement reduction of [x] to a signed [w]-bit integer. *)
Definition wrap (w : Z) (x : Z) : Z :=
  (x + 2 ^ (w - 1)) mod 2 ^ w - 2 ^ (w - 1).

Definition to_long (x : Z) : Z := wrap 64 x.
Definition to_int (x : Z) : Z := wrap 32 x.
(** Conversion to [size_t] (unsigned 64 bits). *)
Definition to_size_t (x : Z) : Z := x mod 2 ^ 64.

Definition LONG_MIN : Z := - 2 ^ 63.
Definition LONG_MAX : Z := 2 ^ 63 - 1.

End CInt.

(* ===================================================================== *)
(** * timers.c *)
(* ===================================================================== *)

Module Timers.

Import CInt.
Local Open Scope Z_scope.

Record timeval := Timeval { tv_sec : Z; tv_usec : Z }.
Record timespec := Timespec { ts_sec : Z; ts_nsec : Z }.

(** What the C library answers during one call: the return code and the
    value written by [clock_gettime] and [gettimeofday], the value of
    [time(NULL)], and whether [slurm_localtime_r] and [strftime] succeed. *)
Record libc := Libc {
  clock_gettime : Z * timespec;
  gettimeofday : Z * timeval;
  time_NULL : Z;
  localtime_r_ok : bool;
  strftime_ok : bool;
}.

(** Calls of the logging functions of [src/common/log.h]. *)
Inductive log_call :=
  | error (msg : string)
  | verbose (from tv_str : string) (began : Z) (msec : option Z)
  | debug (from tv_str : string) (began : Z) (msec : option Z).

(** [printf]'s [%ld]. *)
Definition fmt_ld (x : Z) : string := NilZero.string_of_int (Z.to_int x).

(** [snprintf(buf, size, ...)] where the formatted text is [out]: nothing is
    written when [size] is zero, otherwise at most [size - 1] characters
    (and the terminating NUL).  [size] is converted to [size_t]. *)
Definition snprintf (buf : string) (size : Z) (out : string) : string :=
  let n := to_size_t size in
  if n =? 0 then buf else String.substring 0 (Z.to_nat (n - 1)) out.

(** Returns the return code and the new contents of [*tv]. *)
Definition slurm_timer_gettime (os : libc) (tv : timeval) : Z * timeval :=
  let '(rc, cur_time) := clock_gettime os in
  if rc =? 0
  then (rc, Timeval (ts_sec cur_time) (ts_nsec cur_time ÷ 1000))
  else (rc, tv).

(** Returns the return value and the new contents of [*tv]. *)
Definition slurm_timer_delta_tv (os : libc) (tv : timeval) : Z * timeval :=
  let now := Timeval 0 0 in
  let '(rc, now) := slurm_timer_gettime os now in
  if negb (rc =? 0) then (1, tv)
  else if tv_sec tv =? 0 then
    (0, Timeval (tv_sec now) (tv_usec now))
  else
    let delta_t := to_int (to_long (to_long (tv_sec now - tv_sec tv) * 1000000)) in
    let delta_t := to_int (to_long (delta_t + to_long (tv_usec now - tv_usec tv))) in
    (delta_t, tv).

Definition slurm_delta_tv (os : libc) (tv : timeval) : Z * timeval :=
  let '(rc, now) := gettimeofday os in
  if negb (rc =? 0) then (1, tv)
  else if tv_sec tv =? 0 then
    (0, Timeval (tv_sec now) (tv_usec now))
  else
    let delta_t := to_int (to_long (to_long (tv_sec now - tv_sec tv) * 1000000)) in
    let delta_t := to_int (to_long (delta_t + to_long (tv_usec now - tv_usec tv))) in
    (delta_t, tv).

(** The outputs of the two [diff_tv_str] functions: the new contents of
    [tv_str], the value stored in [*delta_t], and the log calls made. *)
Record diff_out := DiffOut {
  out_tv_str : string;
  out_delta_t : Z;
  out_log : list log_call;
}.

(** The three assignments to [*delta_t], shared by both functions. *)
Definition diff_delta_t (tv1 tv2 : timeval) : Z :=
  let delta_t := to_long (to_long (tv_sec tv2 - tv_sec tv1) * 1000000) in
  let delta_t := to_long (delta_t + tv_usec tv2) in
  to_long (delta_t - tv_usec tv1).

Definition slurm_timer_diff_tv_str (os : libc) (tv1 tv2 : timeval)
    (tv_str : string) (len_tv_str : Z) (from : option string) (limit : Z)
    : diff_out :=
  let debug_limit := to_int limit in
  let delta_t := diff_delta_t tv1 tv2 in
  let tv_str := snprintf tv_str len_tv_str ("usec=" +:+ fmt_ld delta_t) in
  let log :=
    match from with
    | None => []
    | Some from =>
      let '(limit, debug_limit) :=
        if limit =? 0 then (3000000, 1000000) else (limit, debug_limit) in
      if (debug_limit <? delta_t) || (limit <? delta_t) then
        let realtime := to_long (time_NULL os - delta_t) in
        (if localtime_r_ok os then [] else [error "localtime_r(): %m"]) ++
        (if strftime_ok os then [] else [error "strftime(): %m"]) ++
        [if limit <? delta_t
         then verbose from tv_str realtime None
         else debug from tv_str realtime None]
      else []
    end in
  DiffOut tv_str delta_t log.

Definition slurm_diff_tv_str (os : libc) (tv1 tv2 : timeval)
    (tv_str : string) (len_tv_str : Z) (from : option string) (limit : Z)
    : diff_out :=
  let debug_limit := to_int limit in
  let delta_t := diff_delta_t tv1 tv2 in
  let tv_str := snprintf tv_str len_tv_str ("usec=" +:+ fmt_ld delta_t) in
  let log :=
    match from with
    | None => []
    | Some from =>
      let '(limit, debug_limit) :=
        if limit =? 0 then (3000000, 1000000) else (limit, debug_limit) in
      if (debug_limit <? delta_t) || (limit <? delta_t) then
        (if localtime_r_ok os then [] else [error "localtime_r(): %m"]) ++
        (if strftime_ok os then [] else [error "strftime(): %m"]) ++
        [if limit <? delta_t
         then verbose from tv_str (tv_sec tv1) (Some (to_int (tv_usec tv1 ÷ 1000)))
         else debug from tv_str (tv_sec tv1) (Some (to_int (tv_usec tv1 ÷ 1000)))]
      else []
    end in
  DiffOut tv_str delta_t log.

(** The value the subtraction denotes over the integers. *)
Definition exact_diff (tv1 tv2 : timeval) : Z :=
  (tv_sec tv2 - tv_sec tv1) * 1000000 + tv_usec tv2 - tv_usec tv1.

(** A C library in which every call succeeds at time zero. *)
Definition os0 : libc :=
  Libc (0, Timespec 0 0) (0, Timeval 0 0) 0 true true.

(** The elapsed time returned for a nonzero start time, as the C code
    evaluates it: the seconds are scaled in [long] and stored in an [int],
    then the microseconds are added. *)
Definition elapsed (now tv : timeval) : Z :=
  to_int (to_long (to_int (to_long (to_long (tv_sec now - tv_sec tv) * 1000000))
                   + to_long (tv_usec now - tv_usec tv))).

(** ** The macros of timers.h *)

(** The variables [DEF_TIMERS] declares. *)
Record timers := TimerVars {
  tv1 : timeval;
  tv2 : timeval;
  tv_str : string;
  delta_t : Z;
}.

(** [sizeof(tv_str)] for the [char tv_str[20]] of [DEF_TIMERS]. *)
Definition sizeof_tv_str : Z := 20.

(** [DEF_TIMERS]: only [tv_str] is initialized; the other variables hold
    whatever the stack holds. *)
Definition DEF_TIMERS (tv1 tv2 : timeval) (delta_t : Z) : timers :=
  TimerVars tv1 tv2 "" delta_t.

(** [START_TIMER]: the return code of [slurm_timer_gettime] is dropped. *)
Definition START_TIMER (os : libc) (t : timers) : timers :=
  TimerVars (slurm_timer_gettime os (tv1 t)).2 (tv2 t) (tv_str t) (delta_t t).

(** [END_TIMER3(from, limit)]; the variables afterwards and the log calls. *)
Definition END_TIMER3 (os : libc) (from : option string) (limit : Z)
    (t : timers) : timers * list log_call :=
  let tv2 := (slurm_timer_gettime os (tv2 t)).2 in
  let out :=
    slurm_timer_diff_tv_str os (tv1 t) tv2 (tv_str t) sizeof_tv_str from limit in
  (TimerVars (tv1 t) tv2 (out_tv_str out) (out_delta_t out), out_log out).

(** [END_TIMER] *)
Definition END_TIMER (os : libc) (t : timers) : timers * list log_call :=
  END_TIMER3 os None 0 t.

(** [END_TIMER2(from)] *)
Definition END_TIMER2 (os : libc) (from : option string) (t : timers)
    : timers * list log_call :=
  END_TIMER3 os from 0 t.

Definition INT_MIN : Z := - 2 ^ 31.
Definition INT_MAX : Z := 2 ^ 31 - 1.

(** A C library whose clocks read [sec] seconds and [nsec] nanoseconds. *)
Definition clock_at (sec nsec : Z) : libc :=
  Libc (0, Timespec sec nsec) (0, Timeval sec (nsec ÷ 1000)) sec true true.

End Timers.

(* ===================================================================== *)
(** * slurm_jobacct.c *)
(* ===================================================================== *)

Module Jobacct.

Definition SLURM_SUCCESS : Z := 0.
Definition SLURM_ERROR : Z := -1.

(** ** The operation table *)

(** The fields of [slurm_jobacct_ops_t], in their declared order. *)
Inductive op :=
  | jobacct_init_struct | jobacct_alloc | jobacct_free | jobacct_setinfo
  | jobacct_getinfo | jobacct_aggregate | jobacct_pack | jobacct_unpack
  | jobacct_init | jobacct_fini | jobacct_job_start | jobacct_job_complete
  | jobacct_step_start | jobacct_step_complete | jobacct_suspend
  | jobacct_startpoll | jobacct_endpoll | jobacct_suspendpoll.

(** Position of a field in the structure, counted in function pointers. *)
Definition slot (o : op) : nat :=
  match o with
  | jobacct_init_struct => 0 | jobacct_alloc => 1 | jobacct_free => 2
  | jobacct_setinfo => 3 | jobacct_getinfo => 4 | jobacct_aggregate => 5
  | jobacct_pack => 6 | jobacct_unpack => 7 | jobacct_init => 8
  | jobacct_fini => 9 | jobacct_job_start => 10 | jobacct_job_complete => 11
  | jobacct_step_start => 12 | jobacct_step_complete => 13
  | jobacct_suspend => 14 | jobacct_startpoll => 15 | jobacct_endpoll => 16
  | jobacct_suspendpoll => 17
  end.

Definition syms : list string := [
  "jobacct_p_init_struct";
  "jobacct_p_alloc";
  "jobacct_p_free";
  "jobacct_p_setinfo";
  "jobacct_p_getinfo";
  "jobacct_p_aggregate";
  "jobacct_p_pack";
  "jobacct_p_unpack";
  "jobacct_p_init_slurmctld";
  "jobacct_p_fini_slurmctld";
  "jobacct_p_job_start_slurmctld";
  "jobacct_p_job_complete_slurmctld";
  "jobacct_p_step_start_slurmctld";
  "jobacct_p_step_complete_slurmctld";
  "jobacct_p_suspend_slurmctld";
  "jobacct_p_startpoll";
  "jobacct_p_endpoll";
  "jobacct_p_suspendpoll"
].

(** [sizeof( syms ) / sizeof( char * )] *)
Definition n_syms : Z := Z.of_nat (length syms).

(** ** The plugin loader (src/common/plugin.c, src/common/plugrack.c) *)

(** A plugin file: its full type (["jobacct/linux"]) and the symbols it
    exports. *)
Record plugin := Plugin {
  plugin_type : string;
  plugin_exports : list string;
}.

(** The address of a function inside a loaded plugin. *)
Record fnptr := Fn { fn_plugin : string; fn_sym : string }.

#[export] Instance fnptr_eq_dec : EqDecision fnptr.
Proof. solve_decision. Defined.

(** A [plugin_handle_t]; [PLUGIN_INVALID_HANDLE] is [None]. *)
Abbreviation plugin_handle_t := (option plugin).

Record plugrack := Rack {
  rack_major_type : option string;
  rack_entries : list plugin;
}.

(** The lookup of one name in a loaded module: a callable, or a null
    pointer when the module does not export the name. *)
Definition dlsym (plug : plugin) (name : string) : option fnptr :=
  if bool_decide (name ∈ plugin_exports plug)
  then Some (Fn (plugin_type plug) name) else None.

(** Modelled from the spec: [plugin_get_syms] of src/common/plugin.c, which
    is not among the sources.  It resolves the first [n] names in order
    against the loaded module, stores a callable or a null pointer for each,
    and returns the count of names resolved. *)
Definition plugin_get_syms (plug : plugin) (n : Z) (names : list string)
    : Z * list (option fnptr) :=
  let ptrs := dlsym plug <$> take (Z.to_nat n) names in
  (Z.of_nat (length (omap id ptrs)), ptrs).

(** Modelled from the spec: [plugrack_read_dir] of src/common/plugrack.c,
    which is not among the sources.  The rack holds the candidate backends
    of the directory restricted to the rack's major type. *)
Definition plugrack_read_dir (rack : plugrack) (files : list plugin) : plugrack :=
  match rack_major_type rack with
  | None => rack
  | Some major =>
    Rack (Some major)
      (rack_entries rack ++
       filter (λ p, String.prefix (major +:+ "/") (plugin_type p) = true) files)
  end.

(** Modelled from the spec: [plugrack_use_by_type] of src/common/plugrack.c,
    which is not among the sources.  It selects the entry of the rack whose
    type is the one asked for. *)
Definition plugrack_use_by_type (rack : plugrack) (type : string)
    : plugin_handle_t :=
  snd <$> list_find (λ p, plugin_type p = type) (rack_entries rack).

(** Modelled from the spec: [plugrack_set_major_type] of
    src/common/plugrack.c, which is not among the sources.  It fixes the
    major-type category the rack is restricted to. *)
Definition plugrack_set_major_type (rack : plugrack) (type : string) : plugrack :=
  Rack (Some type) (rack_entries rack).

(** ** The heap *)

Abbreviation addr := positive.

Abbreviation slurm_jobacct_ops_t := (list (option fnptr)).

Record slurm_jobacct_context := Context {
  jobacct_type : option addr;
  plugin_list : option plugrack;
  cur_plugin : plugin_handle_t;
  jobacct_errno : Z;
  ops : slurm_jobacct_ops_t;
}.

Definition set_jobacct_type (v : option addr) (c : slurm_jobacct_context) :=
  Context v (plugin_list c) (cur_plugin c) (jobacct_errno c) (ops c).
Definition set_plugin_list (v : option plugrack) (c : slurm_jobacct_context) :=
  Context (jobacct_type c) v (cur_plugin c) (jobacct_errno c) (ops c).
Definition set_cur_plugin (v : plugin_handle_t) (c : slurm_jobacct_context) :=
  Context (jobacct_type c) (plugin_list c) v (jobacct_errno c) (ops c).
Definition set_jobacct_errno (v : Z) (c : slurm_jobacct_context) :=
  Context (jobacct_type c) (plugin_list c) (cur_plugin c) v (ops c).
Definition set_ops (v : slurm_jobacct_ops_t) (c : slurm_jobacct_context) :=
  Context (jobacct_type c) (plugin_list c) (cur_plugin c) (jobacct_errno c) v.

(** What an allocated block holds: a C string or a context record. *)
Inductive cell :=
  | CStr (s : string)
  | CCtx (c : slurm_jobacct_context).

(** The program state: the heap and the two file-scope variables that
    change ([g_jobacct_context]; the mutex is followed in the trace). *)
Record state := State {
  heap : gmap addr cell;
  g_jobacct_context : option addr;
}.

(** ** The world outside the module *)

(** What the collaborators answer during one facade call. *)
Record world := World {
  (** the configured JobAcctType, as [slurm_get_jobacct_type] returns it *)
  conf_jobacct_type : option string;
  (** the configured plugin directory *)
  conf_plugin_dir : option string;
  (** whether [plugrack_create] returns a rack *)
  plugrack_create_ok : bool;
  (** the plugin files present in the plugin directory *)
  plugin_files : list plugin;
  (** the return code of [plugrack_destroy] *)
  plugrack_destroy_rc : Z;
  (** the value a backend function returns for its arguments *)
  backend_rc : fnptr → list Z → Z;
}.

Inductive event :=
  | EvLock
  | EvUnlock
  | EvInitCheck
  | EvGetType
  | EvRackCreate
  | EvReadDir
  | EvUseByType (type : string)
  | EvGetSyms (rc : Z)
  | EvRackDestroy
  | EvError (msg : string)
  | EvCall (f : fnptr) (args : list Z).

#[export] Instance event_eq_dec : EqDecision event.
Proof. solve_decision. Defined.

(** ** The monad of the embedding

    A computation reads the world, changes the state, and appends to the
    trace of events; [None] is a fault (a null or dangling pointer is
    dereferenced or called, a block is freed twice). *)
Definition M (A : Type) : Type :=
  world → state → option (A * state * list event).

#[export] Instance M_ret : MRet M := λ A a _ s, Some (a, s, []).

#[export] Instance M_bind : MBind M := λ A B f m w s,
  match m w s with
  | Some (a, s1, t1) =>
    match f a w s1 with
    | Some (b, s2, t2) => Some (b, s2, t1 ++ t2)
    | None => None
    end
  | None => None
  end.

Definition fault {A} : M A := λ _ _, None.
Definition emit (e : event) : M unit := λ _ s, Some (tt, s, [e]).
Definition ask : M world := λ w s, Some (w, s, []).
Definition get_context : M (option addr) :=
  λ _ s, Some (g_jobacct_context s, s, []).
Definition set_context (g : option addr) : M unit :=
  λ _ s, Some (tt, State (heap s) g, []).

Definition error (msg : string) : M unit := emit (EvError msg).
Definition slurm_mutex_lock : M unit := emit EvLock.
Definition slurm_mutex_unlock : M unit := emit EvUnlock.

(** Modelled from the spec: [xmalloc], [xfree] and [xstrdup] of
    src/common/xmalloc.c and src/common/xstring.c, which are not among the
    sources.  [xmalloc] returns a block that was not allocated before;
    [xfree] releases a block and does nothing for a null pointer;
    [xstrdup] returns an independently allocated copy, null for null. *)
Definition xmalloc (v : cell) : M addr := λ _ s,
  let p := fresh (dom (heap s)) in
  Some (p, State (<[p := v]> (heap s)) (g_jobacct_context s), []).

Definition xfree (p : option addr) : M unit := λ _ s,
  match p with
  | None => Some (tt, s, [])
  | Some p =>
    match heap s !! p with
    | Some _ => Some (tt, State (delete p (heap s)) (g_jobacct_context s), [])
    | None => None
    end
  end.

Definition load_str (p : option addr) : M string := λ _ s,
  match p with
  | Some p =>
    match heap s !! p with
    | Some (CStr str) => Some (str, s, [])
    | _ => None
    end
  | None => None
  end.

Definition xstrdup (p : option addr) : M (option addr) :=
  match p with
  | None => mret None
  | Some _ => str ← load_str p; q ← xmalloc (CStr str); mret (Some q)
  end.

(** [*c] *)
Definition load_ctx (c : addr) : M slurm_jobacct_context := λ _ s,
  match heap s !! c with
  | Some (CCtx ctx) => Some (ctx, s, [])
  | _ => None
  end.

(** [c->field = v] *)
Definition store_ctx (c : addr)
    (f : slurm_jobacct_context → slurm_jobacct_context) : M unit := λ _ s,
  match heap s !! c with
  | Some (CCtx ctx) =>
    Some (tt, State (<[c := CCtx (f ctx)]> (heap s)) (g_jobacct_context s), [])
  | _ => None
  end.

(** The contents of a block fresh from [xmalloc]: all zero. *)
Definition zero_context : slurm_jobacct_context :=
  Context None None None 0 (replicate (length syms) None).

(** ** Collaborators as computations *)

(** Modelled from the spec: the configuration capability
    [get_backend_type], which is not among the sources.  It returns the
    configured type in a block of its own, null when none is configured. *)
Definition slurm_get_jobacct_type : M (option addr) :=
  emit EvGetType;;
  w ← ask;
  match conf_jobacct_type w with
  | None => mret None
  | Some type => p ← xmalloc (CStr type); mret (Some p)
  end.

(** Modelled from the spec: the configuration capability
    [get_plugin_search_path], which is not among the sources. *)
Definition slurm_get_plugin_dir : M (option addr) :=
  w ← ask;
  match conf_plugin_dir w with
  | None => mret None
  | Some dir => p ← xmalloc (CStr dir); mret (Some p)
  end.

(** The plugin files [plugrack_read_dir] finds in a directory: those of
    the world, none when the directory name is null. *)
Definition dir_plugins (w : world) : list plugin :=
  match conf_plugin_dir w with
  | Some _ => plugin_files w
  | None => []
  end.

(** The directory listing done by [plugrack_read_dir]. *)
Definition list_dir (dir : option addr) : M (list plugin) :=
  emit EvReadDir;;
  w ← ask;
  mret (match dir with Some _ => plugin_files w | None => [] end).

(** Modelled from the spec: [plugrack_create] and [plugrack_destroy] of
    src/common/plugrack.c, which are not among the sources.  The first
    returns an empty rack or null; the second releases the rack and reports
    whether it could. *)
Definition plugrack_create : M (option plugrack) :=
  emit EvRackCreate;;
  w ← ask;
  mret (if plugrack_create_ok w then Some (Rack None []) else None).

Definition plugrack_destroy (rack : plugrack) : M Z :=
  emit EvRackDestroy;;
  w ← ask;
  mret (plugrack_destroy_rc w).


(** ** The functions of slurm_jobacct.c *)

(** Returns the new context, [None] for [NULL]. *)
Definition _slurm_jobacct_context_create (jobacct_type : option addr)
    : M (option addr) :=
  match jobacct_type with
  | None =>
    error "_slurm_jobacct_context_create: no jobacct type";;
    mret None
  | Some _ =>
    c ← xmalloc (CCtx zero_context);
    store_ctx c (set_jobacct_errno SLURM_SUCCESS);;
    (* Copy the job completion job completion type. *)
    copy ← xstrdup jobacct_type;
    store_ctx c (set_jobacct_type copy);;
    match copy with
    | None =>
      error "can't make local copy of jobacct type";;
      xfree (Some c);;
      mret None
    | Some _ =>
      (* Plugin rack is demand-loaded on first reference. *)
      store_ctx c (set_plugin_list None);;
      store_ctx c (set_cur_plugin None);;
      mret (Some c)
    end
  end.

Definition _slurm_jobacct_context_destroy (c : addr) : M Z :=
  ctx ← load_ctx c;
  let release : M Z :=
    xfree (jobacct_type ctx);;
    xfree (Some c);;
    mret SLURM_SUCCESS in
  match plugin_list ctx with
  | Some rack =>
    rc ← plugrack_destroy rack;
    if bool_decide (rc ≠ SLURM_SUCCESS) then mret SLURM_ERROR else release
  | None => release
  end.

(** Resolve the operations from the plugin.  Returns [Some c] for
    [&c->ops] and [None] for [NULL]. *)
Definition _slurm_jobacct_get_ops (c : addr) : M (option addr) :=
  ctx ← load_ctx c;
  (* Get the plugin list, if needed. *)
  have_rack ←
    match plugin_list ctx with
    | None =>
      rack ← plugrack_create;
      store_ctx c (set_plugin_list rack);;
      match rack with
      | None =>
        error "Unable to create a plugin manager";;
        mret false
      | Some rack =>
        let rack := plugrack_set_major_type rack "jobacct" in
        store_ctx c (set_plugin_list (Some rack));;
        plugin_dir ← slurm_get_plugin_dir;
        files ← list_dir plugin_dir;
        store_ctx c (set_plugin_list (Some (plugrack_read_dir rack files)));;
        xfree plugin_dir;;
        mret true
      end
    | Some _ => mret true
    end;
  if negb have_rack then mret None else
  (* Find the correct plugin. *)
  ctx ← load_ctx c;
  type ← load_str (jobacct_type ctx);
  emit (EvUseByType type);;
  let handle :=
    match plugin_list ctx with
    | Some rack => plugrack_use_by_type rack type
    | None => None
    end in
  store_ctx c (set_cur_plugin handle);;
  match handle with
  | None =>
    error "can't find a plugin for type %s";;
    mret None
  | Some plug =>
    (* Dereference the API. *)
    let '(rc, ptrs) := plugin_get_syms plug n_syms syms in
    emit (EvGetSyms rc);;
    store_ctx c (set_ops ptrs);;
    if (rc <? n_syms)%Z then
      error "incomplete jobacct plugin detected only got %d out of %d";;
      mret None
    else mret (Some c)
  end.

Definition _slurm_jobacct_init : M Z :=
  slurm_mutex_lock;;
  emit EvInitCheck;;
  g ← get_context;
  '(retval, jobacct_type) ←
    match g with
    | Some _ => mret (SLURM_SUCCESS, None)
    | None =>
      jobacct_type ← slurm_get_jobacct_type;
      c ← _slurm_jobacct_context_create jobacct_type;
      set_context c;;
      match c with
      | None =>
        error "cannot create a context for %s";;
        mret (SLURM_ERROR, jobacct_type)
      | Some c =>
        resolved ← _slurm_jobacct_get_ops c;
        match resolved with
        | None =>
          error "cannot resolve job accounting plugin operations";;
          _slurm_jobacct_context_destroy c;;
          set_context None;;
          mret (SLURM_ERROR, jobacct_type)
        | Some _ => mret (SLURM_SUCCESS, jobacct_type)
        end
      end
    end;
  slurm_mutex_unlock;;
  xfree jobacct_type;;
  mret retval.

Definition _slurm_jobacct_fini : M Z :=
  g ← get_context;
  match g with
  | None => mret SLURM_SUCCESS
  | Some c =>
    rc ← _slurm_jobacct_context_destroy c;
    set_context None;;
    mret rc
  end.

(** [( *(c->ops.o))(args)]: the call through the operation table. *)
Definition call_op (c : addr) (o : op) (args : list Z) : M Z :=
  ctx ← load_ctx c;
  match ops ctx !! slot o with
  | Some (Some f) =>
    emit (EvCall f args);;
    w ← ask;
    mret (backend_rc w f args)
  | _ => fault
  end.

(** [if ( g_jobacct_context ) retval = ( *(g_jobacct_context->ops.o))(args);] *)
Definition if_context_call (o : op) (args : list Z) (retval : Z) : M Z :=
  g ← get_context;
  match g with
  | Some c => call_op c o args
  | None => mret retval
  end.

Definition jobacct_g_init_struct (jobacct : Z) : M Z :=
  let retval := SLURM_SUCCESS in
  rc ← _slurm_jobacct_init;
  if (rc <? 0)%Z then mret SLURM_ERROR else
  slurm_mutex_lock;;
  retval ← if_context_call jobacct_init_struct [jobacct] retval;
  slurm_mutex_unlock;;
  mret retval.

(** The record returned is an address, 0 for [NULL]. *)
Definition jobacct_g_alloc : M Z :=
  let jobacct := 0%Z in
  rc ← _slurm_jobacct_init;
  if (rc <? 0)%Z then mret jobacct else
  slurm_mutex_lock;;
  jobacct ← if_context_call jobacct_alloc [] jobacct;
  slurm_mutex_unlock;;
  mret jobacct.

Definition jobacct_g_free (jobacct : Z) : M Z :=
  let retval := SLURM_SUCCESS in
  slurm_mutex_lock;;
  retval ← if_context_call jobacct_free [jobacct] retval;
  slurm_mutex_unlock;;
  mret retval.

Definition jobacct_g_setinfo (jobacct type data : Z) : M Z :=
  let retval := SLURM_SUCCESS in
  slurm_mutex_lock;;
  retval ← if_context_call jobacct_setinfo [jobacct; type; data] retval;
  slurm_mutex_unlock;;
  mret retval.

Definition jobacct_g_getinfo (jobacct type data : Z) : M Z :=
  let retval := SLURM_SUCCESS in
  slurm_mutex_lock;;
  retval ← if_context_call jobacct_getinfo [jobacct; type; data] retval;
  slurm_mutex_unlock;;
  mret retval.

Definition jobacct_g_aggregate (dest from : Z) : M unit :=
  slurm_mutex_lock;;
  if_context_call jobacct_aggregate [dest; from] 0%Z;;
  slurm_mutex_unlock;;
  mret tt.

Definition jobacct_g_pack (jobacct buffer : Z) : M unit :=
  slurm_mutex_lock;;
  if_context_call jobacct_pack [jobacct; buffer] 0%Z;;
  slurm_mutex_unlock;;
  mret tt.

Definition jobacct_g_unpack (jobacct buffer : Z) : M Z :=
  let retval := SLURM_SUCCESS in
  slurm_mutex_lock;;
  retval ← if_context_call jobacct_unpack [jobacct; buffer] retval;
  slurm_mutex_unlock;;
  mret retval.

Definition jobacct_g_init_slurmctld (job_acct_log : Z) : M Z :=
  let retval := SLURM_SUCCESS in
  rc ← _slurm_jobacct_init;
  if (rc <? 0)%Z then mret SLURM_ERROR else
  slurm_mutex_lock;;
  retval ← if_context_call jobacct_init [job_acct_log] retval;
  slurm_mutex_unlock;;
  mret retval.

Definition jobacct_g_fini_slurmctld : M Z :=
  let retval := SLURM_SUCCESS in
  slurm_mutex_lock;;
  retval ← if_context_call jobacct_fini [] retval;
  slurm_mutex_unlock;;
  rc ← _slurm_jobacct_fini;
  if (rc <? 0)%Z then mret SLURM_ERROR else
  mret retval.

Definition jobacct_g_job_start_slurmctld (job_ptr : Z) : M Z :=
  let retval := SLURM_SUCCESS in
  slurm_mutex_lock;;
  retval ← if_context_call jobacct_job_start [job_ptr] retval;
  slurm_mutex_unlock;;
  mret retval.

Definition jobacct_g_job_complete_slurmctld (job_ptr : Z) : M Z :=
  let retval := SLURM_SUCCESS in
  slurm_mutex_lock;;
  retval ← if_context_call jobacct_job_complete [job_ptr] retval;
  slurm_mutex_unlock;;
  mret retval.

Definition jobacct_g_step_start_slurmctld (step_ptr : Z) : M Z :=
  let retval := SLURM_SUCCESS in
  slurm_mutex_lock;;
  retval ← if_context_call jobacct_step_start [step_ptr] retval;
  slurm_mutex_unlock;;
  mret retval.

Definition jobacct_g_step_complete_slurmctld (step_ptr : Z) : M Z :=
  let retval := SLURM_SUCCESS in
  slurm_mutex_lock;;
  retval ← if_context_call jobacct_step_complete [step_ptr] retval;
  slurm_mutex_unlock;;
  mret retval.

Definition jobacct_g_suspend_slurmctld (job_ptr : Z) : M Z :=
  let retval := SLURM_SUCCESS in
  slurm_mutex_lock;;
  retval ← if_context_call jobacct_suspend [job_ptr] retval;
  slurm_mutex_unlock;;
  mret retval.

Definition jobacct_g_startpoll (frequency : Z) : M Z :=
  let retval := SLURM_SUCCESS in
  rc ← _slurm_jobacct_init;
  if (rc <? 0)%Z then mret SLURM_ERROR else
  slurm_mutex_lock;;
  retval ← if_context_call jobacct_startpoll [frequency] retval;
  slurm_mutex_unlock;;
  mret retval.

Definition jobacct_g_endpoll (job : Z) : M Z :=
  let retval := SLURM_SUCCESS in
  slurm_mutex_lock;;
  retval ← if_context_call jobacct_endpoll [job] retval;
  slurm_mutex_unlock;;
  mret retval.

Definition jobacct_g_suspendpoll : M unit :=
  slurm_mutex_lock;;
  if_context_call jobacct_suspendpoll [] 0%Z;;
  slurm_mutex_unlock;;
  mret tt.


(** The second critical section of the entry points that initialize
    lazily, and the only one of most others: lock, dispatch, unlock. *)
Definition dispatch_section (o : op) (args : list Z) (retval : Z) : M Z :=
  slurm_mutex_lock;;
  retval ← if_context_call o args retval;
  slurm_mutex_unlock;;
  mret retval.

(** ** The facade as a whole *)

(** One constructor for each public entry point, with its arguments. *)
Inductive entry :=
  | g_init_struct (jobacct : Z)
  | g_alloc
  | g_free (jobacct : Z)
  | g_setinfo (jobacct type data : Z)
  | g_getinfo (jobacct type data : Z)
  | g_aggregate (dest from : Z)
  | g_pack (jobacct buffer : Z)
  | g_unpack (jobacct buffer : Z)
  | g_init_slurmctld (job_acct_log : Z)
  | g_fini_slurmctld
  | g_job_start_slurmctld (job_ptr : Z)
  | g_job_complete_slurmctld (job_ptr : Z)
  | g_step_start_slurmctld (step_ptr : Z)
  | g_step_complete_slurmctld (step_ptr : Z)
  | g_suspend_slurmctld (job_ptr : Z)
  | g_startpoll (frequency : Z)
  | g_endpoll (job : Z)
  | g_suspendpoll.

#[export] Instance entry_eq_dec : EqDecision entry.
Proof. solve_decision. Defined.

(** The call of an entry point; a [void] function yields 0. *)
Definition facade (e : entry) : M Z :=
  match e with
  | g_init_struct j => jobacct_g_init_struct j
  | g_alloc => jobacct_g_alloc
  | g_free j => jobacct_g_free j
  | g_setinfo j t d => jobacct_g_setinfo j t d
  | g_getinfo j t d => jobacct_g_getinfo j t d
  | g_aggregate d f => jobacct_g_aggregate d f;; mret 0%Z
  | g_pack j b => jobacct_g_pack j b;; mret 0%Z
  | g_unpack j b => jobacct_g_unpack j b
  | g_init_slurmctld l => jobacct_g_init_slurmctld l
  | g_fini_slurmctld => jobacct_g_fini_slurmctld
  | g_job_start_slurmctld j => jobacct_g_job_start_slurmctld j
  | g_job_complete_slurmctld j => jobacct_g_job_complete_slurmctld j
  | g_step_start_slurmctld p => jobacct_g_step_start_slurmctld p
  | g_step_complete_slurmctld p => jobacct_g_step_complete_slurmctld p
  | g_suspend_slurmctld j => jobacct_g_suspend_slurmctld j
  | g_startpoll f => jobacct_g_startpoll f
  | g_endpoll j => jobacct_g_endpoll j
  | g_suspendpoll => jobacct_g_suspendpoll;; mret 0%Z
  end.

(** The operation an entry point delegates to, with the arguments it
    passes on. *)
Definition entry_call (e : entry) : op * list Z :=
  match e with
  | g_init_struct j => (jobacct_init_struct, [j])
  | g_alloc => (jobacct_alloc, [])
  | g_free j => (jobacct_free, [j])
  | g_setinfo j t d => (jobacct_setinfo, [j; t; d])
  | g_getinfo j t d => (jobacct_getinfo, [j; t; d])
  | g_aggregate d f => (jobacct_aggregate, [d; f])
  | g_pack j b => (jobacct_pack, [j; b])
  | g_unpack j b => (jobacct_unpack, [j; b])
  | g_init_slurmctld l => (jobacct_init, [l])
  | g_fini_slurmctld => (jobacct_fini, [])
  | g_job_start_slurmctld j => (jobacct_job_start, [j])
  | g_job_complete_slurmctld j => (jobacct_job_complete, [j])
  | g_step_start_slurmctld p => (jobacct_step_start, [p])
  | g_step_complete_slurmctld p => (jobacct_step_complete, [p])
  | g_suspend_slurmctld j => (jobacct_suspend, [j])
  | g_startpoll f => (jobacct_startpoll, [f])
  | g_endpoll j => (jobacct_endpoll, [j])
  | g_suspendpoll => (jobacct_suspendpoll, [])
  end.

(** The entry points declared [void]. *)
Definition returns_void (e : entry) : bool :=
  match e with
  | g_aggregate _ _ | g_pack _ _ | g_suspendpoll => true
  | _ => false
  end.

(** The entry points whose body starts with a call of
    [_slurm_jobacct_init]. *)
Definition calls_init (e : entry) : bool :=
  match e with
  | g_init_struct _ | g_alloc | g_init_slurmctld _ | g_startpoll _ => true
  | _ => false
  end.

(** ** Observations on states and traces *)

Definition is_call (e : event) : bool :=
  match e with EvCall _ _ => true | _ => false end.

Definition is_lock (e : event) : bool :=
  match e with EvLock => true | _ => false end.

Definition is_unlock (e : event) : bool :=
  match e with EvUnlock => true | _ => false end.

Definition is_get_type (e : event) : bool :=
  match e with EvGetType => true | _ => false end.

(** The backend functions invoked, in order. *)
Definition backend_calls (t : list event) : list event :=
  List.filter is_call t.

(** Some backend function was invoked. *)
Definition calls_backend (t : list event) : bool := existsb is_call t.

(** An initialization was attempted: the backend type was read from the
    configuration. *)
Definition attempts_init (t : list event) : bool := existsb is_get_type t.

(** The mutex along a trace, starting held or not: it is never taken
    while held nor released while free, the initialization check and the
    backend calls happen while it is held, and it is free at the end. *)
Fixpoint lock_discipline (held : bool) (t : list event) : bool :=
  match t with
  | [] => negb held
  | EvLock :: t => negb held && lock_discipline true t
  | EvUnlock :: t => held && lock_discipline false t
  | EvInitCheck :: t => held && lock_discipline held t
  | EvCall _ _ :: t => held && lock_discipline held t
  | _ :: t => lock_discipline held t
  end.

(** Events of the loader and of the log: they neither touch the mutex nor
    call the backend nor read the configured type. *)
Definition quiet (t : list event) : bool :=
  forallb (λ e, match e with
                | EvLock | EvUnlock | EvInitCheck | EvGetType | EvCall _ _ => false
                | _ => true
                end) t.

(** The number of times the mutex is taken. *)
Definition critical_sections (t : list event) : nat :=
  length (List.filter is_lock t).

(** The mutex is taken once, before everything else, and released once,
    after everything else. *)
Definition one_critical_section (t : list event) : bool :=
  match t with
  | EvLock :: t' =>
    match reverse t' with
    | EvUnlock :: body =>
      negb (existsb is_lock body) && negb (existsb is_unlock body)
    | _ => false
    end
  | _ => false
  end.

(** Every slot of the table holds a function. *)
Definition fully_resolved (o : slurm_jobacct_ops_t) : bool :=
  bool_decide (length o = length syms) && forallb (λ f, bool_decide (is_Some f)) o.

(** The global context, when there is one, is a live context record with a
    fully resolved table and owns a live copy of the type name. *)
Definition ready (s : state) : bool :=
  match g_jobacct_context s with
  | None => true
  | Some c =>
    match heap s !! c with
    | Some (CCtx ctx) =>
      fully_resolved (ops ctx) &&
      match jobacct_type ctx with
      | Some q =>
        bool_decide (q ≠ c) &&
        match heap s !! q with Some (CStr _) => true | _ => false end
      | None => false
      end
    | _ => false
    end
  end.

(** The backend the loader selects in a world: the plugin of the
    configured type among the jobacct plugins of the plugin directory. *)
Definition selected_backend (w : world) : option plugin :=
  match conf_jobacct_type w with
  | Some type =>
    if plugrack_create_ok w then
      plugrack_use_by_type
        (plugrack_read_dir (Rack (Some "jobacct") []) (dir_plugins w)) type
    else None
  | None => None
  end.

(** How many of the required operation names a backend resolves. *)
Definition resolved_count (plug : plugin) : Z :=
  (plugin_get_syms plug n_syms syms).1.

(** The context record as [_slurm_jobacct_context_create] leaves it, [q]
    being the address of its copy of the type name. *)
Definition new_context (q : addr) : slurm_jobacct_context :=
  Context (Some q) None None SLURM_SUCCESS (replicate (length syms) None).

(** The states the program can be in: it starts without a context, and
    every facade call that returns leads to the next state, whatever the
    world is at that time. *)
Inductive reachable : state → Prop :=
  | reachable_start h : reachable (State h None)
  | reachable_call s e w r s' t :
      reachable s → facade e w s = Some (r, s', t) → reachable s'.

(** ** Outcomes, as functions of the world *)

(** What [_slurm_jobacct_get_ops] does to a context fresh from
    [_slurm_jobacct_context_create] whose type name is [type]: whether it
    succeeds, the context record afterwards, the events. *)
Definition get_ops_outcome (w : world) (type : string) (q : addr)
    : bool * slurm_jobacct_context * list event :=
  if plugrack_create_ok w then
    let rack :=
      plugrack_read_dir (Rack (Some "jobacct") []) (dir_plugins w) in
    match plugrack_use_by_type rack type with
    | None =>
      (false,
       Context (Some q) (Some rack) None SLURM_SUCCESS
         (replicate (length syms) None),
       [EvRackCreate; EvReadDir; EvUseByType type;
        EvError "can't find a plugin for type %s"])
    | Some plug =>
      let rc := (plugin_get_syms plug n_syms syms).1 in
      let ptrs := (plugin_get_syms plug n_syms syms).2 in
      (negb (rc <? n_syms)%Z,
       Context (Some q) (Some rack) (Some plug) SLURM_SUCCESS ptrs,
       [EvRackCreate; EvReadDir; EvUseByType type; EvGetSyms rc] ++
       if (rc <? n_syms)%Z
       then [EvError "incomplete jobacct plugin detected only got %d out of %d"]
       else [])
    end
  else
    (false, new_context q,
     [EvRackCreate; EvError "Unable to create a plugin manager"]).

(** What [_slurm_jobacct_init] does when there is no context: its return
    value, the state afterwards and the events, where [c] and [q] are the
    addresses the context record and its copy of the type name get. *)
Definition init_outcome (w : world) (h : gmap addr cell) (c q : addr)
    : Z * state * list event :=
  match conf_jobacct_type w with
  | None =>
    (SLURM_ERROR, State h None,
     [EvLock; EvInitCheck; EvGetType;
      EvError "_slurm_jobacct_context_create: no jobacct type";
      EvError "cannot create a context for %s"; EvUnlock])
  | Some type =>
    let '(ok, ctx, t) := get_ops_outcome w type q in
    let installed := <[c := CCtx ctx]> (<[q := CStr type]> h) in
    if ok then
      (SLURM_SUCCESS, State installed (Some c),
       [EvLock; EvInitCheck; EvGetType] ++ t ++ [EvUnlock])
    else
      match plugin_list ctx with
      | None =>
        (SLURM_ERROR, State h None,
         [EvLock; EvInitCheck; EvGetType] ++ t ++
         [EvError "cannot resolve job accounting plugin operations"; EvUnlock])
      | Some _ =>
        (SLURM_ERROR,
         State (if bool_decide (plugrack_destroy_rc w ≠ SLURM_SUCCESS)
                then installed else h) None,
         [EvLock; EvInitCheck; EvGetType] ++ t ++
         [EvError "cannot resolve job accounting plugin operations";
          EvRackDestroy; EvUnlock])
      end
  end.

(** [plugrack_destroy] is called and refuses. *)
Definition destroy_fails (w : world) (ctx : slurm_jobacct_context) : bool :=
  match plugin_list ctx with
  | Some _ => bool_decide (plugrack_destroy_rc w ≠ SLURM_SUCCESS)
  | None => false
  end.

(** The value an entry point returns when its initialization fails. *)
Definition init_failed_value (e : entry) : Z :=
  match e with g_alloc => 0%Z | _ => SLURM_ERROR end.

(** The value an entry point returns when the backend returned [v]. *)
Definition returned (e : entry) (v : Z) : Z :=
  if returns_void e then 0%Z else v.

(** ** Worlds and states to evaluate on *)

Definition linux_plugin : plugin := Plugin "jobacct/linux" syms.

(** A backend with only 17 of the 18 operations. *)
Definition partial_plugin : plugin :=
  Plugin "jobacct/linux" (take 17 syms).

Definition world_of (type : option string) (files : list plugin)
    (destroy_rc : Z) (rc : fnptr → list Z → Z) : world :=
  World type (Some "/usr/lib/slurm") true files destroy_rc rc.

Definition good_world : world :=
  world_of (Some "jobacct/linux") [linux_plugin] SLURM_SUCCESS (λ _ _, 0%Z).

(** A world in which the rack cannot be destroyed. *)
Definition busy_world : world :=
  world_of (Some "jobacct/linux") [linux_plugin] SLURM_ERROR (λ _ _, 0%Z).

(** A world whose only backend is incomplete. *)
Definition partial_world : world :=
  world_of (Some "jobacct/linux") [partial_plugin] SLURM_SUCCESS (λ _ _, 0%Z).

(** A world whose backend reports failure from every operation. *)
Definition failing_world : world :=
  world_of (Some "jobacct/linux") [linux_plugin] SLURM_SUCCESS (λ _ _, SLURM_ERROR).

Definition start : state := State ∅ None.

(** A heap with a context record at address 1, which has a rack and owns
    the type name at address 2. *)
Definition racked_heap : gmap addr cell :=
  <[1%positive :=
      CCtx (set_plugin_list (Some (Rack (Some "jobacct") [linux_plugin]))
                            (new_context 2))]>
    (<[2%positive := CStr "jobacct/linux"]> ∅).

(** The state after a first successful initialization. *)
Definition after_init : state :=
  match facade (g_init_struct 0) good_world start with
  | Some (_, s, _) => s
  | None => start
  end.

(** ** Names and programs *)

(** The symbol of the plugin that a facade entry point is named after:
    [jobacct_g_x] goes with [jobacct_p_x]. *)
Definition entry_symbol (e : entry) : string :=
  match e with
  | g_init_struct _ => "jobacct_p_init_struct"
  | g_alloc => "jobacct_p_alloc"
  | g_free _ => "jobacct_p_free"
  | g_setinfo _ _ _ => "jobacct_p_setinfo"
  | g_getinfo _ _ _ => "jobacct_p_getinfo"
  | g_aggregate _ _ => "jobacct_p_aggregate"
  | g_pack _ _ => "jobacct_p_pack"
  | g_unpack _ _ => "jobacct_p_unpack"
  | g_init_slurmctld _ => "jobacct_p_init_slurmctld"
  | g_fini_slurmctld => "jobacct_p_fini_slurmctld"
  | g_job_start_slurmctld _ => "jobacct_p_job_start_slurmctld"
  | g_job_complete_slurmctld _ => "jobacct_p_job_complete_slurmctld"
  | g_step_start_slurmctld _ => "jobacct_p_step_start_slurmctld"
  | g_step_complete_slurmctld _ => "jobacct_p_step_complete_slurmctld"
  | g_suspend_slurmctld _ => "jobacct_p_suspend_slurmctld"
  | g_startpoll _ => "jobacct_p_startpoll"
  | g_endpoll _ => "jobacct_p_endpoll"
  | g_suspendpoll => "jobacct_p_suspendpoll"
  end.

(** A caller: facade calls made one after the other, each in the world of
    its time.  Returns the values returned, the last state and the whole
    trace. *)
Fixpoint run_calls (calls : list (entry * world)) (s : state)
    : option (list Z * state * list event) :=
  match calls with
  | [] => Some ([], s, [])
  | (e, w) :: rest =>
    match facade e w s with
    | Some (r, s1, t1) =>
      match run_calls rest s1 with
      | Some (rs, s2, t2) => Some (r :: rs, s2, t1 ++ t2)
      | None => None
      end
    | None => None
    end
  end.

(** The rack [_slurm_jobacct_get_ops] builds in a world. *)
Definition world_rack (w : world) : plugrack :=
  plugrack_read_dir (Rack (Some "jobacct") []) (dir_plugins w).

(** The context record a successful initialization installs for the
    backend [plug], [q] being the address of the type name. *)
Definition installed_context (w : world) (plug : plugin) (q : addr)
    : slurm_jobacct_context :=
  Context (Some q) (Some (world_rack w)) (Some plug) SLURM_SUCCESS
          (plugin_get_syms plug n_syms syms).2.

(** A world without a configured type, and one in which no rack can be
    created. *)
Definition untyped_world : world :=
  World None (Some "/usr/lib/slurm") true [linux_plugin] SLURM_SUCCESS (λ _ _, 0%Z).

Definition rackless_world : world :=
  World (Some "jobacct/linux") (Some "/usr/lib/slurm") false [linux_plugin]
        SLURM_SUCCESS (λ _ _, 0%Z).

(** A world whose backend returns 42 from every operation. *)
Definition answering_world : world :=
  world_of (Some "jobacct/linux") [linux_plugin] SLURM_SUCCESS (λ _ _, 42%Z).

End Jobacct.

(* ===================================================================== *)
(** * slurm_jobacct.c: callers running concurrently *)
(* ===================================================================== *)

Module Threads.

Import Jobacct.

(** ** Entry points as sequences of sections

    The text of an entry point cut at its [slurm_mutex_lock] and
    [slurm_mutex_unlock] calls: [Locked body k] is
    [slurm_mutex_lock; body; slurm_mutex_unlock] followed by [k] on what
    the body computed, [Unlocked body k] is code between two critical
    sections, and [Return] leaves the function. *)
Inductive prog (A : Type) : Type :=
  | Return (a : A)
  | Locked {B : Type} (body : M B) (k : B → prog A)
  | Unlocked {B : Type} (body : M B) (k : B → prog A).

Arguments Return {A} a.
Arguments Locked {A B} body k.
Arguments Unlocked {A B} body k.

(** A program run by one caller alone, from its first statement to its
    return. *)
Fixpoint run {A} (p : prog A) : M A :=
  match p with
  | Return a => mret a
  | Locked body k =>
    slurm_mutex_lock;; b ← body; slurm_mutex_unlock;; run (k b)
  | Unlocked body k => b ← body; run (k b)
  end.

(** The statements of [_slurm_jobacct_init] between its
    [slurm_mutex_lock] and its [slurm_mutex_unlock], [done:] being the end;
    they yield [retval] and [jobacct_type]. *)
Definition init_section : M (Z * option addr) :=
  emit EvInitCheck;;
  g ← get_context;
  match g with
  | Some _ => mret (SLURM_SUCCESS, None)
  | None =>
    jobacct_type ← slurm_get_jobacct_type;
    c ← _slurm_jobacct_context_create jobacct_type;
    set_context c;;
    match c with
    | None =>
      error "cannot create a context for %s";;
      mret (SLURM_ERROR, jobacct_type)
    | Some c =>
      resolved ← _slurm_jobacct_get_ops c;
      match resolved with
      | None =>
        error "cannot resolve job accounting plugin operations";;
        _slurm_jobacct_context_destroy c;;
        set_context None;;
        mret (SLURM_ERROR, jobacct_type)
      | Some _ => mret (SLURM_SUCCESS, jobacct_type)
      end
    end
  end.

(** [_slurm_jobacct_init], followed by [k] on the value it returns: one
    critical section, then [xfree(jobacct_type)] without the lock. *)
Definition init_prog {A} (k : Z → prog A) : prog A :=
  Locked init_section (λ '(retval, jobacct_type),
    Unlocked (xfree jobacct_type) (λ _, k retval)).

(** [slurm_mutex_lock; if ( g_jobacct_context ) retval = ( *ops.o)(args);
    slurm_mutex_unlock], followed by [k] on [retval]. *)
Definition dispatch_prog {A} (o : op) (args : list Z) (retval : Z)
    (k : Z → prog A) : prog A :=
  Locked (if_context_call o args retval) k.

(** The body of an entry point that initializes lazily: [failed] is what
    it returns when [_slurm_jobacct_init() < 0], [retval] the initial value
    of the variable it returns otherwise. *)
Definition lazy_prog (failed : Z) (o : op) (args : list Z) (retval : Z)
    : prog Z :=
  init_prog (λ rc,
    if (rc <? 0)%Z then Return failed
    else dispatch_prog o args retval Return).

Definition entry_prog (e : entry) : prog Z :=
  match e with
  | g_init_struct j =>
    lazy_prog SLURM_ERROR jobacct_init_struct [j] SLURM_SUCCESS
  | g_alloc => lazy_prog 0 jobacct_alloc [] 0
  | g_free j => dispatch_prog jobacct_free [j] SLURM_SUCCESS Return
  | g_setinfo j t d =>
    dispatch_prog jobacct_setinfo [j; t; d] SLURM_SUCCESS Return
  | g_getinfo j t d =>
    dispatch_prog jobacct_getinfo [j; t; d] SLURM_SUCCESS Return
  | g_aggregate d f =>
    dispatch_prog jobacct_aggregate [d; f] 0 (λ _, Return 0%Z)
  | g_pack j b => dispatch_prog jobacct_pack [j; b] 0 (λ _, Return 0%Z)
  | g_unpack j b => dispatch_prog jobacct_unpack [j; b] SLURM_SUCCESS Return
  | g_init_slurmctld l =>
    lazy_prog SLURM_ERROR jobacct_init [l] SLURM_SUCCESS
  | g_fini_slurmctld =>
    dispatch_prog jobacct_fini [] SLURM_SUCCESS (λ retval,
      Unlocked _slurm_jobacct_fini (λ rc,
        if (rc <? 0)%Z then Return SLURM_ERROR else Return retval))
  | g_job_start_slurmctld j =>
    dispatch_prog jobacct_job_start [j] SLURM_SUCCESS Return
  | g_job_complete_slurmctld j =>
    dispatch_prog jobacct_job_complete [j] SLURM_SUCCESS Return
  | g_step_start_slurmctld p =>
    dispatch_prog jobacct_step_start [p] SLURM_SUCCESS Return
  | g_step_complete_slurmctld p =>
    dispatch_prog jobacct_step_complete [p] SLURM_SUCCESS Return
  | g_suspend_slurmctld j =>
    dispatch_prog jobacct_suspend [j] SLURM_SUCCESS Return
  | g_startpoll f =>
    lazy_prog SLURM_ERROR jobacct_startpoll [f] SLURM_SUCCESS
  | g_endpoll j => dispatch_prog jobacct_endpoll [j] SLURM_SUCCESS Return
  | g_suspendpoll =>
    dispatch_prog jobacct_suspendpoll [] 0 (λ _, Return 0%Z)
  end.

(** ** Callers interleaved

    Where a caller is in its entry point: before a section or the return,
    inside a critical section with the lock taken and the body to run,
    at the [slurm_mutex_unlock] that ends it, or back in its caller. *)
Inductive pc : Type :=
  | Running (p : prog Z)
  | Holding {B : Type} (body : M B) (k : B → prog Z)
  | Releasing (p : prog Z)
  | Returned (r : Z).

(** The caller is between its [slurm_mutex_lock] and its
    [slurm_mutex_unlock]. *)
Definition in_section (c : pc) : bool :=
  match c with
  | Holding _ _ | Releasing _ => true
  | _ => false
  end.

(** The process: the state the callers share, the thread that holds
    [g_jobacct_context_lock], and each caller with the world it sees. *)
Record config := Config {
  shared : state;
  holder : option nat;
  pool : list (world * pc);
}.

(** The events of caller [i]. *)
Definition tag (i : nat) (t : list event) : list (nat * event) :=
  pair i <$> t.

(** One step of caller [i].  [slurm_mutex_lock] returns only when no
    caller holds the mutex.  The statements between a lock and its unlock
    are one step, run on the shared state as it is at that time; the lock,
    the unlock, the code outside the critical sections and the return are
    steps of their own, so another caller may step between any two of
    them. *)
Inductive step (i : nat) : config → list (nat * event) → config → Prop :=
  | step_lock s l w B (body : M B) k :
      l !! i = Some (w, Running (Locked body k)) →
      step i (Config s None l) [(i, EvLock)]
           (Config s (Some i) (<[i := (w, Holding body k)]> l))
  | step_body s h l w B (body : M B) k b s' t :
      l !! i = Some (w, Holding body k) →
      body w s = Some (b, s', t) →
      step i (Config s h l) (tag i t)
           (Config s' h (<[i := (w, Releasing (k b))]> l))
  | step_unlock s h l w p :
      l !! i = Some (w, Releasing p) →
      step i (Config s h l) [(i, EvUnlock)]
           (Config s None (<[i := (w, Running p)]> l))
  | step_unlocked s h l w B (body : M B) k b s' t :
      l !! i = Some (w, Running (Unlocked body k)) →
      body w s = Some (b, s', t) →
      step i (Config s h l) (tag i t)
           (Config s' h (<[i := (w, Running (k b))]> l))
  | step_return s h l w r :
      l !! i = Some (w, Running (Return r)) →
      step i (Config s h l) []
           (Config s h (<[i := (w, Returned r)]> l)).

(** An execution: steps of the callers in any order. *)
Inductive steps : config → list (nat * event) → config → Prop :=
  | steps_done c : steps c [] c
  | steps_more c1 i t1 c2 t2 c3 :
      step i c1 t1 c2 → steps c2 t2 c3 → steps c1 (t1 ++ t2) c3.

(** Callers about to enter their entry points, the mutex free. *)
Definition start_config (calls : list (entry * world)) (s : state) : config :=
  Config s None ((λ c, (c.2, Running (entry_prog c.1))) <$> calls).

(** The mutex along an interleaved trace, [h] holding it at first: it is
    taken only when free and released only by its holder, and the
    initialization check, every step of the initialization, every log
    message and every backend call is made by the caller that holds it.
    The destruction of a rack is not constrained. *)
Fixpoint exclusive (h : option nat) (t : list (nat * event)) : bool :=
  match t with
  | [] => true
  | (i, EvLock) :: t => bool_decide (h = None) && exclusive (Some i) t
  | (i, EvUnlock) :: t => bool_decide (h = Some i) && exclusive None t
  | (_, EvRackDestroy) :: t => exclusive h t
  | (i, _) :: t => bool_decide (h = Some i) && exclusive h t
  end.

(** No mutex event. *)
Definition no_lock (t : list event) : bool :=
  forallb (λ e, negb (is_lock e || is_unlock e)) t.

(** Only the destruction of a rack. *)
Definition teardown_only (t : list event) : bool :=
  forallb (λ e, bool_decide (e = EvRackDestroy)) t.

(** The bodies of the critical sections of a program take and release no
    mutex themselves, and the code outside them does nothing but destroy a
    rack, whatever the state they run on. *)
Fixpoint well_locked (p : prog Z) : Prop :=
  match p with
  | Return _ => True
  | @Locked _ B body k =>
    (∀ w s b s' t, body w s = Some (b, s', t) → no_lock t = true) ∧
    ∀ b, well_locked (k b)
  | @Unlocked _ B body k =>
    (∀ w s b s' t, body w s = Some (b, s', t) → teardown_only t = true) ∧
    ∀ b, well_locked (k b)
  end.

Definition well_locked_pc (c : pc) : Prop :=
  match c with
  | Running p | Releasing p => well_locked p
  | @Holding B body k =>
    (∀ w s b s' t, body w s = Some (b, s', t) → no_lock t = true) ∧
    ∀ b, well_locked (k b)
  | Returned _ => True
  end.

(** The mutex is held by the one caller inside a critical section, if any,
    and every program left to run is well locked. *)
Definition mutex_inv (c : config) : Prop :=
  (∀ i th, pool c !! i = Some th → well_locked_pc th.2) ∧
  (∀ i th, pool c !! i = Some th → in_section th.2 = true → holder c = Some i) ∧
  (∀ i, holder c = Some i →
     ∃ th, pool c !! i = Some th ∧ in_section th.2 = true).

(** Code that logs nothing, calls nothing and leaves [g_jobacct_context]
    as it is. *)
Definition keeps_global {B} (body : M B) : Prop :=
  ∀ w s b s' t,
    body w s = Some (b, s', t) →
    t = [] ∧ g_jobacct_context s' = g_jobacct_context s.

(** Outside its critical sections the program keeps the global. *)
Fixpoint private_outside (p : prog Z) : Prop :=
  match p with
  | Return _ => True
  | @Locked _ B body k => ∀ b, private_outside (k b)
  | @Unlocked _ B body k => keeps_global body ∧ ∀ b, private_outside (k b)
  end.

Definition private_outside_pc (c : pc) : Prop :=
  match c with
  | Running p | Releasing p => private_outside p
  | @Holding B body k => ∀ b, private_outside (k b)
  | Returned _ => True
  end.

(** Caller [i] is inside [jobacct_g_fini_slurmctld]. *)
Definition finalizes (calls : list (entry * world)) (i : nat) : Prop :=
  ∃ w, calls !! i = Some (g_fini_slurmctld, w).

(** Every caller but those of [jobacct_g_fini_slurmctld] keeps the global
    outside its critical sections. *)
Definition private_inv (calls : list (entry * world)) (c : config) : Prop :=
  ∀ i th, pool c !! i = Some th →
    finalizes calls i ∨ private_outside_pc th.2.

(** A caller of [jobacct_g_init_struct] and a caller of
    [jobacct_g_fini_slurmctld]. *)
Definition two_callers : list (entry * world) :=
  [(g_init_struct 5, good_world); (g_fini_slurmctld, good_world)].

(** A caller of [jobacct_g_getinfo] and a caller of
    [jobacct_g_fini_slurmctld]. *)
Definition reader_and_finalizer : list (entry * world) :=
  [(g_getinfo 1 2 3, good_world); (g_fini_slurmctld, good_world)].

End Threads.

(* ===================================================================== *)
(** * Facts about machine integers *)
(* ===================================================================== *)

Module CIntFacts.

Import CInt.
Local Open Scope Z_scope.

Lemma wrap_small w x :
  0 < w -> - 2 ^ (w - 1) <= x < 2 ^ (w - 1) -> wrap w x = x.
Proof.
  intros Hw Hx. unfold wrap.
  assert (E : 2 ^ w = 2 * 2 ^ (w - 1)).
  { replace w with (Z.succ (w - 1)) at 1 by lia. apply Z.pow_succ_r. lia. }
  rewrite Z.mod_small; lia.
Qed.

Lemma wrap_range w x :
  0 < w -> - 2 ^ (w - 1) <= wrap w x < 2 ^ (w - 1).
Proof.
  intros Hw. unfold wrap.
  assert (E : 2 ^ w = 2 * 2 ^ (w - 1)).
  { replace w with (Z.succ (w - 1)) at 1 by lia. apply Z.pow_succ_r. lia. }
  assert (P : 0 < 2 ^ (w - 1)) by (apply Z.pow_pos_nonneg; lia).
  pose proof (Z.mod_pos_bound (x + 2 ^ (w - 1)) (2 ^ w)). lia.
Qed.

(** [wrap] is a congruence modulo [2 ^ w]: intermediate reductions do not
    change the final reduction of a sum or of a product. *)
Lemma wrap_eqm w x y :
  0 < w -> (x mod 2 ^ w = y mod 2 ^ w) -> wrap w x = wrap w y.
Proof.
  intros Hw E. unfold wrap.
  rewrite <- (Zplus_mod_idemp_l x), <- (Zplus_mod_idemp_l y), E. reflexivity.
Qed.

Lemma wrap_mod w x : 0 < w -> (wrap w x) mod 2 ^ w = x mod 2 ^ w.
Proof.
  intros Hw. unfold wrap.
  assert (E : 2 ^ w = 2 * 2 ^ (w - 1)).
  { replace w with (Z.succ (w - 1)) at 1 by lia. apply Z.pow_succ_r. lia. }
  assert (P : 0 < 2 ^ (w - 1)) by (apply Z.pow_pos_nonneg; lia).
  rewrite Zminus_mod_idemp_l.
  f_equal; lia.
Qed.

Lemma wrap_add_l w x y : 0 < w -> wrap w (wrap w x + y) = wrap w (x + y).
Proof.
  intros Hw. apply wrap_eqm; [done|].
  rewrite <- Zplus_mod_idemp_l, wrap_mod, Zplus_mod_idemp_l; done.
Qed.

Lemma wrap_sub_l w x y : 0 < w -> wrap w (wrap w x - y) = wrap w (x - y).
Proof.
  intros Hw. replace (wrap w x - y) with (wrap w x + - y) by lia.
  rewrite wrap_add_l by done. f_equal; lia.
Qed.

Lemma wrap_mul_l w x y : 0 < w -> wrap w (wrap w x * y) = wrap w (x * y).
Proof.
  intros Hw. apply wrap_eqm; [done|].
  rewrite <- Zmult_mod_idemp_l, wrap_mod, Zmult_mod_idemp_l; done.
Qed.

End CIntFacts.

(* ===================================================================== *)
(** * Properties of timers.c *)
(* ===================================================================== *)

Module TimersSpec.

Import CInt CIntFacts Timers.
Local Open Scope Z_scope.

Example timer_diff_small :
  slurm_timer_diff_tv_str (Libc (0, Timespec 0 0) (0, Timeval 0 0) 0 true true)
    (Timeval 10 900000) (Timeval 12 100000) "" 20 None 0
  = DiffOut "usec=1200000" 1200000 [].
Proof. vm_compute. reflexivity. Qed.

Example timer_diff_negative :
  out_tv_str (slurm_timer_diff_tv_str
    (Libc (0, Timespec 0 0) (0, Timeval 0 0) 0 true true)
    (Timeval 12 0) (Timeval 10 0) "" 20 None 0) = "usec=-2000000".
Proof. vm_compute. reflexivity. Qed.

Example timer_diff_logged :
  out_log (slurm_timer_diff_tv_str
    (Libc (0, Timespec 0 0) (0, Timeval 0 0) 1000 true true)
    (Timeval 10 0) (Timeval 12 0) "" 20 (Some "sched") 0)
  = [debug "sched" "usec=2000000" (-1999000) None].
Proof. vm_compute. reflexivity. Qed.


Example fmt_ld_zero : fmt_ld 0 = "0".
Proof. reflexivity. Qed.

Example fmt_ld_negative : fmt_ld (-1200000) = "-1200000".
Proof. reflexivity. Qed.

(** With the 20-byte buffer of [DEF_TIMERS] a difference of fifteen digits
    loses its last digit. *)
Example timer_diff_truncated :
  out_tv_str (slurm_timer_diff_tv_str os0
    (Timeval 0 0) (Timeval 123456789 12345) "" 20 None 0)
  = "usec=12345678901234".
Proof. vm_compute. reflexivity. Qed.

Lemma substring_all (s : string) (n : nat) :
  (String.length s <= n)%nat -> String.substring 0 n s = s.
Proof.
  revert n. induction s as [|c s IH]; intros [|n] Hn; simpl in *;
    try reflexivity; try lia.
  rewrite IH by lia. reflexivity.
Qed.

Lemma diff_delta_t_wrap tv1 tv2 :
  diff_delta_t tv1 tv2 = to_long (exact_diff tv1 tv2).
Proof.
  unfold diff_delta_t, exact_diff, to_long.
  set (a := tv_sec tv2 - tv_sec tv1).
  rewrite wrap_sub_l by lia.
  replace (wrap 64 (wrap 64 a * 1000000) + tv_usec tv2 - tv_usec tv1)
    with (wrap 64 (wrap 64 a * 1000000) + (tv_usec tv2 - tv_usec tv1)) by lia.
  rewrite wrap_add_l, <- (wrap_add_l 64 (wrap 64 a * 1000000)) by lia.
  rewrite wrap_mul_l, wrap_add_l by lia.
  f_equal; lia.
Qed.

Lemma diff_delta_t_exact tv1 tv2 :
  LONG_MIN <= exact_diff tv1 tv2 <= LONG_MAX ->
  diff_delta_t tv1 tv2 = exact_diff tv1 tv2.
Proof.
  intros H. rewrite diff_delta_t_wrap. unfold to_long.
  apply wrap_small; [lia|]. unfold LONG_MIN, LONG_MAX in H.
  change (64 - 1) with 63. lia.
Qed.

Lemma diff_delta_t_range tv1 tv2 :
  LONG_MIN <= diff_delta_t tv1 tv2 <= LONG_MAX.
Proof.
  rewrite diff_delta_t_wrap. unfold to_long, LONG_MIN, LONG_MAX.
  pose proof (wrap_range 64 (exact_diff tv1 tv2)) as H.
  change (64 - 1) with 63 in H. lia.
Qed.

Lemma snprintf_trunc buf len out :
  0 < len < 2 ^ 31 ->
  snprintf buf len out = String.substring 0 (Z.to_nat (len - 1)) out.
Proof.
  intros H. unfold snprintf, to_size_t.
  rewrite Z.mod_small by lia.
  destruct (Z.eqb_spec len 0); [lia|reflexivity].
Qed.

Lemma snprintf_fits buf len out :
  Z.of_nat (String.length out) < len < 2 ^ 31 ->
  snprintf buf len out = out.
Proof.
  intros H. rewrite snprintf_trunc by lia. apply substring_all. lia.
Qed.

(** C9 (counterexample).  Ten trillion seconds apart, the difference in
    microseconds does not fit a [long]: the value stored in [*delta_t] is
    not the exact one.  And with the 20-byte buffer of [DEF_TIMERS] the
    text written for a difference that does fit is cut short. *)
Lemma C9_counterexample :
  out_delta_t (slurm_timer_diff_tv_str os0
                 (Timeval 0 0) (Timeval 10000000000000 0) "" 20 None 0)
  <> exact_diff (Timeval 0 0) (Timeval 10000000000000 0) ∧
  out_delta_t (slurm_timer_diff_tv_str os0
                 (Timeval 0 0) (Timeval 123456789 12345) "" 20 None 0)
  = 123456789012345 ∧
  out_tv_str (slurm_timer_diff_tv_str os0
                (Timeval 0 0) (Timeval 123456789 12345) "" 20 None 0)
  <> "usec=123456789012345".
Proof. vm_compute. split_and!; [discriminate | reflexivity | discriminate]. Qed.

(** C9 (amended).  Whenever the exact difference
    [(tv2.tv_sec - tv1.tv_sec) * 1000000 + tv2.tv_usec - tv1.tv_usec] fits a
    [long], [slurm_timer_diff_tv_str] and [slurm_diff_tv_str] store exactly
    that value in [*delta_t]; for a positive [len_tv_str] they write the
    first [len_tv_str - 1] characters of ["usec="] followed by that value
    into [tv_str], the whole text when it is shorter than [len_tv_str]; and
    both outputs are the same whatever [from], [limit] and the C library's
    answers are. *)
Theorem C9_diff_tv_str_exact (os : libc) (tv1 tv2 : timeval)
    (tv_str : string) (len_tv_str : Z) (from : option string) (limit : Z) :
  LONG_MIN <= exact_diff tv1 tv2 <= LONG_MAX ->
  let text := "usec=" +:+ fmt_ld (exact_diff tv1 tv2) in
  let r := slurm_timer_diff_tv_str os tv1 tv2 tv_str len_tv_str from limit in
  let r' := slurm_diff_tv_str os tv1 tv2 tv_str len_tv_str from limit in
  out_delta_t r = exact_diff tv1 tv2 /\
  out_delta_t r' = exact_diff tv1 tv2 /\
  (0 < len_tv_str < 2 ^ 31 ->
     out_tv_str r = String.substring 0 (Z.to_nat (len_tv_str - 1)) text /\
     out_tv_str r' = String.substring 0 (Z.to_nat (len_tv_str - 1)) text) /\
  (Z.of_nat (String.length text) < len_tv_str < 2 ^ 31 ->
     out_tv_str r = text /\ out_tv_str r' = text) /\
  (forall os' from' limit',
     let q := slurm_timer_diff_tv_str os' tv1 tv2 tv_str len_tv_str from' limit' in
     let q' := slurm_diff_tv_str os' tv1 tv2 tv_str len_tv_str from' limit' in
     out_delta_t q = out_delta_t r /\ out_tv_str q = out_tv_str r /\
     out_delta_t q' = out_delta_t r' /\ out_tv_str q' = out_tv_str r').
Proof.
  intros Hfit text r r'. subst text r r'.
  unfold slurm_timer_diff_tv_str, slurm_diff_tv_str. cbn [out_delta_t out_tv_str].
  rewrite (diff_delta_t_exact _ _ Hfit).
  repeat split; auto using snprintf_trunc, snprintf_fits.
Qed.

Lemma C9_witness :
  out_tv_str (slurm_timer_diff_tv_str os0 (Timeval 10 900000) (Timeval 12 100000)
                "" 20 (Some "sched") 0) = "usec=1200000".
Proof.
  pose proof (C9_diff_tv_str_exact os0 (Timeval 10 900000) (Timeval 12 100000)
                "" 20 (Some "sched") 0) as H.
  cbv zeta in H.
  destruct H as (_ & _ & _ & H & _); [vm_compute; split; discriminate|].
  destruct H as [H _]; [vm_compute; split; reflexivity|].
  exact H.
Defined.

(** C10 (counterexample).  When the monotonic clock cannot be read, a start
    time with zero seconds makes [slurm_timer_delta_tv] return 1, not 0,
    and nothing is stored into the argument. *)
Lemma C10_counterexample :
  let r := slurm_timer_delta_tv
             (Libc (-1, Timespec 0 0) (0, Timeval 0 0) 0 true true)
             (Timeval 0 0) in
  r = (1, Timeval 0 0) ∧ r.1 ≠ 0.
Proof. split; [reflexivity | discriminate]. Qed.

(** C10 (amended).  For [slurm_timer_delta_tv] and [slurm_delta_tv]: when
    reading the clock fails the function returns 1 and leaves the argument
    alone; when it succeeds and the argument's [tv_sec] is 0 the current
    time is stored into the argument and 0 is returned, no elapsed time
    being computed; an elapsed time is returned only when the clock was
    read and the argument's [tv_sec] is nonzero, and then the argument is
    unchanged. *)
Theorem C10_delta_tv (os : libc) (tv : timeval) :
  let rc := fst (clock_gettime os) in
  let cur := snd (clock_gettime os) in
  let now := Timeval (ts_sec cur) (ts_nsec cur ÷ 1000) in
  let rc' := fst (gettimeofday os) in
  let now' := snd (gettimeofday os) in
  (rc <> 0 -> slurm_timer_delta_tv os tv = (1, tv)) /\
  (rc = 0 -> tv_sec tv = 0 -> slurm_timer_delta_tv os tv = (0, now)) /\
  (rc = 0 -> tv_sec tv <> 0 ->
     slurm_timer_delta_tv os tv = (elapsed now tv, tv)) /\
  (rc' <> 0 -> slurm_delta_tv os tv = (1, tv)) /\
  (rc' = 0 -> tv_sec tv = 0 -> slurm_delta_tv os tv = (0, now')) /\
  (rc' = 0 -> tv_sec tv <> 0 ->
     slurm_delta_tv os tv = (elapsed now' tv, tv)).
Proof.
  unfold slurm_timer_delta_tv, slurm_timer_gettime, slurm_delta_tv, elapsed.
  destruct os as [[rc cur] [rc' now'] t l s]; cbn [clock_gettime gettimeofday fst snd].
  destruct tv as [sec usec]; cbn [tv_sec tv_usec].
  repeat split; intros;
    repeat match goal with
    | |- context [Z.eqb ?a ?b] => destruct (Z.eqb_spec a b); cbn
    end; try reflexivity; try lia; destruct now'; reflexivity.
Qed.

Lemma C10_witness :
  slurm_timer_delta_tv
    (Libc (0, Timespec 500 123456789) (0, Timeval 0 0) 0 true true) (Timeval 0 77)
  = (0, Timeval 500 123456) /\
  slurm_delta_tv
    (Libc (0, Timespec 0 0) (0, Timeval 500 42) 0 true true) (Timeval 100 2)
  = (400000040, Timeval 100 2).
Proof.
  split.
  - apply (C10_delta_tv
             (Libc (0, Timespec 500 123456789) (0, Timeval 0 0) 0 true true)
             (Timeval 0 77)); reflexivity.
  - apply (C10_delta_tv
             (Libc (0, Timespec 0 0) (0, Timeval 500 42) 0 true true)
             (Timeval 100 2)); [reflexivity | discriminate].
Defined.

End TimersSpec.

(* ===================================================================== *)
(** * Properties of slurm_jobacct.c *)
(* ===================================================================== *)

Module JobacctSpec.

Import Jobacct.

(** ** Symbolic execution *)

Lemma bind_run {A B} (m : M A) (f : A → M B) w s a s1 t1 :
  m w s = Some (a, s1, t1) →
  (m ≫= f) w s =
    match f a w s1 with
    | Some (b, s2, t2) => Some (b, s2, t1 ++ t2)
    | None => None
    end.
Proof. unfold mbind, M_bind. intros ->. reflexivity. Qed.

Lemma xmalloc_run (v : cell) w (h : gmap addr cell) g :
  ∃ p, h !! p = None ∧
       xmalloc v w (State h g) = Some (p, State (<[p := v]> h) g, []).
Proof.
  exists (fresh (dom h)). split; [|reflexivity].
  apply not_elem_of_dom, is_fresh.
Qed.

(** Unfolds the monad and the straight-line primitives, leaving
    [xmalloc] and the heap operations in place. *)
Ltac munfold :=
  cbv beta iota zeta delta
    [mbind M_bind mret M_ret fault emit ask get_context set_context error
     slurm_mutex_lock slurm_mutex_unlock xfree load_str xstrdup load_ctx
     store_ctx slurm_get_jobacct_type slurm_get_plugin_dir plugrack_create
     list_dir
     plugrack_destroy set_jobacct_type set_plugin_list set_cur_plugin
     set_jobacct_errno set_ops zero_context];
  change (SLURM_SUCCESS <? 0)%Z with false;
  change (SLURM_ERROR <? 0)%Z with true;
  cbn [app negb fst snd heap g_jobacct_context
       jobacct_type plugin_list cur_plugin jobacct_errno ops
       conf_jobacct_type conf_plugin_dir plugrack_create_ok plugin_files
       plugrack_destroy_rc backend_rc].

Ltac fresh_facts :=
  repeat match goal with
  | H : <[_ := _]> _ !! _ = None |- _ =>
    apply lookup_insert_None in H; destruct H as [H ?]
  | H : delete ?i _ !! ?j = None |- _ =>
    lazymatch goal with
    | _ : i ≠ j |- _ => rewrite lookup_delete_ne in H by assumption
    | _ : j ≠ i |- _ => rewrite lookup_delete_ne in H by congruence
    end
  end.

Ltac alloc_step :=
  match goal with
  | |- context [xmalloc ?v ?w (State ?h ?g)] =>
    let p := fresh "p" in
    let Hp := fresh "Hp" in
    destruct (xmalloc_run v w h g) as (p & Hp & ->); fresh_facts
  end.

Ltac heap_step :=
  first
    [ rewrite lookup_insert_eq
    | rewrite lookup_insert_ne by congruence
    | rewrite lookup_delete_eq
    | rewrite lookup_delete_ne by congruence
    | match goal with H : ?h !! ?p = _ |- context [?h !! ?p] => rewrite H end ].

Ltac mrun := repeat progress (munfold; try alloc_step; repeat heap_step).

(** Two heaps written as inserts and deletes agree at every address. *)
Ltac heap_eq :=
  apply map_eq; intros ?i;
  repeat (rewrite lookup_insert || rewrite lookup_delete);
  repeat case_decide; subst; try congruence; try reflexivity.

(** Two results that differ in the way the heap is written. *)
Ltac result_eq := do 4 f_equal; heap_eq.

(** ** Context creation and destruction *)

Lemma create_run w (h : gmap addr cell) g src str :
  h !! src = Some (CStr str) →
  ∃ c q, h !! c = None ∧ h !! q = None ∧ c ≠ q ∧
    _slurm_jobacct_context_create (Some src) w (State h g) =
      Some (Some c,
            State (<[c := CCtx (new_context q)]> (<[q := CStr str]> h)) g, []).
Proof.
  intros Hp. unfold _slurm_jobacct_context_create. mrun.
  exists p, p0. split; [assumption|]. split; [assumption|]. split; [assumption|].
  unfold new_context. result_eq.
Qed.

Lemma create_run_null w s :
  _slurm_jobacct_context_create None w s =
    Some (None, s, [EvError "_slurm_jobacct_context_create: no jobacct type"]).
Proof. destruct s. reflexivity. Qed.

Lemma destroy_run_no_rack w (h : gmap addr cell) g c ctx q v :
  h !! c = Some (CCtx ctx) → jobacct_type ctx = Some q → q ≠ c →
  h !! q = Some v → plugin_list ctx = None →
  _slurm_jobacct_context_destroy c w (State h g) =
    Some (SLURM_SUCCESS, State (delete c (delete q h)) g, []).
Proof.
  intros Hc Hq Hne Hv Hr. unfold _slurm_jobacct_context_destroy.
  destruct ctx as [ty rack plug e o]; simpl in *; subst. mrun. reflexivity.
Qed.

Lemma destroy_run_rack_ok w (h : gmap addr cell) g c ctx q v rack :
  h !! c = Some (CCtx ctx) → jobacct_type ctx = Some q → q ≠ c →
  h !! q = Some v → plugin_list ctx = Some rack →
  plugrack_destroy_rc w = SLURM_SUCCESS →
  _slurm_jobacct_context_destroy c w (State h g) =
    Some (SLURM_SUCCESS, State (delete c (delete q h)) g, [EvRackDestroy]).
Proof.
  intros Hc Hq Hne Hv Hr Hrc. unfold _slurm_jobacct_context_destroy.
  destruct ctx as [ty r plug e o]; simpl in *; subst. mrun.
  rewrite Hrc. rewrite bool_decide_eq_false_2 by (intros X; apply X; reflexivity).
  mrun. reflexivity.
Qed.

Lemma destroy_run_rack_busy w (h : gmap addr cell) g c ctx rack :
  h !! c = Some (CCtx ctx) → plugin_list ctx = Some rack →
  plugrack_destroy_rc w ≠ SLURM_SUCCESS →
  _slurm_jobacct_context_destroy c w (State h g) =
    Some (SLURM_ERROR, State h g, [EvRackDestroy]).
Proof.
  intros Hc Hr Hrc. unfold _slurm_jobacct_context_destroy.
  destruct ctx as [ty r plug e o]; simpl in *; subst. mrun.
  rewrite bool_decide_eq_true_2 by assumption. reflexivity.
Qed.

(** ** Resolution of the operations *)

Lemma get_ops_run w (h : gmap addr cell) g c q type :
  h !! c = Some (CCtx (new_context q)) → h !! q = Some (CStr type) →
  _slurm_jobacct_get_ops c w (State h g) =
    let '(ok, ctx, t) := get_ops_outcome w type q in
    Some (if ok then Some c else None, State (<[c := CCtx ctx]> h) g, t).
Proof.
  intros Hc Hq. assert (q ≠ c) by congruence.
  unfold _slurm_jobacct_get_ops, get_ops_outcome, new_context, dir_plugins in *.
  destruct w as [ty dir ok files drc brc];
    cbn [plugrack_create_ok plugin_files conf_plugin_dir].
  mrun. destruct ok; mrun.
  2: { result_eq. }
  destruct dir as [dir|]; mrun;
    (destruct (plugrack_use_by_type _ type) as [plug|] eqn:Hplug; mrun;
     [ destruct (plugin_get_syms plug n_syms syms) as [rc ptrs] eqn:Hsyms;
       cbn [fst snd]; mrun;
       destruct (rc <? n_syms)%Z; mrun; cbn [negb]; result_eq
     | result_eq ]).
Qed.

Lemma get_ops_outcome_type w type q :
  jobacct_type (get_ops_outcome w type q).1.2 = Some q.
Proof.
  unfold get_ops_outcome.
  destruct (plugrack_create_ok w); [|reflexivity].
  destruct (plugrack_use_by_type _ _); reflexivity.
Qed.

Lemma omap_id_length {A} (l : list (option A)) :
  length (omap id l) ≤ length l.
Proof. induction l as [|[x|] l IH]; csimpl; lia. Qed.

Lemma omap_id_full {A} (l : list (option A)) :
  length l ≤ length (omap id l) →
  forallb (λ f, bool_decide (is_Some f)) l = true.
Proof.
  induction l as [|[x|] l IH]; csimpl; intros Hl.
  - reflexivity.
  - apply IH. lia.
  - pose proof (omap_id_length l). lia.
Qed.

(** A count of resolved names that is not below [n_syms] leaves no null
    pointer in the table. *)
Lemma get_syms_complete plug :
  ((plugin_get_syms plug n_syms syms).1 <? n_syms)%Z = false →
  fully_resolved (plugin_get_syms plug n_syms syms).2 = true.
Proof.
  unfold plugin_get_syms, fully_resolved, n_syms. cbn [fst snd].
  rewrite Nat2Z.id, firstn_all. intros H%Z.ltb_ge.
  rewrite bool_decide_eq_true_2 by apply length_fmap.
  apply omap_id_full. rewrite length_fmap. lia.
Qed.

(** A count below [n_syms] leaves one. *)
Lemma get_syms_incomplete plug :
  ((plugin_get_syms plug n_syms syms).1 <? n_syms)%Z = true →
  fully_resolved (plugin_get_syms plug n_syms syms).2 = false.
Proof.
  unfold plugin_get_syms, fully_resolved, n_syms. cbn [fst snd].
  rewrite Nat2Z.id, firstn_all. intros H%Z.ltb_lt.
  apply andb_false_intro2. apply not_true_is_false. intros Hall.
  assert (E : ∀ l : list (option fnptr),
             forallb (λ f, bool_decide (is_Some f)) l = true →
             length (omap id l) = length l).
  { clear. induction l as [|[x|] l IH]; csimpl; intros Hl.
    - reflexivity.
    - rewrite IH by done. reflexivity.
    - discriminate. }
  apply E in Hall. rewrite length_fmap in Hall. lia.
Qed.

Lemma get_ops_outcome_ok w type q :
  (get_ops_outcome w type q).1.1 = true →
  fully_resolved (ops (get_ops_outcome w type q).1.2) = true.
Proof.
  unfold get_ops_outcome.
  destruct (plugrack_create_ok w); [|discriminate].
  destruct (plugrack_use_by_type _ _) as [plug|]; [|discriminate].
  cbn [fst snd ops]. intros H%negb_true_iff. by apply get_syms_complete.
Qed.

(** Resolution succeeds exactly when the selected backend resolves every
    name. *)
Lemma get_ops_outcome_selected w q type :
  conf_jobacct_type w = Some type →
  ∀ plug, selected_backend w = Some plug →
    (get_ops_outcome w type q).1.1 = negb (resolved_count plug <? n_syms)%Z.
Proof.
  intros Hty plug. unfold selected_backend, get_ops_outcome, resolved_count.
  rewrite Hty. destruct (plugrack_create_ok w); [|discriminate].
  intros ->. reflexivity.
Qed.

(** ** Initialization *)

Ltac lookup_now := repeat heap_step; first [reflexivity | eassumption].

Lemma init_run_none w (h : gmap addr cell) :
  ∃ c q, h !! c = None ∧ h !! q = None ∧ c ≠ q ∧
    _slurm_jobacct_init w (State h None) = Some (init_outcome w h c q).
Proof.
  unfold _slurm_jobacct_init, init_outcome.
  destruct (conf_jobacct_type w) as [type|] eqn:Hty.
  - mrun. rewrite Hty. mrun.
    destruct (create_run w (<[p := CStr type]> h) None p type)
      as (c & q & Hc & Hq & Hcq & ->); [lookup_now|]. fresh_facts.
    exists c, q. split; [assumption|]. split; [assumption|]. split; [assumption|].
    mrun.
    rewrite (get_ops_run w _ _ c q type) by lookup_now.
    pose proof (get_ops_outcome_type w type q) as Hq'.
    destruct (get_ops_outcome w type q) as [[ok ctx] t]. cbn [fst snd] in Hq'.
    destruct ok.
    + mrun. rewrite <- !app_assoc. result_eq.
    + mrun.
      destruct (plugin_list ctx) as [rack|] eqn:Hrack.
      * case_bool_decide as Hrc.
        -- erewrite destroy_run_rack_busy by (first [lookup_now | eassumption]).
           mrun. rewrite <- !app_assoc. result_eq.
        -- erewrite destroy_run_rack_ok;
             [| lookup_now | eassumption | congruence | lookup_now | eassumption
              | destruct (decide (plugrack_destroy_rc w = SLURM_SUCCESS)); tauto ].
           mrun. rewrite <- !app_assoc. result_eq.
      * erewrite destroy_run_no_rack;
          [| lookup_now | eassumption | congruence | lookup_now | eassumption ].
        mrun. rewrite <- !app_assoc. result_eq.
  - destruct (xmalloc_run (CStr "") w h None) as (c & Hc & _).
    destruct (xmalloc_run (CStr "") w (<[c := CStr ""]> h) None) as (q & Hq & _).
    fresh_facts.
    exists c, q. split; [assumption|]. split; [assumption|]. split; [assumption|].
    mrun. rewrite Hty. mrun. rewrite create_run_null. reflexivity.
Qed.

Lemma init_run_some w (h : gmap addr cell) c :
  _slurm_jobacct_init w (State h (Some c)) =
    Some (SLURM_SUCCESS, State h (Some c), [EvLock; EvInitCheck; EvUnlock]).
Proof. reflexivity. Qed.


(** ** Traces *)

Lemma get_ops_outcome_quiet w type q :
  quiet (get_ops_outcome w type q).2 = true.
Proof.
  unfold get_ops_outcome.
  destruct (plugrack_create_ok w); [|reflexivity].
  destruct (plugrack_use_by_type _ _); [|reflexivity].
  cbn [fst snd]. destruct (_ <? _)%Z; reflexivity.
Qed.

Lemma lock_discipline_quiet b t t' :
  quiet t = true → lock_discipline b (t ++ t') = lock_discipline b t'.
Proof.
  induction t as [|e t IH]; [reflexivity|].
  simpl. intros [He Ht]%andb_prop. destruct e; try discriminate; auto.
Qed.

Lemma critical_sections_quiet t t' :
  quiet t = true → critical_sections (t ++ t') = critical_sections t'.
Proof.
  unfold critical_sections.
  induction t as [|e t IH]; [reflexivity|].
  simpl. intros [He Ht]%andb_prop. destruct e; try discriminate; auto.
Qed.

Lemma backend_calls_quiet t t' :
  quiet t = true → backend_calls (t ++ t') = backend_calls t'.
Proof.
  unfold backend_calls.
  induction t as [|e t IH]; [reflexivity|].
  simpl. intros [He Ht]%andb_prop. destruct e; try discriminate; auto.
Qed.

Lemma calls_backend_quiet t t' :
  quiet t = true → calls_backend (t ++ t') = calls_backend t'.
Proof.
  unfold calls_backend.
  induction t as [|e t IH]; [reflexivity|].
  simpl. intros [He Ht]%andb_prop. destruct e; try discriminate; auto.
Qed.

(** Computes the observations on a trace whose unknown part is quiet. *)
Ltac trace_simpl :=
  rewrite <- ?app_assoc; cbn [app];
  unfold critical_sections, calls_backend, backend_calls, attempts_init;
  cbn [List.filter existsb is_lock is_call is_get_type length orb andb negb
       lock_discipline];
  repeat match goal with
  | H : quiet ?t = true |- context [lock_discipline ?b (?t ++ ?t')] =>
    rewrite (lock_discipline_quiet b t t' H)
  | H : quiet ?t = true |- context [List.filter is_lock (?t ++ ?t')] =>
    change (length (List.filter is_lock (t ++ t')))
      with (critical_sections (t ++ t'));
    rewrite (critical_sections_quiet t t' H); unfold critical_sections
  | H : quiet ?t = true |- context [existsb is_call (?t ++ ?t')] =>
    change (existsb is_call (t ++ t')) with (calls_backend (t ++ t'));
    rewrite (calls_backend_quiet t t' H); unfold calls_backend
  | H : quiet ?t = true |- context [List.filter is_call (?t ++ ?t')] =>
    change (List.filter is_call (t ++ t')) with (backend_calls (t ++ t'));
    rewrite (backend_calls_quiet t t' H); unfold backend_calls
  end;
  cbn [List.filter existsb is_lock is_call is_get_type length orb andb negb
       lock_discipline].

(** ** Dispatch *)

Lemma resolved_slot (o : slurm_jobacct_ops_t) (k : op) :
  fully_resolved o = true → ∃ f, o !! slot k = Some (Some f).
Proof.
  unfold fully_resolved. intros [Hlen Hall]%andb_prop.
  apply bool_decide_eq_true_1 in Hlen.
  assert (Hlt : slot k < length o) by (rewrite Hlen; destruct k; simpl; lia).
  apply lookup_lt_is_Some_2 in Hlt as [x Hx].
  rewrite forallb_forall in Hall.
  assert (Hin : In x o).
  { apply list_elem_of_In, list_elem_of_lookup. eauto. }
  apply Hall, bool_decide_eq_true_1 in Hin as [f ->]. eauto.
Qed.

(** What [ready] says about a state with a context. *)
Lemma ready_inv (h : gmap addr cell) c :
  ready (State h (Some c)) = true →
  ∃ ctx q str, h !! c = Some (CCtx ctx) ∧ fully_resolved (ops ctx) = true ∧
    jobacct_type ctx = Some q ∧ q ≠ c ∧ h !! q = Some (CStr str).
Proof.
  unfold ready. cbn [g_jobacct_context heap].
  destruct (h !! c) as [[|ctx]|] eqn:Hc; try discriminate.
  intros [Hres Hty]%andb_prop.
  destruct (jobacct_type ctx) as [q|] eqn:Hq0; [|discriminate].
  apply andb_prop in Hty as [Hne Hq]. apply bool_decide_eq_true_1 in Hne.
  destruct (h !! q) as [[str|]|] eqn:Hq'; try discriminate.
  exists ctx, q, str. split_and!; done.
Qed.

Lemma ready_intro (h : gmap addr cell) c ctx q str :
  h !! c = Some (CCtx ctx) → fully_resolved (ops ctx) = true →
  jobacct_type ctx = Some q → q ≠ c → h !! q = Some (CStr str) →
  ready (State h (Some c)) = true.
Proof.
  intros Hc Hres Hty Hne Hq. unfold ready. cbn [g_jobacct_context heap].
  rewrite Hc, Hres, Hty, Hq. rewrite bool_decide_eq_true_2 by done. reflexivity.
Qed.

Lemma if_context_call_run w (h : gmap addr cell) c ctx o args d f :
  h !! c = Some (CCtx ctx) → ops ctx !! slot o = Some (Some f) →
  if_context_call o args d w (State h (Some c)) =
    Some (backend_rc w f args, State h (Some c), [EvCall f args]).
Proof.
  intros Hc Hf. unfold if_context_call, call_op. mrun. reflexivity.
Qed.

Lemma if_context_call_none w (h : gmap addr cell) o args d :
  if_context_call o args d w (State h None) = Some (d, State h None, []).
Proof. reflexivity. Qed.


(** ** The entry points, case by case *)

Ltac unfold_facade :=
  unfold facade, jobacct_g_init_struct, jobacct_g_alloc, jobacct_g_free,
    jobacct_g_setinfo, jobacct_g_getinfo, jobacct_g_aggregate, jobacct_g_pack,
    jobacct_g_unpack, jobacct_g_init_slurmctld, jobacct_g_fini_slurmctld,
    jobacct_g_job_start_slurmctld, jobacct_g_job_complete_slurmctld,
    jobacct_g_step_start_slurmctld, jobacct_g_step_complete_slurmctld,
    jobacct_g_suspend_slurmctld, jobacct_g_startpoll, jobacct_g_endpoll,
    jobacct_g_suspendpoll, _slurm_jobacct_fini, if_context_call, call_op.

Lemma facade_run_none_other e w (h : gmap addr cell) :
  calls_init e = false →
  facade e w (State h None) = Some (0%Z, State h None, [EvLock; EvUnlock]).
Proof. destruct e; try discriminate; reflexivity. Qed.

Lemma facade_run_some_other e w (h : gmap addr cell) c ctx f :
  calls_init e = false → e ≠ g_fini_slurmctld →
  h !! c = Some (CCtx ctx) → ops ctx !! slot (entry_call e).1 = Some (Some f) →
  facade e w (State h (Some c)) =
    Some (returned e (backend_rc w f (entry_call e).2), State h (Some c),
          [EvLock; EvCall f (entry_call e).2; EvUnlock]).
Proof.
  intros Hi Hne Hc Hf.
  destruct e; try discriminate; try congruence;
    cbn [entry_call fst snd] in *; unfold_facade; mrun; reflexivity.
Qed.

Lemma facade_run_some_init e w (h : gmap addr cell) c ctx f :
  calls_init e = true →
  h !! c = Some (CCtx ctx) → ops ctx !! slot (entry_call e).1 = Some (Some f) →
  facade e w (State h (Some c)) =
    Some (backend_rc w f (entry_call e).2, State h (Some c),
          [EvLock; EvInitCheck; EvUnlock;
           EvLock; EvCall f (entry_call e).2; EvUnlock]).
Proof.
  intros Hi Hc Hf.
  destruct e; try discriminate;
    cbn [entry_call fst snd] in *; unfold_facade; munfold;
    rewrite init_run_some; mrun; reflexivity.
Qed.

Lemma facade_run_init_failed e w s s' t :
  calls_init e = true →
  _slurm_jobacct_init w s = Some (SLURM_ERROR, s', t) →
  facade e w s = Some (init_failed_value e, s', t).
Proof.
  intros Hi Hinit.
  destruct e; try discriminate; unfold_facade; munfold;
    rewrite Hinit; mrun; rewrite app_nil_r; reflexivity.
Qed.

Lemma facade_run_init_ok e w s (h : gmap addr cell) c ctx f t :
  calls_init e = true →
  _slurm_jobacct_init w s = Some (SLURM_SUCCESS, State h (Some c), t) →
  h !! c = Some (CCtx ctx) → ops ctx !! slot (entry_call e).1 = Some (Some f) →
  facade e w s =
    Some (backend_rc w f (entry_call e).2, State h (Some c),
          t ++ [EvLock; EvCall f (entry_call e).2; EvUnlock]).
Proof.
  intros Hi Hinit Hc Hf.
  destruct e; try discriminate;
    cbn [entry_call fst snd] in *; unfold_facade; munfold;
    rewrite Hinit; mrun; reflexivity.
Qed.

(** The shape of every initialization outcome. *)
Lemma init_outcome_shape w (h : gmap addr cell) c q :
  c ≠ q →
  ∃ rc s' t1,
    init_outcome w h c q =
      (rc, s', [EvLock; EvInitCheck; EvGetType] ++ t1 ++ [EvUnlock]) ∧
    quiet t1 = true ∧
    ((rc = SLURM_ERROR ∧ g_jobacct_context s' = None ∧
      ∀ plug, selected_backend w = Some plug →
              (resolved_count plug <? n_syms)%Z = true) ∨
     (rc = SLURM_SUCCESS ∧ ready s' = true ∧
      ∃ ctx type,
        conf_jobacct_type w = Some type ∧
        get_ops_outcome w type q = (true, ctx, t1) ∧
        s' = State (<[c := CCtx ctx]> (<[q := CStr type]> h)) (Some c))).
Proof.
  intros Hcq. unfold init_outcome.
  pose proof (get_ops_outcome_selected w q) as Hsel.
  destruct (conf_jobacct_type w) as [type|] eqn:Hconf.
  2: { eexists _, _, [_; _]. split; [reflexivity|]. split; [reflexivity|].
       left. split_and!; try done. unfold selected_backend. rewrite Hconf. done. }
  specialize (Hsel type eq_refl).
  pose proof (get_ops_outcome_type w type q) as Hty.
  pose proof (get_ops_outcome_ok w type q) as Hok.
  pose proof (get_ops_outcome_quiet w type q) as Hquiet.
  destruct (get_ops_outcome w type q) as [[ok ctx] t1] eqn:Hout.
  cbn [fst snd] in *.
  destruct ok.
  - eexists _, _, t1. split; [reflexivity|]. split; [assumption|]. right.
    split; [reflexivity|]. split.
    + eapply ready_intro; [apply lookup_insert_eq | auto | eassumption | congruence |].
      rewrite lookup_insert_ne by done. apply lookup_insert_eq.
    + exists ctx, type. done.
  - destruct (plugin_list ctx).
    + eexists _, _, (t1 ++ [_; _]). split.
      { rewrite <- !app_assoc. reflexivity. }
      split; [|left; split_and!; try done].
      * unfold quiet in *. rewrite forallb_app, Hquiet. reflexivity.
      * intros plug Hplug. apply negb_false_iff. symmetry. auto.
    + eexists _, _, (t1 ++ [_]). split.
      { rewrite <- !app_assoc. reflexivity. }
      split; [|left; split_and!; try done].
      * unfold quiet in *. rewrite forallb_app, Hquiet. reflexivity.
      * intros plug Hplug. apply negb_false_iff. symmetry. auto.
Qed.


Lemma fini_run_some w (h : gmap addr cell) c ctx q v f :
  h !! c = Some (CCtx ctx) → ops ctx !! slot jobacct_fini = Some (Some f) →
  jobacct_type ctx = Some q → q ≠ c → h !! q = Some v →
  jobacct_g_fini_slurmctld w (State h (Some c)) =
    Some (if destroy_fails w ctx then SLURM_ERROR else backend_rc w f [],
          State (if destroy_fails w ctx then h else delete c (delete q h)) None,
          [EvLock; EvCall f []; EvUnlock] ++
          match plugin_list ctx with Some _ => [EvRackDestroy] | None => [] end).
Proof.
  intros Hc Hf Hq Hne Hv. unfold_facade. unfold destroy_fails. mrun.
  destruct (plugin_list ctx) as [rack|] eqn:Hrack.
  - case_bool_decide as Hrc.
    + erewrite destroy_run_rack_busy by eassumption. mrun. reflexivity.
    + erewrite destroy_run_rack_ok;
        [| eassumption..
         | destruct (decide (plugrack_destroy_rc w = SLURM_SUCCESS)); tauto ].
      mrun. reflexivity.
  - erewrite destroy_run_no_rack by eassumption. mrun. reflexivity.
Qed.

(** ** Every call from a ready state *)

(** From a ready state every entry point returns, in a ready state; the
    lemma collects the facts about the result that the theorems below use. *)
Lemma facade_run e w s :
  ready s = true →
  ∃ r s' t,
    facade e w s = Some (r, s', t) ∧
    ready s' = true ∧
    lock_discipline false t = true ∧
    critical_sections t = (if calls_init e && calls_backend t then 2 else 1) ∧
    attempts_init t =
      calls_init e && bool_decide (g_jobacct_context s = None) ∧
    (e = g_fini_slurmctld → g_jobacct_context s' = None) ∧
    length (backend_calls t) ≤ 1 ∧
    (g_jobacct_context s = None → calls_init e = true →
       (∃ t', t = EvLock :: EvInitCheck :: EvGetType :: t') ∧
       ∀ plug, selected_backend w = Some plug →
         if (resolved_count plug <? n_syms)%Z
         then r = init_failed_value e ∧ g_jobacct_context s' = None ∧
              calls_backend t = false
         else is_Some (g_jobacct_context s') ∧ calls_backend t = true).
Proof.
  intros Hready. destruct s as [h [c|]].
  - apply ready_inv in Hready as (ctx & q & str & Hc & Hres & Hq & Hne & Hstr).
    destruct (resolved_slot _ (entry_call e).1 Hres) as [f Hf].
    destruct (decide (e = g_fini_slurmctld)) as [->|Hfini].
    + cbn [facade]. rewrite (fini_run_some w h c ctx q _ f Hc Hf Hq Hne Hstr).
      eexists _, _, _. split; [reflexivity|].
      destruct (plugin_list ctx); split_and!; try reflexivity; try done;
        cbn; lia.
    + destruct (calls_init e) eqn:Hi.
      * rewrite (facade_run_some_init e w h c ctx f Hi Hc Hf).
        eexists _, _, _. split; [reflexivity|].
        split_and!; try reflexivity; try done;
          try (eapply ready_intro; eassumption); try (cbn; lia).
      * rewrite (facade_run_some_other e w h c ctx f Hi Hfini Hc Hf).
        eexists _, _, _. split; [reflexivity|].
        split_and!; try reflexivity; try done;
          try (eapply ready_intro; eassumption); try (cbn; lia).
  - destruct (calls_init e) eqn:Hi.
    2: { rewrite (facade_run_none_other e w h Hi).
         eexists _, _, _. split; [reflexivity|].
         split_and!; try reflexivity; try done. cbn. lia. }
    destruct (init_run_none w h) as (c & q & Hc & Hq & Hcq & Hinit).
    destruct (init_outcome_shape w h c q Hcq)
      as (rc & s' & t1 & Hout & Hquiet & Hcases).
    rewrite Hout in Hinit.
    destruct Hcases
      as [(-> & Hnone & Hsel)|(-> & Hready' & ctx & type & Hty & Hops & ->)].
    + rewrite (facade_run_init_failed e w _ _ _ Hi Hinit).
      eexists _, _, _. split; [reflexivity|].
      destruct s' as [h' g']. cbn in Hnone. subst g'.
      split_and!; try reflexivity; try done; trace_simpl;
        try reflexivity; try lia.
      intros _ _. split; [eexists; reflexivity|].
      intros plug Hplug. rewrite (Hsel plug Hplug).
      split_and!; try reflexivity; trace_simpl; reflexivity.
    + apply ready_inv in Hready' as Hinv.
      destruct Hinv as (ctx' & q' & str & Hc' & Hres & _).
      destruct (resolved_slot _ (entry_call e).1 Hres) as [f Hf].
      rewrite (facade_run_init_ok e w _ _ c ctx' f _ Hi Hinit Hc' Hf).
      eexists _, _, _. split; [reflexivity|].
      split_and!; try reflexivity; try done; trace_simpl;
        try reflexivity; try lia.
      * intros ->. discriminate Hi.
      * intros _ _. split; [eexists; reflexivity|].
        intros plug Hplug.
        pose proof (get_ops_outcome_selected w q type Hty plug Hplug) as Hsel.
        rewrite Hops in Hsel. cbn [fst] in Hsel.
        symmetry in Hsel. apply negb_true_iff in Hsel. rewrite Hsel.
        split; [by eexists|]. trace_simpl. reflexivity.
Qed.


(** Every reachable state is ready: its context, if any, is live and its
    table fully resolved. *)
Lemma reachable_ready s : reachable s → ready s = true.
Proof.
  induction 1 as [h|s e w r s' t _ IH Hcall]; [reflexivity|].
  destruct (facade_run e w s IH) as (r0 & s0 & t0 & Hrun & Hready & _).
  congruence.
Qed.

Example n_syms_18 : n_syms = 18%Z.
Proof. reflexivity. Qed.

(** ** Main results *)

(** C1 (counterexample).  Set-field called before any initialization, in a
    world where a complete backend is installed, returns [SLURM_SUCCESS]. *)
Lemma C1_counterexample :
  jobacct_g_setinfo 1 2 3 good_world start =
    Some (SLURM_SUCCESS, start, [EvLock; EvUnlock]).
Proof. reflexivity. Qed.

(** C1 (amended).  Free, set-field, get-field and unpack, called while no
    context exists, return [SLURM_SUCCESS]: they take and release the
    lock, invoke no backend operation, attempt no initialization and leave
    the state as it is.  The code has no error status for a missing
    context. *)
Theorem C1_record_ops_without_context (w : world) (h : gmap addr cell)
    (jobacct type data buffer : Z) :
  let s := State h None in
  let silent := Some (SLURM_SUCCESS, s, [EvLock; EvUnlock]) in
  jobacct_g_free jobacct w s = silent ∧
  jobacct_g_setinfo jobacct type data w s = silent ∧
  jobacct_g_getinfo jobacct type data w s = silent ∧
  jobacct_g_unpack jobacct buffer w s = silent.
Proof. repeat split. Qed.

(** C6.  Job start, job complete, step start, step complete and suspend,
    called while no context exists, return [SLURM_SUCCESS] and invoke no
    backend operation: the trace holds the lock and the unlock only, and
    the state is unchanged. *)
Theorem C6_lifecycle_without_context (w : world) (h : gmap addr cell)
    (job_ptr step_ptr : Z) :
  let s := State h None in
  let silent := Some (SLURM_SUCCESS, s, [EvLock; EvUnlock]) in
  jobacct_g_job_start_slurmctld job_ptr w s = silent ∧
  jobacct_g_job_complete_slurmctld job_ptr w s = silent ∧
  jobacct_g_step_start_slurmctld step_ptr w s = silent ∧
  jobacct_g_step_complete_slurmctld step_ptr w s = silent ∧
  jobacct_g_suspend_slurmctld job_ptr w s = silent ∧
  backend_calls [EvLock; EvUnlock] = [].
Proof. repeat split. Qed.

(** C4 (counterexample).  A job-start notification made without a context
    does not attempt the initialization, although it would succeed in that
    world: the entry point that does attempt it installs a context. *)
Lemma C4_counterexample :
  ∃ r s t,
    facade (g_job_start_slurmctld 7) good_world start = Some (r, s, t) ∧
    attempts_init t = false ∧ g_jobacct_context s = None ∧
    ∃ r' s' t',
      facade (g_init_struct 7) good_world start = Some (r', s', t') ∧
      attempts_init t' = true ∧ g_jobacct_context s' = Some 2%positive.
Proof.
  eexists _, _, _. split; [reflexivity|]. split; [reflexivity|].
  split; [reflexivity|].
  eexists _, _, _. split; [vm_compute; reflexivity|]. split; reflexivity.
Qed.

(** C4 (amended).  When no context exists, the four entry points
    init-struct, alloc, init-backend and start-polling first attempt the
    lazy initialization (the lock is taken, the context is checked, the
    backend type is read from the configuration) before anything is
    dispatched; every other entry point skips the attempt, dispatches
    nothing and leaves the state alone.  A failed initialization is thus
    retried on the next call of one of those four entry points. *)
Theorem C4_lazy_initialization (e : entry) (w : world) (h : gmap addr cell) :
  ∃ r s t,
    facade e w (State h None) = Some (r, s, t) ∧
    attempts_init t = calls_init e ∧
    (calls_init e = true → ∃ t', t = EvLock :: EvInitCheck :: EvGetType :: t') ∧
    (calls_init e = false →
       r = 0%Z ∧ s = State h None ∧ t = [EvLock; EvUnlock]).
Proof.
  destruct (facade_run e w (State h None) eq_refl)
    as (r & s & t & Hrun & _ & _ & _ & Hatt & _ & _ & Hinit).
  exists r, s, t. split; [exact Hrun|]. split.
  { rewrite Hatt. cbn. apply andb_true_r. }
  split.
  - intros Hi. apply Hinit; done.
  - intros Hi. rewrite (facade_run_none_other e w h Hi) in Hrun.
    injection Hrun as <- <- <-. done.
Qed.


Lemma C4_witness :
  ∃ r s t,
    facade g_alloc partial_world start = Some (r, s, t) ∧
    attempts_init t = true ∧
    ∃ t', t = EvLock :: EvInitCheck :: EvGetType :: t'.
Proof.
  destruct (C4_lazy_initialization g_alloc partial_world ∅)
    as (r & s & t & Hrun & Hatt & Hinit & _).
  exists r, s, t. split; [exact Hrun|]. split; [exact Hatt|].
  apply Hinit. reflexivity.
Defined.

(** C2 (counterexample).  After an initialization that failed on a
    backend with 17 of the 18 names, a call of [jobacct_g_getinfo] does not
    attempt the initialization again, although it would succeed in the
    world of that call: it takes the lock, finds no context and returns. *)
Lemma C2_counterexample :
  ∃ s' t,
    facade (g_init_struct 5) partial_world start = Some (SLURM_ERROR, s', t) ∧
    g_jobacct_context s' = None ∧
    ∃ r' s'' t',
      facade (g_getinfo 1 2 3) good_world s' = Some (r', s'', t') ∧
      attempts_init t' = false ∧ t' = [EvLock; EvUnlock] ∧
      g_jobacct_context s'' = None ∧
      selected_backend good_world = Some linux_plugin ∧
      resolved_count linux_plugin = n_syms.
Proof.
  eexists _, _. split; [vm_compute; reflexivity|]. split; [reflexivity|].
  eexists _, _, _. split; [vm_compute; reflexivity|].
  split_and!; reflexivity.
Qed.

(** C2 (amended).  When the backend the loader selects resolves fewer than
    the 18 required names, [_slurm_jobacct_init] returns [SLURM_ERROR] and
    leaves the global context null, and so does every entry point that
    initializes lazily, without invoking the backend.  No reachable state
    has a context whose table is partially resolved, and every call from a
    reachable state returns.  After the failure, the next call of a
    lazily initializing entry point attempts the initialization again from
    the beginning (lock, check, read of the configured type), and it
    installs a ready context when the backend selected by then is
    complete; the next call of any other entry point attempts nothing,
    dispatches nothing and leaves the state as it is. *)
Theorem C2_partial_backend_not_installed (w : world) (plug : plugin) :
  selected_backend w = Some plug →
  (resolved_count plug < n_syms)%Z →
  (∀ h, ∃ s' t,
     _slurm_jobacct_init w (State h None) = Some (SLURM_ERROR, s', t) ∧
     g_jobacct_context s' = None) ∧
  (∀ h e, calls_init e = true →
     ∃ s' t,
       facade e w (State h None) = Some (init_failed_value e, s', t) ∧
       g_jobacct_context s' = None ∧ calls_backend t = false ∧
       ∀ e' w', calls_init e' = true →
         ∃ r s'' t',
           facade e' w' s' = Some (r, s'', t') ∧
           (∃ t'', t' = EvLock :: EvInitCheck :: EvGetType :: t'') ∧
           ready s'' = true ∧
           ∀ plug', selected_backend w' = Some plug' →
             (n_syms ≤ resolved_count plug')%Z →
             is_Some (g_jobacct_context s'') ∧ calls_backend t' = true) ∧
  (∀ h e, calls_init e = true →
     ∃ s' t,
       facade e w (State h None) = Some (init_failed_value e, s', t) ∧
       ∀ e' w', calls_init e' = false →
         facade e' w' s' = Some (0%Z, s', [EvLock; EvUnlock])) ∧
  (∀ s, reachable s →
     ready s = true ∧ ∀ e w', ∃ r s' t, facade e w' s = Some (r, s', t)).
Proof.
  intros Hsel Hlt. apply Z.ltb_lt in Hlt. split_and!.
  - intros h.
    destruct (init_run_none w h) as (c & q & _ & _ & Hcq & Hinit).
    destruct (init_outcome_shape w h c q Hcq)
      as (rc & s' & t1 & Hout & _ & Hcases).
    rewrite Hout in Hinit.
    destruct Hcases as [(-> & Hnone & _)|(-> & _ & ctx & type & Hty & Hops & _)].
    + eauto.
    + pose proof (get_ops_outcome_selected w q type Hty plug Hsel) as Hok.
      rewrite Hops, Hlt in Hok. discriminate.
  - intros h e Hi.
    destruct (facade_run e w (State h None) eq_refl)
      as (r & s' & t & Hrun & Hready & _ & _ & _ & _ & _ & Hinit).
    destruct (Hinit eq_refl Hi) as [_ Hplug].
    specialize (Hplug plug Hsel). rewrite Hlt in Hplug.
    destruct Hplug as (-> & Hnone & Hcalls).
    exists s', t. split; [exact Hrun|]. split; [exact Hnone|].
    split; [exact Hcalls|].
    intros e' w' Hi'.
    destruct (facade_run e' w' s' Hready)
      as (r' & s'' & t' & Hrun' & Hready' & _ & _ & _ & _ & _ & Hinit').
    destruct (Hinit' Hnone Hi') as [Hprefix Hplug'].
    exists r', s'', t'. split; [exact Hrun'|]. split; [exact Hprefix|].
    split; [exact Hready'|].
    intros plug' Hsel' Hge. specialize (Hplug' plug' Hsel').
    apply Z.ltb_ge in Hge. rewrite Hge in Hplug'. exact Hplug'.
  - intros h e Hi.
    destruct (facade_run e w (State h None) eq_refl)
      as (r & s' & t & Hrun & _ & _ & _ & _ & _ & _ & Hinit).
    destruct (Hinit eq_refl Hi) as [_ Hplug].
    specialize (Hplug plug Hsel). rewrite Hlt in Hplug.
    destruct Hplug as (-> & Hnone & _).
    exists s', t. split; [exact Hrun|].
    intros e' w' Hi'. destruct s' as [h' g']. cbn in Hnone. subst g'.
    by apply facade_run_none_other.
  - intros s Hs. apply reachable_ready in Hs. split; [exact Hs|].
    intros e w'.
    destruct (facade_run e w' s Hs) as (r & s' & t & Hrun & _). eauto.
Qed.

Lemma C2_witness :
  ∃ s' t,
    facade (g_init_struct 5) partial_world start = Some (SLURM_ERROR, s', t) ∧
    g_jobacct_context s' = None ∧ calls_backend t = false.
Proof.
  destruct (C2_partial_backend_not_installed partial_world partial_plugin)
    as (_ & H & _ & _); [vm_compute; reflexivity | vm_compute; reflexivity |].
  destruct (H ∅ (g_init_struct 5) eq_refl) as (s' & t & Hrun & Hnone & Hcalls & _).
  exists s', t. split; [exact Hrun|]. split; assumption.
Defined.

(** C3.  From every ready state and in every world, whatever the backend's
    finalize operation and [plugrack_destroy] return,
    [jobacct_g_fini_slurmctld] returns and leaves the global context null;
    when a context existed, the backend's finalize operation was invoked
    (exactly once, under the lock) before.  The next call of an entry point
    that initializes lazily starts the initialization from the beginning,
    and installs a ready context when the backend selected by then is
    complete. *)
Theorem C3_fini_destroys_context (w : world) (s : state) :
  ready s = true →
  ∃ r s' t,
    jobacct_g_fini_slurmctld w s = Some (r, s', t) ∧
    g_jobacct_context s' = None ∧
    (is_Some (g_jobacct_context s) →
       ∃ f t', t = EvLock :: EvCall f [] :: EvUnlock :: t' ∧
               calls_backend t' = false ∧
               (r = backend_rc w f [] ∨ r = SLURM_ERROR)) ∧
    ∀ e w', calls_init e = true →
      ∃ r' s'' t',
        facade e w' s' = Some (r', s'', t') ∧
        (∃ t'', t' = EvLock :: EvInitCheck :: EvGetType :: t'') ∧
        ready s'' = true ∧
        ∀ plug, selected_backend w' = Some plug →
          (n_syms ≤ resolved_count plug)%Z →
          is_Some (g_jobacct_context s'') ∧ calls_backend t' = true.
Proof.
  intros Hready.
  assert (Hretry : ∀ h' e w', calls_init e = true →
    ∃ r' s'' t',
      facade e w' (State h' None) = Some (r', s'', t') ∧
      (∃ t'', t' = EvLock :: EvInitCheck :: EvGetType :: t'') ∧
      ready s'' = true ∧
      ∀ plug, selected_backend w' = Some plug →
        (n_syms ≤ resolved_count plug)%Z →
        is_Some (g_jobacct_context s'') ∧ calls_backend t' = true).
  { intros h' e w' Hi.
    destruct (facade_run e w' (State h' None) eq_refl)
      as (r' & s'' & t' & Hrun' & Hready' & _ & _ & _ & _ & _ & Hinit').
    destruct (Hinit' eq_refl Hi) as [Hprefix Hplug'].
    exists r', s'', t'. split; [exact Hrun'|]. split; [exact Hprefix|].
    split; [exact Hready'|].
    intros plug Hsel Hge. specialize (Hplug' plug Hsel).
    apply Z.ltb_ge in Hge. rewrite Hge in Hplug'. exact Hplug'. }
  destruct s as [h [c|]].
  - apply ready_inv in Hready as (ctx & q & str & Hc & Hres & Hq & Hne & Hstr).
    destruct (resolved_slot _ jobacct_fini Hres) as [f Hf].
    rewrite (fini_run_some w h c ctx q _ f Hc Hf Hq Hne Hstr).
    eexists _, _, _. split; [reflexivity|]. split; [reflexivity|].
    split; [|apply Hretry].
    intros _. eexists f, _. split; [reflexivity|].
    split; [destruct (plugin_list ctx); reflexivity|].
    destruct (destroy_fails w ctx); auto.
  - exists SLURM_SUCCESS, (State h None), [EvLock; EvUnlock].
    split; [reflexivity|]. split; [reflexivity|].
    split; [|apply Hretry].
    intros [x Hx]. discriminate Hx.
Qed.

Lemma C3_witness :
  ∃ r s' t,
    jobacct_g_fini_slurmctld failing_world after_init = Some (r, s', t) ∧
    g_jobacct_context s' = None.
Proof.
  destruct (C3_fini_destroys_context failing_world after_init)
    as (r & s' & t & Hrun & Hnone & _); [vm_compute; reflexivity|].
  exists r, s', t. split; assumption.
Defined.

(** In that world the backend's finalize operation reports failure, the
    call returns it, and the context is gone. *)
Example fini_with_failing_backend :
  jobacct_g_fini_slurmctld failing_world after_init =
    Some (SLURM_ERROR, start,
          [EvLock; EvCall (Fn "jobacct/linux" "jobacct_p_fini_slurmctld") [];
           EvUnlock; EvRackDestroy]).
Proof. vm_compute. reflexivity. Qed.


(** C5 (counterexample).  When [plugrack_destroy] fails, the destruction of
    a context with a rack returns [SLURM_ERROR] at once: the heap is
    unchanged, the context record and its copy of the type name are both
    still allocated. *)
Lemma C5_counterexample :
  ∃ s',
    _slurm_jobacct_context_destroy 1 busy_world (State racked_heap (Some 1%positive))
      = Some (SLURM_ERROR, s', [EvRackDestroy]) ∧
    is_Some (heap s' !! 1%positive) ∧
    heap s' !! 2%positive = Some (CStr "jobacct/linux").
Proof.
  eexists. split; [vm_compute; reflexivity|].
  split; [eexists|]; vm_compute; reflexivity.
Qed.

(** C5 (amended).  For a context record at [c] that owns a type-name copy
    at [q]: when the context has no rack, or [plugrack_destroy] succeeds,
    the destruction releases the type-name copy and the context record and
    returns [SLURM_SUCCESS]; when the context has a rack whose destruction
    fails, it returns [SLURM_ERROR] and releases neither. *)
Theorem C5_context_destroy (w : world) (h : gmap addr cell) (g : option addr)
    (c q : addr) (ctx : slurm_jobacct_context) (v : cell) :
  h !! c = Some (CCtx ctx) → jobacct_type ctx = Some q → q ≠ c →
  h !! q = Some v →
  ∃ r h' t,
    _slurm_jobacct_context_destroy c w (State h g) = Some (r, State h' g, t) ∧
    if destroy_fails w ctx
    then r = SLURM_ERROR ∧ h' = h
    else r = SLURM_SUCCESS ∧ h' !! c = None ∧ h' !! q = None ∧
         ∀ x, x ≠ c → x ≠ q → h' !! x = h !! x.
Proof.
  intros Hc Hq Hne Hv. unfold destroy_fails.
  destruct (plugin_list ctx) as [rack|] eqn:Hrack.
  - case_bool_decide as Hrc.
    + erewrite destroy_run_rack_busy by eassumption.
      eexists _, _, _. split; [reflexivity|]. done.
    + erewrite destroy_run_rack_ok;
        [| eassumption..
         | destruct (decide (plugrack_destroy_rc w = SLURM_SUCCESS)); tauto ].
      eexists _, _, _. split; [reflexivity|]. split; [reflexivity|].
      split; [apply lookup_delete_eq|].
      split; [rewrite lookup_delete_ne, lookup_delete_eq; done|].
      intros x Hxc Hxq. rewrite !lookup_delete_ne; done.
  - erewrite destroy_run_no_rack by eassumption.
    eexists _, _, _. split; [reflexivity|]. split; [reflexivity|].
    split; [apply lookup_delete_eq|].
    split; [rewrite lookup_delete_ne, lookup_delete_eq; done|].
    intros x Hxc Hxq. rewrite !lookup_delete_ne; done.
Qed.

Lemma C5_witness :
  ∃ t,
    _slurm_jobacct_context_destroy 1 good_world (State racked_heap None) =
      Some (SLURM_SUCCESS, State ∅ None, t).
Proof.
  destruct (C5_context_destroy good_world racked_heap None 1 2
              (set_plugin_list (Some (Rack (Some "jobacct") [linux_plugin]))
                               (new_context 2))
              (CStr "jobacct/linux"))
    as (r & h' & t & Hrun & Hres);
    [vm_compute; reflexivity | reflexivity | discriminate
    | vm_compute; reflexivity |].
  exists t. rewrite Hrun.
  change (destroy_fails good_world _) with false in Hres.
  destruct Hres as (-> & Hc & Hq & Hrest).
  do 3 f_equal. f_equal. apply map_eq. intros x. rewrite lookup_empty.
  destruct (decide (x = 1%positive)) as [->|]; [exact Hc|].
  destruct (decide (x = 2%positive)) as [->|]; [exact Hq|].
  rewrite Hrest by done. unfold racked_heap.
  rewrite !lookup_insert_ne by done. apply lookup_empty.
Defined.

(** C7 (counterexample).  A type name that is present but empty is
    accepted: context creation returns a context. *)
Lemma C7_counterexample :
  ∃ c s,
    _slurm_jobacct_context_create (Some 1%positive) good_world
      (State (<[1%positive := CStr ""]> ∅) None) = Some (Some c, s, []).
Proof. eexists _, _. vm_compute. reflexivity. Qed.

(** C7 (amended).  Context creation fails, returning no context and
    allocating nothing, when the type name is unset (a null pointer).  For
    every type name that is present, the empty one included, it returns a
    context whose type name is a copy at an address that was not allocated
    before, differs from the caller's address, and holds the caller's
    text; the caller's string is untouched, and overwriting or releasing it
    afterwards leaves the copy as it is. *)
Theorem C7_context_create (w : world) (h : gmap addr cell) (g : option addr) :
  _slurm_jobacct_context_create None w (State h g) =
    Some (None, State h g,
          [EvError "_slurm_jobacct_context_create: no jobacct type"]) ∧
  ∀ src str, h !! src = Some (CStr str) →
    ∃ c q ctx h',
      _slurm_jobacct_context_create (Some src) w (State h g) =
        Some (Some c, State h' g, []) ∧
      h' !! c = Some (CCtx ctx) ∧ h !! c = None ∧
      jobacct_type ctx = Some q ∧
      q ≠ src ∧ h !! q = None ∧
      h' !! q = Some (CStr str) ∧ h' !! src = Some (CStr str) ∧
      (∀ v, <[src := v]> h' !! q = Some (CStr str)) ∧
      delete src h' !! q = Some (CStr str).
Proof.
  split; [reflexivity|]. intros src str Hsrc.
  destruct (create_run w h g src str Hsrc) as (c & q & Hc & Hq & Hcq & Hrun).
  assert (q ≠ src) by congruence. assert (c ≠ src) by congruence.
  exists c, q, (new_context q), (<[c := CCtx (new_context q)]> (<[q := CStr str]> h)).
  split; [exact Hrun|].
  split_and!; try done.
  - apply lookup_insert_eq.
  - rewrite lookup_insert_ne by done. apply lookup_insert_eq.
  - rewrite !lookup_insert_ne by done. exact Hsrc.
  - intros v. rewrite !lookup_insert_ne by done. apply lookup_insert_eq.
  - rewrite lookup_delete_ne, lookup_insert_ne by done. apply lookup_insert_eq.
Qed.

Lemma C7_witness :
  ∃ c q ctx h',
    _slurm_jobacct_context_create (Some 1%positive) good_world
      (State (<[1%positive := CStr "jobacct/linux"]> ∅) None) =
        Some (Some c, State h' None, []) ∧
    h' !! c = Some (CCtx ctx) ∧ jobacct_type ctx = Some q ∧ q ≠ 1%positive ∧
    h' !! q = Some (CStr "jobacct/linux").
Proof.
  destruct (C7_context_create good_world (<[1%positive := CStr "jobacct/linux"]> ∅) None)
    as [_ H].
  destruct (H 1%positive "jobacct/linux") as (c & q & ctx & h' & H1 & H2 & _ & H3 & H4 & _ & H5 & _);
    [vm_compute; reflexivity|].
  exists c, q, ctx, h'. split_and!; assumption.
Defined.

(** C8 (counterexample).  In [jobacct_g_init_struct] the lock is released
    after the initialization and taken again for the dispatch: the trace
    has two critical sections, not one around the whole sequence. *)
Lemma C8_counterexample :
  ∃ r s t,
    facade (g_init_struct 5) good_world start = Some (r, s, t) ∧
    t = [EvLock; EvInitCheck; EvGetType; EvRackCreate; EvReadDir;
         EvUseByType "jobacct/linux"; EvGetSyms 18; EvUnlock;
         EvLock; EvCall (Fn "jobacct/linux" "jobacct_p_init_struct") [5%Z];
         EvUnlock] ∧
    one_critical_section t = false ∧ critical_sections t = 2.
Proof.
  eexists _, _, _. split; [vm_compute; reflexivity|].
  split; [reflexivity|]. split; reflexivity.
Qed.

(** [jobacct_g_init_struct] is its initialization followed, when that
    succeeded, by the dispatch section. *)
Example init_struct_sections jobacct :
  jobacct_g_init_struct jobacct =
    (rc ← _slurm_jobacct_init;
     if (rc <? 0)%Z then mret SLURM_ERROR
     else dispatch_section jobacct_init_struct [jobacct] SLURM_SUCCESS).
Proof. reflexivity. Qed.

(** Between the two sections the lock is free.  When another caller's
    finalize runs there, the dispatch that follows a successful
    initialization finds no context and invokes nothing. *)
Example fini_between_sections :
  ∃ s1 t1 r2 s2 t2,
    _slurm_jobacct_init good_world start = Some (SLURM_SUCCESS, s1, t1) ∧
    is_Some (g_jobacct_context s1) ∧
    jobacct_g_fini_slurmctld good_world s1 = Some (r2, s2, t2) ∧
    dispatch_section jobacct_init_struct [5%Z] SLURM_SUCCESS good_world s2 =
      Some (SLURM_SUCCESS, s2, [EvLock; EvUnlock]).
Proof.
  eexists _, _, _, _, _. split; [vm_compute; reflexivity|].
  split; [by eexists|]. split; [vm_compute; reflexivity|].
  vm_compute. reflexivity.
Qed.

End JobacctSpec.

(* ===================================================================== *)
(** * Callers running concurrently: the mutex *)
(* ===================================================================== *)

Module ThreadsSpec.

Import Jobacct Threads JobacctSpec.

(** ** The monad laws, at a world and a state *)

Lemma bind_assoc_at {A B C} (m : M A) (f : A → M B) (g : B → M C) w s :
  ((m ≫= f) ≫= g) w s = (m ≫= (λ a, f a ≫= g)) w s.
Proof.
  unfold mbind, M_bind.
  destruct (m w s) as [[[a s1] t1]|]; [|reflexivity].
  destruct (f a w s1) as [[[b s2] t2]|]; [|reflexivity].
  destruct (g b w s2) as [[[c s3] t3]|]; [|reflexivity].
  by rewrite app_assoc.
Qed.

Lemma bind_ext_at {A B} (m : M A) (f f' : A → M B) w s :
  (∀ a w' s', f a w' s' = f' a w' s') → (m ≫= f) w s = (m ≫= f') w s.
Proof.
  intros H. unfold mbind, M_bind.
  destruct (m w s) as [[[a s1] t1]|]; [|reflexivity]. by rewrite H.
Qed.

Lemma bind_cong_at {A B} (m m' : M A) (f : A → M B) w s :
  (∀ w' s', m w' s' = m' w' s') → (m ≫= f) w s = (m' ≫= f) w s.
Proof. intros H. unfold mbind, M_bind. by rewrite H. Qed.

Lemma ret_bind_at {A B} (a : A) (f : A → M B) w s :
  (mret a ≫= f) w s = f a w s.
Proof.
  unfold mbind, M_bind, mret, M_ret.
  by destruct (f a w s) as [[[b s2] t2]|].
Qed.

Lemma bind_ret_at {A} (m : M A) w s : (m ≫= mret) w s = m w s.
Proof.
  unfold mbind, M_bind, mret, M_ret.
  destruct (m w s) as [[[a s1] t1]|]; [|reflexivity]. by rewrite app_nil_r.
Qed.

(** ** The programs are the entry points *)

(** [_slurm_jobacct_init] is the critical section [init_section], then
    [xfree(jobacct_type)], then the return. *)
Lemma init_then_at {A} (F : Z → M A) w s :
  (_slurm_jobacct_init ≫= F) w s =
  (slurm_mutex_lock;; x ← init_section; slurm_mutex_unlock;;
   xfree x.2;; F x.1) w s.
Proof.
  unfold _slurm_jobacct_init, init_section.
  rewrite bind_assoc_at. apply bind_ext_at. intros _ w1 s1.
  rewrite !bind_assoc_at. apply bind_ext_at. intros _ w2 s2.
  rewrite !bind_assoc_at. apply bind_ext_at. intros g w3 s3.
  rewrite !bind_assoc_at. apply bind_ext_at. intros [retval jobacct_type] w4 s4.
  rewrite !bind_assoc_at. apply bind_ext_at. intros _ w5 s5.
  rewrite !bind_assoc_at. apply bind_ext_at. intros _ w6 s6.
  by rewrite ret_bind_at.
Qed.

Lemma run_lazy_prog failed o args retval w s :
  run (lazy_prog failed o args retval) w s =
  (rc ← _slurm_jobacct_init;
   if (rc <? 0)%Z then mret failed else
   slurm_mutex_lock;;
   retval ← if_context_call o args retval;
   slurm_mutex_unlock;;
   mret retval) w s.
Proof.
  rewrite init_then_at. unfold lazy_prog, init_prog. cbn [run].
  apply bind_ext_at. intros _ w1 s1.
  apply bind_ext_at. intros [rc jobacct_type] w2 s2.
  apply bind_ext_at. intros _ w3 s3. cbn [run fst snd].
  apply bind_ext_at. intros _ w4 s4.
  by destruct (rc <? 0)%Z.
Qed.

(** Run by one caller alone, the program of an entry point is the entry
    point. *)
Lemma run_entry_prog e w s : run (entry_prog e) w s = facade e w s.
Proof.
  destruct e; try reflexivity; try apply run_lazy_prog.
  - (* aggregate *)
    cbn [entry_prog facade dispatch_prog run]. unfold jobacct_g_aggregate.
    rewrite !bind_assoc_at. apply bind_ext_at. intros _ w1 s1.
    rewrite !bind_assoc_at. apply bind_ext_at. intros _ w2 s2.
    rewrite !bind_assoc_at. apply bind_ext_at. intros _ w3 s3.
    by rewrite ret_bind_at.
  - (* pack *)
    cbn [entry_prog facade dispatch_prog run]. unfold jobacct_g_pack.
    rewrite !bind_assoc_at. apply bind_ext_at. intros _ w1 s1.
    rewrite !bind_assoc_at. apply bind_ext_at. intros _ w2 s2.
    rewrite !bind_assoc_at. apply bind_ext_at. intros _ w3 s3.
    by rewrite ret_bind_at.
  - (* fini *)
    cbn [entry_prog facade dispatch_prog run]. unfold jobacct_g_fini_slurmctld.
    apply bind_ext_at. intros _ w1 s1.
    apply bind_ext_at. intros retval w2 s2.
    apply bind_ext_at. intros _ w3 s3.
    apply bind_ext_at. intros rc w4 s4.
    by destruct (rc <? 0)%Z.
  - (* suspendpoll *)
    cbn [entry_prog facade dispatch_prog run]. unfold jobacct_g_suspendpoll.
    rewrite !bind_assoc_at. apply bind_ext_at. intros _ w1 s1.
    rewrite !bind_assoc_at. apply bind_ext_at. intros _ w2 s2.
    rewrite !bind_assoc_at. apply bind_ext_at. intros _ w3 s3.
    by rewrite ret_bind_at.
Qed.

(** What a program does when a caller runs it alone. *)
Lemma run_locked {A B} (body : M B) (k : B → prog A) w s :
  run (Locked body k) w s =
  match body w s with
  | Some (b, s1, t1) =>
    match run (k b) w s1 with
    | Some (r, s2, t2) => Some (r, s2, EvLock :: t1 ++ EvUnlock :: t2)
    | None => None
    end
  | None => None
  end.
Proof.
  cbn [run]. unfold mbind, M_bind, slurm_mutex_lock, slurm_mutex_unlock, emit.
  destruct (body w s) as [[[b s1] t1]|]; [|reflexivity].
  destruct (run (k b) w s1) as [[[r s2] t2]|]; reflexivity.
Qed.

Lemma run_unlocked {A B} (body : M B) (k : B → prog A) w s :
  run (Unlocked body k) w s =
  match body w s with
  | Some (b, s1, t1) =>
    match run (k b) w s1 with
    | Some (r, s2, t2) => Some (r, s2, t1 ++ t2)
    | None => None
    end
  | None => None
  end.
Proof. reflexivity. Qed.

(** ** The events of the sections *)

Lemma xfree_trace p w s u s' t : xfree p w s = Some (u, s', t) → t = [].
Proof.
  unfold xfree. destruct p as [p|]; [destruct (heap s !! p)|]; congruence.
Qed.

(** [_slurm_jobacct_init] in terms of its critical section. *)
Lemma init_unfold w s :
  _slurm_jobacct_init w s =
  match init_section w s with
  | Some (x, s1, t1) =>
    match xfree x.2 w s1 with
    | Some (_, s2, _) => Some (x.1, s2, EvLock :: t1 ++ [EvUnlock])
    | None => None
    end
  | None => None
  end.
Proof.
  rewrite <- bind_ret_at, init_then_at.
  unfold mbind, M_bind, slurm_mutex_lock, slurm_mutex_unlock, emit, mret, M_ret.
  destruct (init_section w s) as [[[[retval jobacct_type] s1] t1]|];
    [|reflexivity].
  cbn [fst snd].
  destruct (xfree jobacct_type w s1) as [[[[] s2] t2]|] eqn:Hfree;
    [|reflexivity].
  apply xfree_trace in Hfree as ->. reflexivity.
Qed.

Lemma quiet_no_lock t : quiet t = true → no_lock t = true.
Proof.
  unfold quiet, no_lock. induction t as [|e t IH]; [reflexivity|].
  simpl. intros [He Ht]%andb_prop. rewrite IH by assumption.
  by destruct e.
Qed.

(** The critical section of the initialization is the trace of
    [_slurm_jobacct_init] between its lock and its unlock, whatever the
    state: it never faults and touches no mutex. *)
Lemma init_section_trace w s :
  ∃ x s1 t1 rc s',
    init_section w s = Some (x, s1, t1) ∧
    _slurm_jobacct_init w s = Some (rc, s', EvLock :: t1 ++ [EvUnlock]) ∧
    no_lock t1 = true.
Proof.
  destruct s as [h [c|]].
  - eexists _, _, _, _, _. split; [reflexivity|]. split; reflexivity.
  - destruct (init_run_none w h) as (c & q & _ & _ & Hcq & Hinit).
    destruct (init_outcome_shape w h c q Hcq)
      as (rc & s' & t & Hout & Hquiet & _).
    rewrite Hout in Hinit. pose proof Hinit as Hinit'.
    rewrite init_unfold in Hinit.
    destruct (init_section w (State h None)) as [[[x s1] t1]|];
      [|discriminate].
    destruct (xfree x.2 w s1) as [[[[] s2] t2]|]; [|discriminate].
    injection Hinit as _ _ Ht.
    change ([EvInitCheck; EvGetType] ++ t ++ [EvUnlock])
      with (EvInitCheck :: EvGetType :: t ++ [EvUnlock]) in Ht.
    change (EvInitCheck :: EvGetType :: t ++ [EvUnlock])
      with ((EvInitCheck :: EvGetType :: t) ++ [EvUnlock]) in Ht.
    apply app_inj_tail in Ht as [-> _].
    eexists _, _, _, _, _. split; [reflexivity|]. split; [exact Hinit'|].
    apply quiet_no_lock in Hquiet. exact Hquiet.
Qed.

Lemma init_section_no_lock w s x s' t :
  init_section w s = Some (x, s', t) → no_lock t = true.
Proof.
  destruct (init_section_trace w s) as (x1 & s1 & t1 & _ & _ & -> & _ & Hno).
  intros [= _ _ <-]. exact Hno.
Qed.

(** A dispatch does nothing but the one backend call, if any. *)
Lemma if_context_call_trace o args d w s b s' t :
  if_context_call o args d w s = Some (b, s', t) →
  t = [] ∨ ∃ f, t = [EvCall f args].
Proof.
  destruct s as [h [c|]]; unfold if_context_call, call_op; munfold.
  - destruct (h !! c) as [[str|ctx]|]; try discriminate.
    destruct (ops ctx !! slot o) as [[f|]|]; try discriminate.
    intros [= _ _ <-]. right. by exists f.
  - intros [= _ _ <-]. by left.
Qed.

Lemma if_context_call_no_lock o args d w s b s' t :
  if_context_call o args d w s = Some (b, s', t) → no_lock t = true.
Proof.
  intros [-> | [f ->]]%if_context_call_trace; reflexivity.
Qed.

(** [_slurm_jobacct_fini] logs nothing, calls nothing and touches no
    mutex: its only event is the destruction of the rack. *)
Lemma fini_trace w s rc s' t :
  _slurm_jobacct_fini w s = Some (rc, s', t) →
  t = [] ∨ t = [EvRackDestroy].
Proof.
  destruct s as [h [c|]];
    unfold _slurm_jobacct_fini, _slurm_jobacct_context_destroy; munfold.
  - destruct (h !! c) as [[str|ctx]|] eqn:Hc; try discriminate.
    destruct (plugin_list ctx) as [rack|]; munfold;
      [case_bool_decide; munfold|];
      repeat match goal with
      | |- context [match jobacct_type ctx with _ => _ end] =>
        destruct (jobacct_type ctx); munfold
      | |- context [match ?m !! ?k with _ => _ end] =>
        destruct (m !! k); munfold
      end;
      try discriminate; intros [= _ _ <-]; auto.
  - intros [= _ _ <-]. by left.
Qed.

Lemma fini_teardown_only w s rc s' t :
  _slurm_jobacct_fini w s = Some (rc, s', t) → teardown_only t = true.
Proof. intros [-> | ->]%fini_trace; reflexivity. Qed.

Lemma lazy_prog_well_locked failed o args retval :
  well_locked (lazy_prog failed o args retval).
Proof.
  split; [intros w s b s' t; apply init_section_no_lock|].
  intros [rc jobacct_type]. split.
  - intros w s b s' t ->%xfree_trace. reflexivity.
  - intros u. destruct (rc <? 0)%Z; [exact I|].
    split; [intros w s b s' t; apply if_context_call_no_lock|].
    intros v. exact I.
Qed.

Lemma dispatch_prog_well_locked o args retval (k : Z → prog Z) :
  (∀ b, well_locked (k b)) → well_locked (dispatch_prog o args retval k).
Proof.
  intros Hk. split; [intros w s b s' t; apply if_context_call_no_lock|].
  exact Hk.
Qed.

(** In every entry point, every event but the destruction of the rack in
    [_slurm_jobacct_fini] comes from a critical section. *)
Lemma entry_prog_well_locked e : well_locked (entry_prog e).
Proof.
  destruct e; cbn [entry_prog];
    try apply lazy_prog_well_locked;
    apply dispatch_prog_well_locked; intros retval; try exact I.
  split; [intros w s b s' t; apply fini_teardown_only|].
  intros rc. by destruct (rc <? 0)%Z.
Qed.


(** ** Mutual exclusion *)

Lemma exclusive_tag_held i t r :
  no_lock t = true →
  exclusive (Some i) (tag i t ++ r) = exclusive (Some i) r.
Proof.
  unfold no_lock, tag. induction t as [|e t IH]; [reflexivity|].
  simpl. intros [He Ht]%andb_prop. specialize (IH Ht).
  destruct e; try discriminate; rewrite ?bool_decide_eq_true_2 by reflexivity;
    exact IH.
Qed.

Lemma exclusive_tag_teardown h i t r :
  teardown_only t = true → exclusive h (tag i t ++ r) = exclusive h r.
Proof.
  unfold teardown_only, tag. induction t as [|e t IH]; [reflexivity|].
  simpl. intros [He Ht]%andb_prop. specialize (IH Ht).
  apply bool_decide_eq_true_1 in He as ->. exact IH.
Qed.

(** A caller moves on: the invariant is kept when the mutex goes to the
    caller that enters a section, which it may only when the mutex is
    free, and is free again when the caller leaves one. *)
Lemma mutex_inv_update s s' h l i w c c' :
  mutex_inv (Config s h l) →
  l !! i = Some (w, c) →
  well_locked_pc c' →
  (in_section c' = true → in_section c = false → h = None) →
  mutex_inv
    (Config s'
       (if in_section c' then Some i else if in_section c then None else h)
       (<[i := (w, c')]> l)).
Proof.
  intros (Hwl & Hin & Hholder) Hi Hc' Hfree. cbn [pool holder] in *.
  pose proof (lookup_lt_Some _ _ _ Hi) as Hlt.
  split_and!; cbn [pool holder].
  - intros j th Hj. destruct (decide (j = i)) as [->|Hne].
    + rewrite list_lookup_insert_eq in Hj by assumption.
      injection Hj as <-. exact Hc'.
    + rewrite list_lookup_insert_ne in Hj by congruence. eauto.
  - intros j th Hj Hsec. destruct (decide (j = i)) as [->|Hne].
    + rewrite list_lookup_insert_eq in Hj by assumption.
      injection Hj as <-. cbn [snd] in Hsec. by rewrite Hsec.
    + rewrite list_lookup_insert_ne in Hj by congruence.
      pose proof (Hin j th Hj Hsec) as Hh.
      destruct (in_section c) eqn:Hc.
      { pose proof (Hin i (w, c) Hi Hc). congruence. }
      destruct (in_section c') eqn:Hc''; [|exact Hh].
      rewrite Hfree in Hh by reflexivity. discriminate.
  - intros j Hj. destruct (in_section c') eqn:Hc''.
    + injection Hj as <-. exists (w, c').
      by rewrite list_lookup_insert_eq by assumption.
    + destruct (in_section c) eqn:Hc; [discriminate|].
      destruct (Hholder j Hj) as (th & Hth & Hsec).
      assert (j ≠ i) as Hne.
      { intros ->. rewrite Hi in Hth. injection Hth as <-.
        cbn [snd] in Hsec. congruence. }
      exists th. by rewrite list_lookup_insert_ne by congruence.
Qed.

(** One step keeps the invariant, and its events respect the mutex. *)
Lemma step_exclusive i c t c' :
  mutex_inv c → step i c t c' →
  mutex_inv c' ∧
  ∀ r, exclusive (holder c) (t ++ r) = exclusive (holder c') r.
Proof.
  intros Hinv Hstep. pose proof Hinv as (Hwl & Hin & _).
  destruct Hstep as [s l w B body k Hi | s h l w B body k b s' t Hi Hbody
                    | s h l w p Hi | s h l w B body k b s' t Hi Hbody
                    | s h l w r Hi];
    cbn [pool holder] in *;
    pose proof (Hwl _ _ Hi) as Hwli; cbn [snd well_locked_pc well_locked] in Hwli.
  - split; [|reflexivity].
    by apply (mutex_inv_update s s None l i w _ (Holding body k) Hinv Hi).
  - pose proof (Hin _ _ Hi eq_refl) as ->. destruct Hwli as [Hno Hk]. split.
    + apply (mutex_inv_update s s' (Some i) l i w _ (Releasing (k b)) Hinv Hi);
        [apply Hk | discriminate].
    + intros r. apply exclusive_tag_held. eauto.
  - pose proof (Hin _ _ Hi eq_refl) as ->. split.
    + apply (mutex_inv_update s s (Some i) l i w _ (Running p) Hinv Hi);
        [exact Hwli | discriminate].
    + intros r. simpl. by rewrite bool_decide_eq_true_2.
  - destruct Hwli as [Hno Hk]. split.
    + apply (mutex_inv_update s s' h l i w _ (Running (k b)) Hinv Hi);
        [apply Hk | discriminate].
    + intros r. apply exclusive_tag_teardown. eauto.
  - split; [|reflexivity].
    apply (mutex_inv_update s s h l i w _ (Returned r) Hinv Hi);
      [exact I | discriminate].
Qed.

Lemma steps_exclusive c t c' :
  mutex_inv c → steps c t c' →
  mutex_inv c' ∧ exclusive (holder c) t = true.
Proof.
  intros Hinv Hsteps. induction Hsteps as [c|c1 i t1 c2 t2 c3 Hstep _ IH].
  - by split.
  - destruct (step_exclusive i c1 t1 c2 Hinv Hstep) as [Hinv2 Hex].
    destruct (IH Hinv2) as [Hinv3 Hex3]. split; [exact Hinv3|].
    by rewrite Hex.
Qed.

Lemma start_config_inv calls s : mutex_inv (start_config calls s).
Proof.
  unfold start_config. split_and!; cbn [pool holder].
  - intros i th Hi. rewrite list_lookup_fmap in Hi.
    destruct (calls !! i) as [[e w]|]; [|discriminate].
    injection Hi as <-. apply entry_prog_well_locked.
  - intros i th Hi. rewrite list_lookup_fmap in Hi.
    destruct (calls !! i) as [[e w]|]; [|discriminate].
    injection Hi as <-. discriminate.
  - discriminate.
Qed.

(** At most one caller is inside a critical section. *)
Lemma mutex_inv_exclusion c i j thi thj :
  mutex_inv c →
  pool c !! i = Some thi → pool c !! j = Some thj →
  in_section thi.2 = true → in_section thj.2 = true → i = j.
Proof.
  intros (_ & Hin & _) Hi Hj Hsi Hsj.
  pose proof (Hin i thi Hi Hsi). pose proof (Hin j thj Hj Hsj). congruence.
Qed.

(** ** Outside the critical sections *)

Lemma xfree_keeps_global p : keeps_global (xfree p).
Proof.
  intros w s b s' t. unfold xfree.
  destruct p as [p|]; [destruct (heap s !! p)|]; intros [= _ <- <-]; done.
Qed.

Lemma lazy_prog_private failed o args retval :
  private_outside (lazy_prog failed o args retval).
Proof.
  intros [rc jobacct_type]. split; [apply xfree_keeps_global|].
  intros u. destruct (rc <? 0)%Z; [exact I|]. intros v. exact I.
Qed.

(** Only [jobacct_g_fini_slurmctld] does more outside its critical
    section than release the type name and return. *)
Lemma entry_prog_private e :
  e ≠ g_fini_slurmctld → private_outside (entry_prog e).
Proof.
  intros He. destruct e; cbn [entry_prog];
    try apply lazy_prog_private; try (intros b; exact I).
  done.
Qed.

Lemma start_config_private calls s : private_inv calls (start_config calls s).
Proof.
  intros i th Hi. cbn [start_config pool] in Hi.
  rewrite list_lookup_fmap in Hi.
  destruct (calls !! i) as [[e w]|] eqn:Hcall; [|discriminate].
  injection Hi as <-.
  destruct (decide (e = g_fini_slurmctld)) as [->|He].
  - left. exists w. exact Hcall.
  - right. by apply entry_prog_private.
Qed.

Lemma private_inv_update calls s s' h h' l i w c c' :
  private_inv calls (Config s h l) →
  l !! i = Some (w, c) →
  (private_outside_pc c → private_outside_pc c') →
  private_inv calls (Config s' h' (<[i := (w, c')]> l)).
Proof.
  intros Hinv Hi Hc j th Hj. cbn [pool] in *.
  pose proof (lookup_lt_Some _ _ _ Hi) as Hlt.
  destruct (decide (j = i)) as [->|Hne].
  - rewrite list_lookup_insert_eq in Hj by assumption. injection Hj as <-.
    destruct (Hinv i (w, c) Hi) as [Hfin|Hpriv]; [by left|].
    right. by apply Hc.
  - rewrite list_lookup_insert_ne in Hj by congruence. by apply Hinv.
Qed.

Lemma step_private calls i c t c' :
  private_inv calls c → step i c t c' → private_inv calls c'.
Proof.
  intros Hinv Hstep.
  destruct Hstep as [s l w B body k Hi | s h l w B body k b s' t Hi Hbody
                    | s h l w p Hi | s h l w B body k b s' t Hi Hbody
                    | s h l w r Hi];
    apply (private_inv_update calls _ _ _ _ _ _ _ _ _ Hinv Hi);
    cbn [private_outside_pc private_outside]; try done.
  intros [_ Hk]. apply Hk.
Qed.

Lemma steps_private calls c t c' :
  private_inv calls c → steps c t c' → private_inv calls c'.
Proof.
  intros Hinv Hsteps. induction Hsteps as [c|c1 i t1 c2 t2 c3 Hstep _ IH].
  - exact Hinv.
  - apply IH. by apply (step_private calls i c1 t1).
Qed.

(** A step is made by the caller that holds the mutex, or takes it, or is
    silent and keeps the global, or belongs to a caller of
    [jobacct_g_fini_slurmctld]. *)
Lemma step_outside calls i c t c' :
  mutex_inv c → private_inv calls c → step i c t c' →
  holder c = Some i ∨ t = [(i, EvLock)] ∨
  (t = [] ∧ g_jobacct_context (shared c') = g_jobacct_context (shared c)) ∨
  finalizes calls i.
Proof.
  intros (_ & Hin & _) Hpriv Hstep.
  destruct Hstep as [s l w B body k Hi | s h l w B body k b s' t Hi Hbody
                    | s h l w p Hi | s h l w B body k b s' t Hi Hbody
                    | s h l w r Hi];
    cbn [pool holder shared] in *.
  - right. by left.
  - left. apply (Hin _ _ Hi eq_refl).
  - left. apply (Hin _ _ Hi eq_refl).
  - destruct (Hpriv _ _ Hi) as [Hfin|[Hkeep _]]; [by do 3 right|].
    destruct (Hkeep _ _ _ _ _ Hbody) as [-> Hg]. right. right. left. done.
  - right. right. left. done.
Qed.


(** ** One caller alone *)

Lemma steps_trace c t t' c' : steps c t c' → t = t' → steps c t' c'.
Proof. by intros H <-. Qed.

(** What [run] computes is an execution of the one caller. *)
Lemma run_steps (p : prog Z) w s r s' t :
  run p w s = Some (r, s', t) →
  steps (Config s None [(w, Running p)]) (tag 0 t)
        (Config s' None [(w, Returned r)]).
Proof.
  revert s t.
  induction p as [a|B body k IH|B body k IH]; intros s t Hrun.
  - injection Hrun as <- <- <-.
    eapply steps_trace;
      [eapply (steps_more _ 0); [by eapply step_return|apply steps_done]|].
    reflexivity.
  - rewrite run_locked in Hrun.
    destruct (body w s) as [[[b s1] t1]|] eqn:Hbody; [|discriminate].
    destruct (run (k b) w s1) as [[[r' s2] t2]|] eqn:Hk; [|discriminate].
    injection Hrun as <- <- <-.
    eapply steps_trace.
    { eapply (steps_more _ 0); [by eapply step_lock|].
      eapply (steps_more _ 0); [by eapply step_body|].
      eapply (steps_more _ 0); [by eapply step_unlock|].
      apply (IH b _ _ Hk). }
    unfold tag. cbn [fmap list_fmap app]. rewrite !fmap_app. reflexivity.
  - rewrite run_unlocked in Hrun.
    destruct (body w s) as [[[b s1] t1]|] eqn:Hbody; [|discriminate].
    destruct (run (k b) w s1) as [[[r' s2] t2]|] eqn:Hk; [|discriminate].
    injection Hrun as <- <- <-.
    eapply steps_trace.
    { eapply (steps_more _ 0); [by eapply step_unlocked|].
      apply (IH b _ _ Hk). }
    unfold tag. rewrite !fmap_app. reflexivity.
Qed.


(** ** Executions *)

(** The next step of caller [i], whichever it is. *)
Ltac caller_step i :=
  eapply (steps_more _ i);
  [ first
      [ eapply step_lock; reflexivity
      | eapply step_body; [reflexivity | vm_compute; reflexivity]
      | eapply step_unlock; reflexivity
      | eapply step_unlocked; [reflexivity | vm_compute; reflexivity]
      | eapply step_return; reflexivity ]
  | ].

(** A caller of [jobacct_g_fini_slurmctld] runs between the two critical
    sections of a caller of [jobacct_g_init_struct]: the dispatch of the
    latter finds no context. *)
Example two_callers_interleaved :
  ∃ tr c,
    steps (start_config two_callers start) tr c ∧
    tr = [(0, EvLock); (0, EvInitCheck); (0, EvGetType); (0, EvRackCreate);
          (0, EvReadDir); (0, EvUseByType "jobacct/linux");
          (0, EvGetSyms 18); (0, EvUnlock);
          (1, EvLock);
          (1, EvCall (Fn "jobacct/linux" "jobacct_p_fini_slurmctld") []);
          (1, EvUnlock); (1, EvRackDestroy);
          (0, EvLock); (0, EvUnlock)] ∧
    pool c = [(good_world, Returned 0); (good_world, Returned 0)] ∧
    holder c = None ∧ shared c = start.
Proof.
  eexists _, _. split.
  { unfold start_config, two_callers. cbn [fmap list_fmap fst snd].
    do 4 caller_step 0. do 5 caller_step 1. do 4 caller_step 0.
    apply steps_done. }
  split; [reflexivity|]. split; [reflexivity|]. split; [reflexivity|].
  vm_compute. reflexivity.
Qed.


(** The statements of [_slurm_jobacct_fini] come after the unlock of
    [jobacct_g_fini_slurmctld]: here they run while the caller of
    [jobacct_g_getinfo] is inside its critical section, which then finds
    no context. *)
Example fini_outside_section :
  ∃ tr c,
    steps (start_config reader_and_finalizer after_init) tr c ∧
    tr = [(1, EvLock);
          (1, EvCall (Fn "jobacct/linux" "jobacct_p_fini_slurmctld") []);
          (1, EvUnlock);
          (0, EvLock); (1, EvRackDestroy); (0, EvUnlock)] ∧
    pool c = [(good_world, Returned 0); (good_world, Returned 0)] ∧
    exclusive None tr = true.
Proof.
  eexists _, _. split.
  { unfold start_config, reader_and_finalizer. cbn [fmap list_fmap fst snd].
    do 3 caller_step 1. caller_step 0. caller_step 1.
    do 3 caller_step 0. caller_step 1.
    apply steps_done. }
  split; [reflexivity|]. split; reflexivity.
Qed.

Lemma no_lock_reverse t :
  no_lock t = true →
  existsb is_lock (reverse t) = false ∧ existsb is_unlock (reverse t) = false.
Proof.
  unfold no_lock. intros Hno.
  assert (∀ e, e ∈ reverse t → is_lock e = false ∧ is_unlock e = false) as H.
  { intros e He. rewrite elem_of_reverse, list_elem_of_In in He.
    pose proof (proj1 (forallb_forall _ _) Hno e He) as Hf.
    apply negb_true_iff, orb_false_iff in Hf. exact Hf. }
  split.
  - destruct (existsb is_lock (reverse t)) eqn:E; [|reflexivity].
    apply existsb_exists in E as (e & He & Hl).
    rewrite <- list_elem_of_In in He. destruct (H e He). congruence.
  - destruct (existsb is_unlock (reverse t)) eqn:E; [|reflexivity].
    apply existsb_exists in E as (e & He & Hl).
    rewrite <- list_elem_of_In in He. destruct (H e He). congruence.
Qed.

(** Whatever the state, [_slurm_jobacct_init] returns, and everything it
    does lies between its one lock and its one unlock. *)
Lemma init_one_critical_section w s :
  ∃ rc s' t,
    _slurm_jobacct_init w s = Some (rc, s', t) ∧
    one_critical_section t = true ∧ EvInitCheck ∈ t.
Proof.
  destruct (init_section_trace w s)
    as (x & s1 & t1 & rc & s' & Hsec & Hinit & Hno).
  exists rc, s', (EvLock :: t1 ++ [EvUnlock]). split; [exact Hinit|]. split.
  - unfold one_critical_section. rewrite reverse_snoc.
    destruct (no_lock_reverse t1 Hno) as [-> ->]. reflexivity.
  - destruct s as [h [c|]].
    + injection Hsec as _ _ <-. set_solver.
    + destruct (init_run_none w h) as (c & q & _ & _ & Hcq & Hinit').
      destruct (init_outcome_shape w h c q Hcq) as (rc' & s'' & t & Hout & _).
      rewrite Hout, Hinit in Hinit'. injection Hinit' as _ _ ->. set_solver.
Qed.

(** C8 (amended).  One lock guards the initialization check, the whole of
    the initialization and every delegated backend call.  The programs cut
    at the lock and unlock calls are the entry points.
    [_slurm_jobacct_init] always returns, and all it does lies inside one
    critical section, which ends at its unlock.  From every ready state
    every entry point returns; the lock is never taken while held nor
    released while free and is free at the return, every event but the
    destruction of the rack happens while the caller holds the lock, and at
    most one backend function is called.  The lock is not held across the
    whole "ensure initialized, then dispatch" sequence: an entry point that
    initializes lazily and then dispatches goes through two critical
    sections, every other call through one.  In every interleaving of any
    callers of any entry points, from any state: the lock is taken only
    when free; the check, every step and message of an initialization and
    every backend call are made by the caller that holds it; at most one
    caller is inside a critical section; and a step of a caller that does
    not hold the lock is its [slurm_mutex_lock], or is silent and leaves
    [g_jobacct_context] alone, or belongs to a caller of
    [jobacct_g_fini_slurmctld], about whose steps after the unlock nothing
    is said. *)
Theorem C8_mutual_exclusion :
  (∀ e w s, run (entry_prog e) w s = facade e w s) ∧
  (∀ w s, ∃ rc s' t,
     _slurm_jobacct_init w s = Some (rc, s', t) ∧
     one_critical_section t = true ∧ EvInitCheck ∈ t) ∧
  (∀ e w s, ready s = true →
     ∃ r s' t,
       facade e w s = Some (r, s', t) ∧
       lock_discipline false t = true ∧
       exclusive None (tag 0 t) = true ∧
       length (backend_calls t) ≤ 1 ∧
       critical_sections t = (if calls_init e && calls_backend t then 2 else 1)) ∧
  (∀ calls s tr c,
     steps (start_config calls s) tr c →
     exclusive None tr = true ∧
     (∀ i j thi thj,
        pool c !! i = Some thi → pool c !! j = Some thj →
        in_section thi.2 = true → in_section thj.2 = true → i = j) ∧
     ∀ i t c',
       step i c t c' →
       holder c = Some i ∨ t = [(i, EvLock)] ∨
       (t = [] ∧
        g_jobacct_context (shared c') = g_jobacct_context (shared c)) ∨
       finalizes calls i).
Proof.
  split_and!.
  - apply run_entry_prog.
  - apply init_one_critical_section.
  - intros e w s Hready.
    destruct (facade_run e w s Hready)
      as (r & s' & t & Hrun & _ & Hlock & Hsec & _ & _ & Hlen & _).
    exists r, s', t. split_and!; try done.
    pose proof Hrun as Hsteps. rewrite <- run_entry_prog in Hsteps.
    apply run_steps in Hsteps.
    apply (steps_exclusive (start_config [(e, w)] s)) in Hsteps as [_ Hex];
      [exact Hex | apply start_config_inv].
  - intros calls s tr c Hsteps.
    pose proof (steps_private calls _ _ _ (start_config_private calls s) Hsteps)
      as Hpriv.
    apply steps_exclusive in Hsteps as [Hinv Hex]; [|apply start_config_inv].
    split; [exact Hex|]. split.
    + intros i j thi thj. by apply mutex_inv_exclusion.
    + intros i t c'. by apply step_outside.
Qed.

Lemma C8_witness :
  (∃ r s' t,
     facade (g_startpoll 30) good_world start = Some (r, s', t) ∧
     exclusive None (tag 0 t) = true ∧ critical_sections t = 2) ∧
  (∃ tr c,
     steps (start_config two_callers start) tr c ∧
     length tr = 14 ∧ exclusive None tr = true).
Proof.
  destruct C8_mutual_exclusion as (_ & _ & Hseq & Hpar). split.
  - destruct (Hseq (g_startpoll 30) good_world start)
      as (r & s' & t & Hrun & _ & Hex & _ & Hsec); [vm_compute; reflexivity|].
    exists r, s', t. split; [exact Hrun|]. split; [exact Hex|].
    rewrite Hsec.
    assert (E : facade (g_startpoll 30) good_world start = Some (r, s', t))
      by exact Hrun.
    vm_compute in E. injection E as _ _ <-. reflexivity.
  - assert (∃ tr c, steps (start_config two_callers start) tr c ∧
                    length tr = 14) as (tr & c & Hsteps & Hlen).
    { eexists _, _. split.
      { unfold start_config, two_callers. cbn [fmap list_fmap fst snd].
        do 4 caller_step 0. do 5 caller_step 1. do 4 caller_step 0.
        apply steps_done. }
      reflexivity. }
    exists tr, c. split; [exact Hsteps|]. split; [exact Hlen|].
    apply (Hpar _ _ _ _ Hsteps).
Defined.


End ThreadsSpec.

(* ===================================================================== *)
(** * Further properties of timers.c and timers.h *)
(* ===================================================================== *)

Module TimersExtra.

Import CInt CIntFacts Timers TimersSpec.
Local Open Scope Z_scope.

(** ** Integer conversions *)

Lemma to_int_to_long x : to_int (to_long x) = to_int x.
Proof.
  unfold to_int, to_long. apply wrap_eqm; [lia|].
  assert (E : wrap 64 x = x + (- (2 ^ 32 * ((x + 2 ^ 63) / 2 ^ 64))) * 2 ^ 32).
  { unfold wrap. change (64 - 1) with 63.
    pose proof (Z.mod_eq (x + 2 ^ 63) (2 ^ 64)). lia. }
  rewrite E. apply Z_mod_plus_full.
Qed.

Lemma to_int_small x : INT_MIN <= x <= INT_MAX -> to_int x = x.
Proof.
  unfold INT_MIN, INT_MAX, to_int. intros H.
  apply wrap_small; [lia|]. change (32 - 1) with 31. lia.
Qed.

Lemma to_long_small x : LONG_MIN <= x <= LONG_MAX -> to_long x = x.
Proof.
  unfold LONG_MIN, LONG_MAX, to_long. intros H.
  apply wrap_small; [lia|]. change (64 - 1) with 63. lia.
Qed.

Lemma to_long_ex x : exists k, to_long x = x + k * 2 ^ 32.
Proof.
  exists (- (2 ^ 32 * ((x + 2 ^ 63) / 2 ^ 64))).
  unfold to_long, wrap. change (64 - 1) with 63.
  pose proof (Z.mod_eq (x + 2 ^ 63) (2 ^ 64)). lia.
Qed.

Lemma to_int_ex x : exists k, to_int x = x + k * 2 ^ 32.
Proof.
  exists (- ((x + 2 ^ 31) / 2 ^ 32)).
  unfold to_int, wrap. change (32 - 1) with 31.
  pose proof (Z.mod_eq (x + 2 ^ 31) (2 ^ 32)). lia.
Qed.

Lemma to_int_eqm x k : to_int (x + k * 2 ^ 32) = to_int x.
Proof.
  unfold to_int. apply wrap_eqm; [lia|]. apply Z_mod_plus_full.
Qed.

(** The value [slurm_timer_delta_tv] computes is the exact difference
    reduced to an [int]. *)
Lemma elapsed_raw a b c d :
  to_int (to_long (to_int (to_long (to_long (a - b) * 1000000))
                   + to_long (c - d)))
  = to_int ((a - b) * 1000000 + c - d).
Proof.
  destruct (to_long_ex (a - b)) as [k1 ->].
  destruct (to_long_ex ((a - b + k1 * 2 ^ 32) * 1000000)) as [k2 ->].
  destruct (to_int_ex ((a - b + k1 * 2 ^ 32) * 1000000 + k2 * 2 ^ 32))
    as [k3 ->].
  destruct (to_long_ex (c - d)) as [k4 ->].
  match goal with |- to_int (to_long ?x) = _ =>
    destruct (to_long_ex x) as [k5 ->] end.
  rewrite <- (to_int_eqm ((a - b) * 1000000 + c - d)
                         (k1 * 1000000 + k2 + k3 + k4 + k5)).
  f_equal. ring.
Qed.

Lemma elapsed_to_int now tv : elapsed now tv = to_int (exact_diff tv now).
Proof. unfold elapsed, exact_diff. apply elapsed_raw. Qed.

(** ** Elapsed time *)

(** X1.  For a start time whose [tv_sec] is not 0 and a clock that is read,
    [slurm_timer_delta_tv] and [slurm_delta_tv] return the difference in
    microseconds between the clock and the start time reduced to an [int],
    and leave the start time as it is; the value is the exact difference
    whenever that fits an [int] (about 35 minutes either way). *)
Theorem delta_tv_elapsed (os : libc) (tv : timeval) :
  tv_sec tv <> 0 ->
  let cur := snd (clock_gettime os) in
  let now := Timeval (ts_sec cur) (ts_nsec cur ÷ 1000) in
  let now' := snd (gettimeofday os) in
  (fst (clock_gettime os) = 0 ->
     slurm_timer_delta_tv os tv = (to_int (exact_diff tv now), tv) /\
     (INT_MIN <= exact_diff tv now <= INT_MAX ->
        slurm_timer_delta_tv os tv = (exact_diff tv now, tv))) /\
  (fst (gettimeofday os) = 0 ->
     slurm_delta_tv os tv = (to_int (exact_diff tv now'), tv) /\
     (INT_MIN <= exact_diff tv now' <= INT_MAX ->
        slurm_delta_tv os tv = (exact_diff tv now', tv))).
Proof.
  intros Hsec cur now now'. subst cur now now'.
  unfold slurm_timer_delta_tv, slurm_timer_gettime, slurm_delta_tv.
  destruct os as [[rc cur] [rc' now'] t l s];
    cbn [clock_gettime gettimeofday fst snd].
  destruct (Z.eqb_spec (tv_sec tv) 0) as [|_]; [contradiction|].
  split; intros ->; cbn [Z.eqb negb].
  - rewrite elapsed_raw. unfold exact_diff. cbn [tv_sec tv_usec].
    split; [reflexivity|].
    intros H. rewrite to_int_small by exact H. reflexivity.
  - destruct now' as [s' u']. rewrite elapsed_raw.
    unfold exact_diff. cbn [tv_sec tv_usec]. split; [reflexivity|].
    intros H. rewrite to_int_small by exact H. reflexivity.
Qed.

Lemma delta_tv_elapsed_witness :
  slurm_timer_delta_tv (clock_at 160 250000000) (Timeval 100 750000)
  = (59500000, Timeval 100 750000).
Proof.
  apply (delta_tv_elapsed (clock_at 160 250000000) (Timeval 100 750000));
    [discriminate | reflexivity | vm_compute; split; discriminate].
Defined.

(** After 36 minutes the [int] has wrapped. *)
Example delta_tv_wraps :
  (slurm_timer_delta_tv (clock_at 2260 0) (Timeval 100 0)).1 = -2134967296.
Proof. reflexivity. Qed.

(** X2.  The idiom "call once on a zeroed timeval to start, call again to
    read": when the clock shows a nonzero second at the first call, the
    second call returns the time elapsed between the two reads (as an
    [int]) and the timeval still holds the first reading.  When the first
    reading falls in second 0 of the clock, the timer is not started: the
    second call stores its own reading and returns 0 again. *)
Theorem delta_tv_twice (os1 os2 : libc) (tv : timeval) :
  tv_sec tv = 0 ->
  fst (clock_gettime os1) = 0 -> fst (clock_gettime os2) = 0 ->
  let c1 := snd (clock_gettime os1) in
  let c2 := snd (clock_gettime os2) in
  let now1 := Timeval (ts_sec c1) (ts_nsec c1 ÷ 1000) in
  let now2 := Timeval (ts_sec c2) (ts_nsec c2 ÷ 1000) in
  let first := slurm_timer_delta_tv os1 tv in
  let second := slurm_timer_delta_tv os2 first.2 in
  first = (0, now1) /\
  (ts_sec c1 <> 0 -> second = (to_int (exact_diff now1 now2), now1)) /\
  (ts_sec c1 = 0 -> second = (0, now2)).
Proof.
  intros Hzero H1 H2. cbv zeta.
  unfold slurm_timer_delta_tv, slurm_timer_gettime.
  destruct os1 as [[rc1 c1] g1 t1 l1 s1], os2 as [[rc2 c2] g2 t2 l2 s2].
  cbn [clock_gettime fst snd] in *. subst rc1 rc2. rewrite Hzero.
  cbn [Z.eqb negb fst snd tv_sec tv_usec].
  split; [reflexivity|]. split; intros Hc.
  - destruct (Z.eqb_spec (ts_sec c1) 0) as [|_]; [contradiction|].
    rewrite elapsed_raw. reflexivity.
  - rewrite Hc. reflexivity.
Qed.

Lemma delta_tv_twice_witness :
  slurm_timer_delta_tv (clock_at 7 0)
    (slurm_timer_delta_tv (clock_at 0 900000000) (Timeval 0 0)).2
  = (0, Timeval 7 0).
Proof.
  apply (delta_tv_twice (clock_at 0 900000000) (clock_at 7 0) (Timeval 0 0));
    reflexivity.
Defined.

(** ** The text written *)

Lemma substring_length (s : string) (n : nat) :
  (String.length (String.substring 0 n s) <= n)%nat.
Proof.
  revert n. induction s as [|c s IH]; intros [|n]; simpl; try lia.
  specialize (IH n). lia.
Qed.

Lemma substring_prefix (s : string) (n : nat) :
  String.prefix (String.substring 0 n s) s = true.
Proof.
  revert n. induction s as [|c s IH]; intros [|n]; simpl; try reflexivity.
  rewrite IH. destruct (Ascii.ascii_dec c c); [reflexivity|contradiction].
Qed.

(** X3.  Whatever the times, the caller and the limit, the text the two
    [diff_tv_str] functions leave in [tv_str] for a positive [len_tv_str]
    is a prefix of ["usec=<delta>"] of at most [len_tv_str - 1]
    characters, so that it fits the buffer with its terminating NUL; with
    [len_tv_str] 0 the buffer is not written. *)
Theorem diff_tv_str_fits_buffer (os : libc) (tv1 tv2 : timeval)
    (tv_str : string) (len_tv_str : Z) (from : option string) (limit : Z) :
  let r := slurm_timer_diff_tv_str os tv1 tv2 tv_str len_tv_str from limit in
  let r' := slurm_diff_tv_str os tv1 tv2 tv_str len_tv_str from limit in
  let text := "usec=" +:+ fmt_ld (diff_delta_t tv1 tv2) in
  out_tv_str r' = out_tv_str r /\
  (len_tv_str = 0 -> out_tv_str r = tv_str) /\
  (0 < len_tv_str < 2 ^ 31 ->
     Z.of_nat (String.length (out_tv_str r)) <= len_tv_str - 1 /\
     String.prefix (out_tv_str r) text = true).
Proof.
  cbv zeta. unfold slurm_timer_diff_tv_str, slurm_diff_tv_str.
  cbn [out_tv_str]. split; [reflexivity|]. split.
  - intros ->. reflexivity.
  - intros H. rewrite snprintf_trunc by exact H. split.
    + pose proof (substring_length
        ("usec=" +:+ fmt_ld (diff_delta_t tv1 tv2)) (Z.to_nat (len_tv_str - 1))).
      lia.
    + apply substring_prefix.
Qed.

Lemma diff_tv_str_fits_buffer_witness :
  out_tv_str (slurm_timer_diff_tv_str os0 (Timeval 1 0) (Timeval 1 0)
                "old" 0 None 0) = "old" /\
  String.prefix
    (out_tv_str (slurm_timer_diff_tv_str os0 (Timeval 0 0)
                   (Timeval 123456789 12345) "" 8 None 0))
    "usec=123456789012345" = true.
Proof.
  split.
  - apply (diff_tv_str_fits_buffer os0 (Timeval 1 0) (Timeval 1 0) "old" 0 None 0).
    reflexivity.
  - apply (diff_tv_str_fits_buffer os0 (Timeval 0 0) (Timeval 123456789 12345)
             "" 8 None 0).
    vm_compute. split; reflexivity.
Defined.

(** ** Composition of differences *)

(** X4.  Differences add up: when the three differences fit a [long], the
    value stored for [tv1] to [tv3] is the sum of the values stored for
    [tv1] to [tv2] and for [tv2] to [tv3]; and swapping the arguments
    negates the value. *)
Theorem diff_tv_str_additive (os : libc) (tv1 tv2 tv3 : timeval)
    (tv_str : string) (len : Z) (from : option string) (limit : Z) :
  LONG_MIN <= exact_diff tv1 tv2 <= LONG_MAX ->
  LONG_MIN <= exact_diff tv2 tv3 <= LONG_MAX ->
  LONG_MIN <= exact_diff tv1 tv3 <= LONG_MAX ->
  let d a b := out_delta_t (slurm_timer_diff_tv_str os a b tv_str len from limit) in
  d tv1 tv3 = d tv1 tv2 + d tv2 tv3 /\
  (LONG_MIN <= exact_diff tv2 tv1 <= LONG_MAX -> d tv2 tv1 = - d tv1 tv2).
Proof.
  intros H12 H23 H13. cbv zeta.
  unfold slurm_timer_diff_tv_str. cbn [out_delta_t].
  rewrite !diff_delta_t_wrap.
  rewrite (to_long_small _ H12), (to_long_small _ H23), (to_long_small _ H13).
  split; [unfold exact_diff; lia|].
  intros H21. rewrite (to_long_small _ H21). unfold exact_diff. lia.
Qed.

Lemma diff_tv_str_additive_witness :
  out_delta_t (slurm_timer_diff_tv_str os0 (Timeval 10 900000) (Timeval 15 5) "" 20 None 0)
  = out_delta_t (slurm_timer_diff_tv_str os0 (Timeval 10 900000) (Timeval 12 100000) "" 20 None 0)
    + out_delta_t (slurm_timer_diff_tv_str os0 (Timeval 12 100000) (Timeval 15 5) "" 20 None 0).
Proof.
  apply (diff_tv_str_additive os0 (Timeval 10 900000) (Timeval 12 100000)
           (Timeval 15 5) "" 20 None 0); vm_compute; split; discriminate.
Defined.

(** ** Logging thresholds *)

(** X5.  With the default limit (0) and a caller name, nothing is logged for
    a difference of at most one second, one [debug] message for a
    difference above one and at most three seconds, one [verbose] warning
    above three seconds; without a caller name nothing is ever logged,
    whatever the limit.  Only a failing [localtime_r] or [strftime] adds
    [error] calls in front. *)
Theorem diff_tv_str_log_default (os : libc) (tv1 tv2 : timeval)
    (tv_str : string) (len : Z) (from : string) :
  let r := slurm_timer_diff_tv_str os tv1 tv2 tv_str len (Some from) 0 in
  let r' := slurm_diff_tv_str os tv1 tv2 tv_str len (Some from) 0 in
  let d := diff_delta_t tv1 tv2 in
  let errs :=
    (if localtime_r_ok os then [] else [error "localtime_r(): %m"]) ++
    (if strftime_ok os then [] else [error "strftime(): %m"]) in
  let began := to_long (time_NULL os - d) in
  let msec := Some (to_int (tv_usec tv1 ÷ 1000)) in
  (forall limit,
     out_log (slurm_timer_diff_tv_str os tv1 tv2 tv_str len None limit) = [] /\
     out_log (slurm_diff_tv_str os tv1 tv2 tv_str len None limit) = []) /\
  (d <= 1000000 -> out_log r = [] /\ out_log r' = []) /\
  (1000000 < d <= 3000000 ->
     out_log r = errs ++ [debug from (out_tv_str r) began None] /\
     out_log r' = errs ++ [debug from (out_tv_str r') (tv_sec tv1) msec]) /\
  (3000000 < d ->
     out_log r = errs ++ [verbose from (out_tv_str r) began None] /\
     out_log r' = errs ++ [verbose from (out_tv_str r') (tv_sec tv1) msec]).
Proof.
  cbv zeta. unfold slurm_timer_diff_tv_str, slurm_diff_tv_str.
  cbn [out_log out_tv_str Z.eqb].
  split; [split; reflexivity|].
  split; [|split]; intros H.
  - destruct (Z.ltb_spec 1000000 (diff_delta_t tv1 tv2)); [lia|].
    destruct (Z.ltb_spec 3000000 (diff_delta_t tv1 tv2)); [lia|].
    split; reflexivity.
  - destruct (Z.ltb_spec 1000000 (diff_delta_t tv1 tv2)); [|lia].
    destruct (Z.ltb_spec 3000000 (diff_delta_t tv1 tv2)); [lia|].
    cbn [orb]. rewrite <- !app_assoc. split; reflexivity.
  - destruct (Z.ltb_spec 1000000 (diff_delta_t tv1 tv2)); [|lia].
    destruct (Z.ltb_spec 3000000 (diff_delta_t tv1 tv2)); [|lia].
    cbn [orb]. rewrite <- !app_assoc. split; reflexivity.
Qed.

Lemma diff_tv_str_log_default_witness :
  out_log (slurm_timer_diff_tv_str (clock_at 500 0) (Timeval 10 0) (Timeval 12 0)
             "" 20 (Some "sched") 0)
  = [debug "sched" "usec=2000000" (-1999500) None].
Proof.
  apply (diff_tv_str_log_default (clock_at 500 0) (Timeval 10 0) (Timeval 12 0)
           "" 20 "sched").
  vm_compute. split; [reflexivity | discriminate].
Defined.

(** X6.  With an explicit nonzero limit that fits an [int], a caller name
    gets one [verbose] warning exactly when the difference exceeds the
    limit, and nothing otherwise: the [debug] level is never used. *)
Theorem diff_tv_str_log_limit (os : libc) (tv1 tv2 : timeval)
    (tv_str : string) (len : Z) (from : string) (limit : Z) :
  limit <> 0 -> INT_MIN <= limit <= INT_MAX ->
  let r := slurm_timer_diff_tv_str os tv1 tv2 tv_str len (Some from) limit in
  let r' := slurm_diff_tv_str os tv1 tv2 tv_str len (Some from) limit in
  let d := diff_delta_t tv1 tv2 in
  let errs :=
    (if localtime_r_ok os then [] else [error "localtime_r(): %m"]) ++
    (if strftime_ok os then [] else [error "strftime(): %m"]) in
  (d <= limit -> out_log r = [] /\ out_log r' = []) /\
  (limit < d ->
     out_log r =
       errs ++ [verbose from (out_tv_str r) (to_long (time_NULL os - d)) None] /\
     out_log r' =
       errs ++ [verbose from (out_tv_str r') (tv_sec tv1)
                        (Some (to_int (tv_usec tv1 ÷ 1000)))]).
Proof.
  intros Hnz Hint. cbv zeta.
  unfold slurm_timer_diff_tv_str, slurm_diff_tv_str.
  cbn [out_log out_tv_str]. rewrite (to_int_small limit Hint).
  destruct (Z.eqb_spec limit 0) as [|_]; [contradiction|].
  split; intros H.
  - destruct (Z.ltb_spec limit (diff_delta_t tv1 tv2)); [lia|].
    split; reflexivity.
  - destruct (Z.ltb_spec limit (diff_delta_t tv1 tv2)); [|lia].
    cbn [orb]. rewrite <- !app_assoc. split; reflexivity.
Qed.

Lemma diff_tv_str_log_limit_witness :
  out_log (slurm_timer_diff_tv_str (clock_at 500 0) (Timeval 10 0) (Timeval 12 0)
             "" 20 (Some "sched") 1500000)
  = [verbose "sched" "usec=2000000" (-1999500) None].
Proof.
  apply (diff_tv_str_log_limit (clock_at 500 0) (Timeval 10 0) (Timeval 12 0)
           "" 20 "sched" 1500000);
    [discriminate | vm_compute; split; discriminate | reflexivity].
Defined.

(** A limit that does not fit an [int] is cut to 32 bits for the lower
    threshold, and the [debug] level comes back. *)
Example diff_tv_str_log_wide_limit :
  out_log (slurm_timer_diff_tv_str (clock_at 500 0) (Timeval 10 0) (Timeval 10 10)
             "" 20 (Some "sched") 4294967301)
  = [debug "sched" "usec=10" 490 None].
Proof. reflexivity. Qed.

(** ** Decimal digits *)

Lemma of_uint_acc_ge (d : Decimal.uint) (acc : positive) :
  Z.pos acc * 10 ^ Z.of_nat (Decimal.nb_digits d) <= Z.pos (Pos.of_uint_acc d acc).
Proof.
  revert acc. induction d as [|d IH|d IH|d IH|d IH|d IH|d IH|d IH|d IH|d IH|d IH];
    intros acc; cbn [Pos.of_uint_acc Decimal.nb_digits]; [lia|..];
    rewrite Nat2Z.inj_succ, Z.pow_succ_r by lia;
    (etransitivity; [|apply IH]);
    assert (0 < 10 ^ Z.of_nat (Decimal.nb_digits d)) by (apply Z.pow_pos_nonneg; lia);
    nia.
Qed.

Lemma to_uint_normal (p : positive) d : Pos.to_uint p <> Decimal.D0 d.
Proof.
  intros E.
  pose proof (DecimalPos.Unsigned.to_of (Pos.to_uint p)) as Hn.
  rewrite DecimalPos.Unsigned.of_to in Hn.
  change (N.to_uint (N.pos p)) with (Pos.to_uint p) in Hn.
  rewrite E in Hn. unfold Decimal.unorm in Hn.
  destruct (Decimal.nzhead (Decimal.D0 d)) eqn:Hz; try discriminate Hn.
  - injection Hn as ->. exact (DecimalPos.Unsigned.to_uint_nonzero p E).
  - exact (DecimalFacts.nzhead_nonzero _ _ Hz).
Qed.

Lemma to_uint_digits (p : positive) (n : nat) :
  Z.pos p < 10 ^ Z.of_nat n -> (Decimal.nb_digits (Pos.to_uint p) <= n)%nat.
Proof.
  intros Hlt.
  pose proof (DecimalPos.Unsigned.of_to p) as Hof.
  pose proof (to_uint_normal p) as Hnorm.
  pose proof (DecimalPos.Unsigned.to_uint_nonnil p) as Hnil.
  destruct (Pos.to_uint p) as [|d|d|d|d|d|d|d|d|d|d];
    [contradiction | exfalso; eapply Hnorm; reflexivity | ..];
    cbn [Pos.of_uint] in Hof; injection Hof as <-;
    match goal with
    | H : Z.pos (Pos.of_uint_acc ?d ?k) < _ |- _ =>
      pose proof (of_uint_acc_ge d k) as Hge
    end;
    cbn [Decimal.nb_digits];
    assert (0 < 10 ^ Z.of_nat (Decimal.nb_digits d)) by (apply Z.pow_pos_nonneg; lia);
    assert (Hpow : 10 ^ Z.of_nat (Decimal.nb_digits d) < 10 ^ Z.of_nat n) by nia;
    apply Z.pow_lt_mono_r_iff in Hpow; lia.
Qed.

Lemma string_of_uint_length (d : Decimal.uint) :
  String.length (NilEmpty.string_of_uint d) = Decimal.nb_digits d.
Proof. induction d; simpl; congruence. Qed.

Lemma string_of_to_uint_length (p : positive) :
  String.length (NilZero.string_of_uint (Pos.to_uint p))
  = Decimal.nb_digits (Pos.to_uint p).
Proof.
  pose proof (DecimalPos.Unsigned.to_uint_nonnil p) as Hnil.
  rewrite <- string_of_uint_length. unfold NilZero.string_of_uint.
  destruct (Pos.to_uint p); [contradiction|reflexivity..].
Qed.

(** A [long] between -10^13 and 10^14 (exclusive) prints in at most 14
    characters. *)
Lemma fmt_ld_length (x : Z) :
  - 10 ^ 13 < x < 10 ^ 14 -> (String.length (fmt_ld x) <= 14)%nat.
Proof.
  intros H. unfold fmt_ld. destruct x as [|p|p];
    cbn [Z.to_int NilZero.string_of_int].
  - simpl. lia.
  - rewrite string_of_to_uint_length. apply to_uint_digits. lia.
  - cbn [String.length]. rewrite string_of_to_uint_length.
    assert (Decimal.nb_digits (Pos.to_uint p) <= 13)%nat
      by (apply to_uint_digits; lia).
    lia.
Qed.

(** ** The macros *)

(** X7.  [END_TIMER], [END_TIMER2] and [END_TIMER3] with the 20-byte buffer
    of [DEF_TIMERS]: when the clock is read and the time since [tv1] is
    between -10^13 and 10^14 microseconds (exclusive), [DELTA_TIMER] is the
    exact difference and [TIME_STR] is the whole text ["usec=<delta>"],
    nothing cut; [tv1] is kept and [tv2] is the new reading. *)
Theorem end_timer_text (os : libc) (from : option string) (limit : Z)
    (t : timers) :
  fst (clock_gettime os) = 0 ->
  let c := snd (clock_gettime os) in
  let now := Timeval (ts_sec c) (ts_nsec c ÷ 1000) in
  let d := exact_diff (tv1 t) now in
  - 10 ^ 13 < d < 10 ^ 14 ->
  let t' := (END_TIMER3 os from limit t).1 in
  tv1 t' = tv1 t /\ tv2 t' = now /\ delta_t t' = d /\
  tv_str t' = "usec=" +:+ fmt_ld d.
Proof.
  intros Hrc c now d Hd t'. subst c now d t'.
  unfold END_TIMER3, slurm_timer_gettime, slurm_timer_diff_tv_str.
  destruct (clock_gettime os) as [rc c]. cbn [fst snd] in *. subst rc.
  cbn [Z.eqb fst snd tv1 tv2 tv_str delta_t out_tv_str out_delta_t].
  set (now := Timeval (ts_sec c) (ts_nsec c ÷ 1000)) in *.
  rewrite diff_delta_t_exact by (unfold LONG_MIN, LONG_MAX; lia).
  split; [reflexivity|]. split; [reflexivity|]. split; [reflexivity|].
  apply snprintf_fits. unfold sizeof_tv_str.
  pose proof (fmt_ld_length (exact_diff (tv1 t) now) Hd) as Hlen.
  change (String.length ("usec=" +:+ fmt_ld (exact_diff (tv1 t) now)))
    with (5 + String.length (fmt_ld (exact_diff (tv1 t) now)))%nat.
  lia.
Qed.

Lemma end_timer_text_witness :
  tv_str (END_TIMER2 (clock_at 99999999 999999999) (Some "sched")
            (DEF_TIMERS (Timeval 0 0) (Timeval 7 7) 7)).1
  = "usec=99999999999999".
Proof.
  apply (end_timer_text (clock_at 99999999 999999999) (Some "sched") 0
           (DEF_TIMERS (Timeval 0 0) (Timeval 7 7) 7));
    [reflexivity | vm_compute; split; reflexivity].
Defined.

(** X8.  [START_TIMER] followed by [END_TIMER]: when both reads of the
    monotonic clock succeed, the second not before the first and less than
    nine trillion seconds after it, [DELTA_TIMER] is not negative, it
    differs from the true elapsed time by less than one microsecond, and
    nothing is logged. *)
Theorem start_end_timer (os1 os2 : libc) (t : timers) :
  fst (clock_gettime os1) = 0 -> fst (clock_gettime os2) = 0 ->
  let c1 := snd (clock_gettime os1) in
  let c2 := snd (clock_gettime os2) in
  0 <= ts_nsec c1 < 10 ^ 9 -> 0 <= ts_nsec c2 < 10 ^ 9 ->
  ts_sec c1 < ts_sec c2 \/ (ts_sec c1 = ts_sec c2 /\ ts_nsec c1 <= ts_nsec c2) ->
  ts_sec c2 - ts_sec c1 <= 9 * 10 ^ 12 ->
  let r := END_TIMER os2 (START_TIMER os1 t) in
  let nanoseconds := (ts_sec c2 - ts_sec c1) * 10 ^ 9 + ts_nsec c2 - ts_nsec c1 in
  0 <= delta_t r.1 /\
  - 1000 < nanoseconds - 1000 * delta_t r.1 < 1000 /\
  r.2 = [].
Proof.
  intros H1 H2 c1 c2 Hn1 Hn2 Hord Hbound. subst c1 c2. cbv zeta.
  unfold END_TIMER, END_TIMER3, START_TIMER, slurm_timer_gettime,
    slurm_timer_diff_tv_str.
  destruct (clock_gettime os1) as [rc1 c1], (clock_gettime os2) as [rc2 c2].
  cbn [fst snd] in *. subst rc1 rc2.
  cbn [Z.eqb fst snd tv1 tv2 tv_str delta_t out_tv_str out_delta_t out_log].
  rewrite !Z.quot_div_nonneg by lia.
  assert (Hex : exact_diff (Timeval (ts_sec c1) (ts_nsec c1 / 1000))
                           (Timeval (ts_sec c2) (ts_nsec c2 / 1000))
                = (ts_sec c2 - ts_sec c1) * 1000000
                  + ts_nsec c2 / 1000 - ts_nsec c1 / 1000) by reflexivity.
  pose proof (Z.div_mod (ts_nsec c1) 1000 ltac:(lia)) as D1.
  pose proof (Z.mod_pos_bound (ts_nsec c1) 1000 ltac:(lia)) as B1.
  pose proof (Z.div_mod (ts_nsec c2) 1000 ltac:(lia)) as D2.
  pose proof (Z.mod_pos_bound (ts_nsec c2) 1000 ltac:(lia)) as B2.
  rewrite diff_delta_t_exact by (rewrite Hex; unfold LONG_MIN, LONG_MAX; lia).
  rewrite Hex. split; [lia|]. split; [lia|reflexivity].
Qed.

Lemma start_end_timer_witness :
  let r := END_TIMER (clock_at 12 100000999)
             (START_TIMER (clock_at 10 900000001) (DEF_TIMERS (Timeval 3 3) (Timeval 7 7) 7)) in
  0 <= delta_t r.1 /\ r.2 = [].
Proof.
  destruct (start_end_timer (clock_at 10 900000001) (clock_at 12 100000999)
              (DEF_TIMERS (Timeval 3 3) (Timeval 7 7) 7))
    as (Hpos & _ & Hlog);
    [reflexivity | reflexivity | vm_compute; split; [discriminate|reflexivity]
    | vm_compute; split; [discriminate|reflexivity]
    | left; reflexivity | vm_compute; discriminate |].
  split; assumption.
Defined.

End TimersExtra.

(* ===================================================================== *)
(** * Further properties of slurm_jobacct.c *)
(* ===================================================================== *)

Module JobacctExtra.

Import Jobacct JobacctSpec.

(** ** Resolution *)

Lemma get_ops_outcome_complete w type q :
  conf_jobacct_type w = Some type →
  (get_ops_outcome w type q).1.1 = true →
  ∃ plug, selected_backend w = Some plug ∧
          (n_syms ≤ resolved_count plug)%Z ∧
          (get_ops_outcome w type q).1.2 = installed_context w plug q.
Proof.
  intros Hty. unfold get_ops_outcome, selected_backend, resolved_count,
    installed_context, world_rack. rewrite Hty.
  destruct (plugrack_create_ok w); [|discriminate].
  destruct (plugrack_use_by_type _ _) as [plug|]; [|discriminate].
  cbn [fst snd]. intros Hok. apply negb_true_iff, Z.ltb_ge in Hok.
  exists plug. split; [reflexivity|]. split; [exact Hok|reflexivity].
Qed.

(** Every pointer [plugin_get_syms] stores is the function of the plugin
    that has the name at the same position of [syms]. *)
Lemma get_syms_names plug i f :
  (plugin_get_syms plug n_syms syms).2 !! i = Some (Some f) →
  ∃ name, syms !! i = Some name ∧ f = Fn (plugin_type plug) name.
Proof.
  unfold plugin_get_syms, n_syms. cbn [snd]. rewrite Nat2Z.id, firstn_all.
  rewrite list_lookup_fmap. destruct (syms !! i) as [name|]; [|discriminate].
  cbn. unfold dlsym. case_bool_decide; [|discriminate].
  intros [= <-]. eauto.
Qed.

Lemma entry_symbol_slot e : syms !! slot (entry_call e).1 = Some (entry_symbol e).
Proof. destruct e; reflexivity. Qed.

(** ** Initialization *)

(** What a first initialization does, in full: the addresses are fresh, the
    outcome is the one of [init_outcome], it succeeds exactly for a
    complete selected backend, and then installs [installed_context]. *)
Lemma init_none_cases w (h : gmap addr cell) :
  ∃ c q t, h !! c = None ∧ h !! q = None ∧ c ≠ q ∧
    ((∃ s, _slurm_jobacct_init w (State h None) = Some (SLURM_ERROR, s, t) ∧
           g_jobacct_context s = None ∧
           (∀ plug, selected_backend w = Some plug →
                    (resolved_count plug < n_syms)%Z) ∧
           (heap s = h ∨
            plugrack_create_ok w = true ∧
            plugrack_destroy_rc w ≠ SLURM_SUCCESS ∧
            ∃ ctx type, conf_jobacct_type w = Some type ∧
              heap s = <[c := CCtx ctx]> (<[q := CStr type]> h))) ∨
     (∃ plug type,
        selected_backend w = Some plug ∧ (n_syms ≤ resolved_count plug)%Z ∧
        conf_jobacct_type w = Some type ∧
        _slurm_jobacct_init w (State h None) =
          Some (SLURM_SUCCESS,
                State (<[c := CCtx (installed_context w plug q)]>
                         (<[q := CStr type]> h)) (Some c), t))).
Proof.
  destruct (init_run_none w h) as (c & q & Hc & Hq & Hcq & Hinit).
  unfold init_outcome in Hinit.
  destruct (conf_jobacct_type w) as [type|] eqn:Hty.
  2: { eexists c, q, _. split_and!; try done. left. eexists. split; [exact Hinit|].
       split_and!; try done; [|by left].
       unfold selected_backend. rewrite Hty. done. }
  pose proof (get_ops_outcome_selected w q type Hty) as Hsel.
  pose proof (get_ops_outcome_complete w type q) as Hcomp.
  destruct (get_ops_outcome w type q) as [[ok ctx] t1] eqn:Hout.
  cbn [fst snd] in Hsel, Hcomp.
  assert (Hpartial : ok = false → ∀ plug, selected_backend w = Some plug →
                       (resolved_count plug < n_syms)%Z).
  { intros -> plug Hplug. specialize (Hsel plug Hplug).
    symmetry in Hsel. apply negb_false_iff in Hsel. by apply Z.ltb_lt. }
  destruct ok.
  - destruct (Hcomp Hty eq_refl) as (plug & Hplug & Hge & Hctx).
    cbn [fst snd] in Hctx. subst ctx.
    eexists c, q, _. split_and!; try done. right. exists plug, type.
    split_and!; try done.
  - assert (Hrack : plugin_list ctx = None ∨ plugrack_create_ok w = true).
    { unfold get_ops_outcome in Hout.
      destruct (plugrack_create_ok w); [by right|].
      injection Hout as <- _. by left. }
    destruct (plugin_list ctx) as [rack|] eqn:Hpl.
    + destruct Hrack as [|Hrack]; [done|].
      eexists c, q, _. split_and!; try done. left. eexists.
      split; [exact Hinit|]. cbn [g_jobacct_context heap].
      split_and!; try done; [by apply Hpartial|].
      case_bool_decide; [right|by left]. split_and!; try done. eauto.
    + eexists c, q, _. split_and!; try done. left. eexists.
      split; [exact Hinit|]. cbn [g_jobacct_context heap].
      split_and!; try done; [by apply Hpartial | by left].
Qed.

(** The successful case, with the trace. *)
Lemma init_footprint_cases w (h : gmap addr cell) plug :
  selected_backend w = Some plug → (n_syms ≤ resolved_count plug)%Z →
  ∃ c q type t,
    h !! c = None ∧ h !! q = None ∧ c ≠ q ∧ backend_calls t = [] ∧
    _slurm_jobacct_init w (State h None) =
      Some (SLURM_SUCCESS,
            State (<[c := CCtx (installed_context w plug q)]>
                     (<[q := CStr type]> h)) (Some c), t).
Proof.
  intros Hsel Hge.
  destruct (init_run_none w h) as (c & q & Hc & Hq & Hcq & Hinit).
  destruct (init_outcome_shape w h c q Hcq)
    as (rc & s' & t1 & Hout & Hquiet & Hcases).
  rewrite Hout in Hinit.
  destruct Hcases as [(_ & _ & Hpartial)
                     |(-> & _ & ctx & type & Hty & Hops & ->)].
  { specialize (Hpartial plug Hsel). apply Z.ltb_lt in Hpartial. lia. }
  destruct (get_ops_outcome_complete w type q Hty) as (plug' & Hsel' & _ & Hctx);
    [rewrite Hops; reflexivity|].
  rewrite Hops in Hctx. cbn [fst snd] in Hctx. subst ctx.
  assert (plug' = plug) as -> by congruence.
  eexists c, q, type, _. split_and!; try done.
  change (backend_calls ([EvLock; EvInitCheck; EvGetType] ++ t1 ++ [EvUnlock]))
    with (backend_calls (t1 ++ [EvUnlock])).
  rewrite backend_calls_quiet by done. reflexivity.
Qed.

(** X9.  A first [_slurm_jobacct_init] always returns, with
    [SLURM_SUCCESS] or [SLURM_ERROR]; it succeeds exactly when a type is
    configured, the rack can be created, the rack holds a plugin of that
    type and the plugin resolves all [n_syms] names; and a context is
    installed exactly when it succeeds. *)
Theorem init_succeeds_iff (w : world) (h : gmap addr cell) :
  ∃ r s t,
    _slurm_jobacct_init w (State h None) = Some (r, s, t) ∧
    (r = SLURM_SUCCESS ∨ r = SLURM_ERROR) ∧
    (r = SLURM_SUCCESS ↔
       ∃ plug, selected_backend w = Some plug ∧
               (n_syms ≤ resolved_count plug)%Z) ∧
    (r = SLURM_SUCCESS ↔ is_Some (g_jobacct_context s)).
Proof.
  destruct (init_none_cases w h) as (c & q & t & _ & _ & _ & Hcases).
  destruct Hcases as [(s & Hrun & Hnone & Hpartial & _)
                     |(plug & type & Hsel & Hge & _ & Hrun)].
  - exists SLURM_ERROR, s, t. split; [exact Hrun|]. split; [by right|].
    split; split; try discriminate.
    + intros (plug & Hsel & Hge). specialize (Hpartial plug Hsel). lia.
    + rewrite Hnone. intros [x Hx]. discriminate.
  - eexists _, _, _. split; [exact Hrun|]. split; [by left|].
    split; split; eauto.
Qed.

Lemma init_succeeds_iff_witness :
  ∃ s t, _slurm_jobacct_init rackless_world start = Some (SLURM_ERROR, s, t).
Proof.
  destruct (init_succeeds_iff rackless_world ∅)
    as (r & s & t & Hrun & [-> | ->] & Hiff & _).
  - exfalso. destruct Hiff as [Hiff _].
    destruct (Hiff eq_refl) as (plug & Hsel & _). discriminate Hsel.
  - exists s, t. exact Hrun.
Defined.

(** X10.  A successful first initialization changes the heap by exactly two
    blocks that were not allocated before: the context record and its copy
    of the configured type name.  The record holds the rack read from the
    plugin directory, the selected plugin and its table; the string the
    configuration returned has been released. *)
Theorem init_footprint (w : world) (h : gmap addr cell) (plug : plugin) :
  selected_backend w = Some plug → (n_syms ≤ resolved_count plug)%Z →
  ∃ c q type t h',
    conf_jobacct_type w = Some type ∧
    _slurm_jobacct_init w (State h None) =
      Some (SLURM_SUCCESS, State h' (Some c), t) ∧
    h !! c = None ∧ h !! q = None ∧ c ≠ q ∧
    h' !! c = Some (CCtx (installed_context w plug q)) ∧
    h' !! q = Some (CStr type) ∧
    (∀ x, x ≠ c → x ≠ q → h' !! x = h !! x).
Proof.
  intros Hsel Hge.
  destruct (init_none_cases w h) as (c & q & t & Hc & Hq & Hcq & Hcases).
  destruct Hcases as [(s & _ & _ & Hpartial & _)
                     |(plug' & type & Hsel' & _ & Hty & Hrun)].
  { specialize (Hpartial plug Hsel). lia. }
  assert (plug' = plug) as -> by congruence.
  eexists c, q, type, t, _. split; [exact Hty|]. split; [exact Hrun|].
  split_and!; try done.
  - apply lookup_insert_eq.
  - rewrite lookup_insert_ne by done. apply lookup_insert_eq.
  - intros x Hxc Hxq. rewrite !lookup_insert_ne; done.
Qed.

Lemma init_footprint_witness :
  ∃ c s t,
    _slurm_jobacct_init good_world start = Some (SLURM_SUCCESS, s, t) ∧
    g_jobacct_context s = Some c ∧
    heap s !! c = Some (CCtx (installed_context good_world linux_plugin 3)).
Proof.
  destruct (init_footprint good_world ∅ linux_plugin)
    as (c & q & type & t & h' & _ & Hrun & _ & _ & _ & Hc & _);
    [vm_compute; reflexivity | vm_compute; discriminate |].
  exists c, (State h' (Some c)), t. split; [exact Hrun|]. split; [reflexivity|].
  assert (E : _slurm_jobacct_init good_world (State ∅ None)
              = Some (SLURM_SUCCESS, State h' (Some c), t)) by exact Hrun.
  vm_compute in E. injection E as <- <- _. vm_compute. reflexivity.
Defined.

(** X11.  A failed first initialization leaves the global context null.  It
    leaves the heap as it found it, unless the rack was created and
    [plugrack_destroy] then refuses: in that case the context record and
    its type name stay allocated with nothing pointing to them. *)
Theorem init_failure_footprint (w : world) (h : gmap addr cell) :
  (∀ plug, selected_backend w = Some plug → (resolved_count plug < n_syms)%Z) →
  ∃ s t,
    _slurm_jobacct_init w (State h None) = Some (SLURM_ERROR, s, t) ∧
    g_jobacct_context s = None ∧
    (plugrack_create_ok w = false ∨ plugrack_destroy_rc w = SLURM_SUCCESS →
       s = State h None) ∧
    (heap s ≠ h →
       ∃ c q ctx type,
         conf_jobacct_type w = Some type ∧ h !! c = None ∧ h !! q = None ∧
         heap s = <[c := CCtx ctx]> (<[q := CStr type]> h)).
Proof.
  intros Hnone.
  destruct (init_none_cases w h) as (c & q & t & Hc & Hq & Hcq & Hcases).
  destruct Hcases as [(s & Hrun & Hg & _ & Hheap)
                     |(plug & type & Hsel & Hge & _)].
  2: { specialize (Hnone plug Hsel). lia. }
  exists s, t. split; [exact Hrun|]. split; [exact Hg|].
  destruct s as [h' g']. cbn [heap g_jobacct_context] in *. subst g'. split.
  - intros Hok. destruct Hheap as [->|(Hcreate & Hrc & _)]; [done|].
    destruct Hok; congruence.
  - intros Hne. destruct Hheap as [->|(_ & _ & ctx & type & Hty & ->)]; [done|].
    exists c, q, ctx, type. done.
Qed.

Lemma init_failure_footprint_witness :
  ∃ t, _slurm_jobacct_init untyped_world start = Some (SLURM_ERROR, start, t).
Proof.
  destruct (init_failure_footprint untyped_world ∅)
    as (s & t & Hrun & _ & Hsame & _); [intros plug [=]|].
  exists t. unfold start. rewrite Hrun, Hsame; [reflexivity|]. right. reflexivity.
Defined.

(** With a partial backend and a rack that cannot be destroyed, two blocks
    are left behind. *)
Example init_failure_leaks :
  ∃ s t,
    _slurm_jobacct_init
      (world_of (Some "jobacct/linux") [partial_plugin] SLURM_ERROR (λ _ _, 0%Z))
      start = Some (SLURM_ERROR, s, t) ∧
    g_jobacct_context s = None ∧ size (heap s) = 2.
Proof. eexists _, _. split; [vm_compute; reflexivity|]. split; reflexivity. Qed.

(** ** Dispatch *)

(** One call with a context, for every entry point but the finalize one. *)
Lemma dispatch_run e w (h : gmap addr cell) c :
  ready (State h (Some c)) = true → e ≠ g_fini_slurmctld →
  ∃ r t,
    facade e w (State h (Some c)) = Some (r, State h (Some c), t) ∧
    attempts_init t = false ∧ length (backend_calls t) = 1.
Proof.
  intros Hready Hfini.
  apply ready_inv in Hready as (ctx & q & str & Hc & Hres & _).
  destruct (resolved_slot _ (entry_call e).1 Hres) as [f Hf].
  destruct (calls_init e) eqn:Hi.
  - rewrite (facade_run_some_init e w h c ctx f Hi Hc Hf).
    eexists _, _. split; [reflexivity|]. split; reflexivity.
  - rewrite (facade_run_some_other e w h c ctx f Hi Hfini Hc Hf).
    eexists _, _. split; [reflexivity|]. split; reflexivity.
Qed.

(** X12.  With a ready context, every entry point other than the finalize
    one makes exactly one backend call, to the function in its slot of the
    table and with exactly the arguments it was given, under the lock; it
    returns what the backend returned (0 for the [void] entry points) and
    leaves the state as it is: no configuration is read and the context is
    not replaced, even by the entry points that call
    [_slurm_jobacct_init]. *)
Theorem dispatch_verbatim (e : entry) (w : world) (h : gmap addr cell) (c : addr) :
  ready (State h (Some c)) = true → e ≠ g_fini_slurmctld →
  ∃ ctx f,
    h !! c = Some (CCtx ctx) ∧
    ops ctx !! slot (entry_call e).1 = Some (Some f) ∧
    facade e w (State h (Some c)) =
      Some (returned e (backend_rc w f (entry_call e).2), State h (Some c),
            (if calls_init e then [EvLock; EvInitCheck; EvUnlock] else []) ++
            [EvLock; EvCall f (entry_call e).2; EvUnlock]).
Proof.
  intros Hready Hfini.
  apply ready_inv in Hready as (ctx & q & str & Hc & Hres & _).
  destruct (resolved_slot _ (entry_call e).1 Hres) as [f Hf].
  exists ctx, f. split; [exact Hc|]. split; [exact Hf|].
  destruct (calls_init e) eqn:Hi.
  - rewrite (facade_run_some_init e w h c ctx f Hi Hc Hf).
    unfold returned. destruct e; try discriminate; reflexivity.
  - apply (facade_run_some_other e w h c ctx f Hi Hfini Hc Hf).
Qed.

Lemma dispatch_verbatim_witness :
  facade (g_getinfo 1 2 3) answering_world after_init =
    Some (42%Z, after_init,
          [EvLock; EvCall (Fn "jobacct/linux" "jobacct_p_getinfo") [1%Z; 2%Z; 3%Z];
           EvUnlock]).
Proof.
  destruct (dispatch_verbatim (g_getinfo 1 2 3) answering_world
              (heap after_init) 2)
    as (ctx & f & Hc & Hf & Hrun); [vm_compute; reflexivity | discriminate |].
  vm_compute in Hc. injection Hc as <-.
  vm_compute in Hf. injection Hf as <-.
  exact Hrun.
Defined.

(** X13.  The order of [syms] and the order of the fields of
    [slurm_jobacct_ops_t] agree with the names of the entry points: once
    a complete backend is initialized, [jobacct_g_x] calls the plugin's
    [jobacct_p_x], for each of the 18 entry points, whether the call is the
    one that initializes or a later one. *)
Theorem entry_calls_its_symbol (w : world) (plug : plugin) (h : gmap addr cell)
    (e : entry) :
  selected_backend w = Some plug → (n_syms ≤ resolved_count plug)%Z →
  calls_init e = true →
  ∃ r s t,
    facade e w (State h None) = Some (r, s, t) ∧
    backend_calls t =
      [EvCall (Fn (plugin_type plug) (entry_symbol e)) (entry_call e).2] ∧
    ∀ e' w', ∃ r' s' t',
      facade e' w' s = Some (r', s', t') ∧
      backend_calls t' =
        [EvCall (Fn (plugin_type plug) (entry_symbol e')) (entry_call e').2].
Proof.
  intros Hsel Hge Hi.
  destruct (init_footprint_cases w h plug Hsel Hge)
    as (c & q & type & t & Hc & Hq & Hcq & Hquiet & Hrun).
  set (h' := <[c := CCtx (installed_context w plug q)]> (<[q := CStr type]> h)) in *.
  assert (Hc' : h' !! c = Some (CCtx (installed_context w plug q)))
    by apply lookup_insert_eq.
  assert (Hq' : h' !! q = Some (CStr type)).
  { unfold h'. rewrite lookup_insert_ne by done. apply lookup_insert_eq. }
  assert (Hres : fully_resolved (ops (installed_context w plug q)) = true).
  { cbn [installed_context ops]. apply get_syms_complete.
    apply Z.ltb_ge. exact Hge. }
  assert (Hslot : ∀ e0, ops (installed_context w plug q) !! slot (entry_call e0).1
                        = Some (Some (Fn (plugin_type plug) (entry_symbol e0)))).
  { intros e0. destruct (resolved_slot _ (entry_call e0).1 Hres) as [f Hf].
    rewrite Hf. destruct (get_syms_names plug _ f Hf) as (name & Hname & ->).
    rewrite entry_symbol_slot in Hname. by injection Hname as <-. }
  rewrite (facade_run_init_ok e w _ h' c _ _ _ Hi Hrun Hc' (Hslot e)).
  eexists _, _, _. split; [reflexivity|]. split.
  { unfold backend_calls. rewrite List.filter_app.
    change (List.filter is_call t) with (backend_calls t).
    rewrite Hquiet. reflexivity. }
  intros e' w'.
  destruct (decide (e' = g_fini_slurmctld)) as [->|Hfini].
  - cbn [facade].
    rewrite (fini_run_some w' h' c _ q _ _ Hc' (Hslot g_fini_slurmctld)
               eq_refl ltac:(congruence) Hq').
    eexists _, _, _. split; [reflexivity|].
    cbn [installed_context plugin_list]. reflexivity.
  - destruct (calls_init e') eqn:Hi'.
    + rewrite (facade_run_some_init e' w' h' c _ _ Hi' Hc' (Hslot e')).
      eexists _, _, _. split; reflexivity.
    + rewrite (facade_run_some_other e' w' h' c _ _ Hi' Hfini Hc' (Hslot e')).
      eexists _, _, _. split; reflexivity.
Qed.

Lemma entry_calls_its_symbol_witness :
  ∃ r s t,
    facade g_alloc good_world start = Some (r, s, t) ∧
    backend_calls t = [EvCall (Fn "jobacct/linux" "jobacct_p_alloc") []].
Proof.
  destruct (entry_calls_its_symbol good_world linux_plugin ∅ g_alloc)
    as (r & s & t & Hrun & Hcalls & _);
    [vm_compute; reflexivity | vm_compute; discriminate | reflexivity |].
  exists r, s, t. split; assumption.
Defined.

(** X14.  When no complete backend can be selected (no type configured,
    no rack, no plugin of the type, or a plugin that lacks a name), the
    four entry points that initialize lazily fail without calling the
    backend and leave the global context null: [jobacct_g_alloc] returns a
    null record, the three others [SLURM_ERROR]. *)
Theorem lazy_entry_failure (e : entry) (w : world) (h : gmap addr cell) :
  (∀ plug, selected_backend w = Some plug → (resolved_count plug < n_syms)%Z) →
  calls_init e = true →
  ∃ s t,
    facade e w (State h None) = Some (init_failed_value e, s, t) ∧
    g_jobacct_context s = None ∧ calls_backend t = false ∧
    attempts_init t = true ∧ critical_sections t = 1.
Proof.
  intros Hnone Hi.
  destruct (init_run_none w h) as (c & q & _ & _ & Hcq & Hinit).
  destruct (init_outcome_shape w h c q Hcq)
    as (rc & s' & t1 & Hout & Hquiet & Hcases).
  rewrite Hout in Hinit.
  destruct Hcases as [(-> & Hg & _)|(-> & _ & ctx & type & Hty & Hops & _)].
  - rewrite (facade_run_init_failed e w _ _ _ Hi Hinit).
    eexists _, _. split; [reflexivity|]. split; [exact Hg|].
    split_and!; trace_simpl; reflexivity.
  - destruct (get_ops_outcome_complete w type q Hty) as (plug & Hsel & Hge & _);
      [rewrite Hops; reflexivity|].
    specialize (Hnone plug Hsel). lia.
Qed.

Lemma lazy_entry_failure_witness :
  ∃ s t, facade g_alloc untyped_world start = Some (0%Z, s, t) ∧
         calls_backend t = false.
Proof.
  destruct (lazy_entry_failure g_alloc untyped_world ∅)
    as (s & t & Hrun & _ & Hcalls & _); [intros plug [=] | reflexivity |].
  exists s, t. split; assumption.
Defined.

(** ** Finalization *)

(** X15.  With a ready context, [jobacct_g_fini_slurmctld] calls the
    backend's finalize operation once under the lock and tears the context
    down after the lock is released.  When the teardown succeeds it returns
    what the backend returned and both blocks of the context are released;
    when [plugrack_destroy] refuses it returns [SLURM_ERROR] whatever the
    backend returned, and the heap is unchanged: the context is left
    allocated although the global is null. *)
Theorem fini_result (w : world) (h : gmap addr cell) (c : addr) :
  ready (State h (Some c)) = true →
  ∃ ctx q f,
    h !! c = Some (CCtx ctx) ∧ jobacct_type ctx = Some q ∧
    ops ctx !! slot jobacct_fini = Some (Some f) ∧
    jobacct_g_fini_slurmctld w (State h (Some c)) =
      Some (if destroy_fails w ctx then SLURM_ERROR else backend_rc w f [],
            State (if destroy_fails w ctx then h else delete c (delete q h)) None,
            [EvLock; EvCall f []; EvUnlock] ++
            match plugin_list ctx with Some _ => [EvRackDestroy] | None => [] end).
Proof.
  intros Hready.
  apply ready_inv in Hready as (ctx & q & str & Hc & Hres & Hq & Hne & Hstr).
  destruct (resolved_slot _ jobacct_fini Hres) as [f Hf].
  exists ctx, q, f. split_and!; try done.
  exact (fini_run_some w h c ctx q _ f Hc Hf Hq Hne Hstr).
Qed.

Lemma fini_result_witness :
  ∃ t, jobacct_g_fini_slurmctld busy_world after_init =
         Some (SLURM_ERROR, State (heap after_init) None, t).
Proof.
  destruct (fini_result busy_world (heap after_init) 2)
    as (ctx & q & f & Hc & _ & _ & Hrun); [vm_compute; reflexivity|].
  vm_compute in Hc. injection Hc as <-.
  eexists. exact Hrun.
Defined.

(** X16.  A whole life cycle leaks nothing: a lazy initialization with a
    complete backend followed by a finalization whose [plugrack_destroy]
    succeeds ends with the heap exactly as it was and the global null, and
    the finalization returns what the backend's [jobacct_p_fini_slurmctld]
    returned. *)
Theorem init_fini_round_trip (w1 w2 : world) (plug : plugin)
    (h : gmap addr cell) (e : entry) :
  selected_backend w1 = Some plug → (n_syms ≤ resolved_count plug)%Z →
  calls_init e = true → plugrack_destroy_rc w2 = SLURM_SUCCESS →
  ∃ r1 s1 t1 t2,
    facade e w1 (State h None) = Some (r1, s1, t1) ∧
    is_Some (g_jobacct_context s1) ∧
    jobacct_g_fini_slurmctld w2 s1 =
      Some (backend_rc w2 (Fn (plugin_type plug) "jobacct_p_fini_slurmctld") [],
            State h None, t2).
Proof.
  intros Hsel Hge Hi Hrc.
  destruct (init_footprint_cases w1 h plug Hsel Hge)
    as (c & q & type & t & Hc & Hq & Hcq & Hquiet & Hrun).
  set (h' := <[c := CCtx (installed_context w1 plug q)]> (<[q := CStr type]> h)) in *.
  assert (Hc' : h' !! c = Some (CCtx (installed_context w1 plug q)))
    by apply lookup_insert_eq.
  assert (Hq' : h' !! q = Some (CStr type)).
  { unfold h'. rewrite lookup_insert_ne by done. apply lookup_insert_eq. }
  assert (Hres : fully_resolved (ops (installed_context w1 plug q)) = true).
  { cbn [installed_context ops]. apply get_syms_complete.
    apply Z.ltb_ge. exact Hge. }
  assert (Hslot : ∀ e0, ops (installed_context w1 plug q) !! slot (entry_call e0).1
                        = Some (Some (Fn (plugin_type plug) (entry_symbol e0)))).
  { intros e0. destruct (resolved_slot _ (entry_call e0).1 Hres) as [f Hf].
    rewrite Hf. destruct (get_syms_names plug _ f Hf) as (name & Hname & ->).
    rewrite entry_symbol_slot in Hname. by injection Hname as <-. }
  rewrite (facade_run_init_ok e w1 _ h' c _ _ _ Hi Hrun Hc' (Hslot e)).
  eexists _, _, _, _. split; [reflexivity|]. split; [by eexists|].
  rewrite (fini_run_some w2 h' c _ q _ _ Hc' (Hslot g_fini_slurmctld)
             eq_refl ltac:(congruence) Hq').
  unfold destroy_fails. cbn [installed_context plugin_list].
  rewrite bool_decide_eq_false_2 by (intros X; apply X; exact Hrc).
  do 3 f_equal. f_equal. unfold h'. apply map_eq. intros x.
  destruct (decide (x = c)) as [->|Hxc].
  { rewrite lookup_delete_eq. done. }
  rewrite lookup_delete_ne by done.
  destruct (decide (x = q)) as [->|Hxq].
  { rewrite lookup_delete_eq. done. }
  rewrite lookup_delete_ne, !lookup_insert_ne by done. reflexivity.
Qed.

Lemma init_fini_round_trip_witness :
  ∃ r1 s1 t1 t2,
    facade (g_init_slurmctld 9) good_world start = Some (r1, s1, t1) ∧
    jobacct_g_fini_slurmctld answering_world s1 = Some (42%Z, start, t2).
Proof.
  destruct (init_fini_round_trip good_world answering_world linux_plugin ∅
              (g_init_slurmctld 9))
    as (r1 & s1 & t1 & t2 & Hrun & _ & Hfini);
    [vm_compute; reflexivity | vm_compute; discriminate | reflexivity
    | reflexivity |].
  exists r1, s1, t1, t2. split; [exact Hrun | exact Hfini].
Defined.

(** X17.  Creating a context and destroying it at once gives the heap
    back: both allocations of [_slurm_jobacct_context_create] are released
    by [_slurm_jobacct_context_destroy], which has no rack to destroy and
    returns [SLURM_SUCCESS]; the caller's string is still there. *)
Theorem create_destroy_round_trip (w w' : world) (h : gmap addr cell)
    (g : option addr) (src : addr) (str : string) :
  h !! src = Some (CStr str) →
  ∃ c s1,
    _slurm_jobacct_context_create (Some src) w (State h g) =
      Some (Some c, s1, []) ∧
    _slurm_jobacct_context_destroy c w' s1 = Some (SLURM_SUCCESS, State h g, []).
Proof.
  intros Hsrc.
  destruct (create_run w h g src str Hsrc) as (c & q & Hc & Hq & Hcq & Hrun).
  eexists c, _. split; [exact Hrun|].
  erewrite (destroy_run_no_rack w' _ g c (new_context q) q);
    [| apply lookup_insert_eq | reflexivity | congruence
     | rewrite lookup_insert_ne by done; apply lookup_insert_eq | reflexivity ].
  do 3 f_equal. f_equal. apply map_eq. intros x.
  destruct (decide (x = c)) as [->|Hxc].
  { rewrite lookup_delete_eq. done. }
  rewrite lookup_delete_ne by done.
  destruct (decide (x = q)) as [->|Hxq].
  { rewrite lookup_delete_eq. done. }
  rewrite lookup_delete_ne, !lookup_insert_ne by done. reflexivity.
Qed.

Lemma create_destroy_round_trip_witness :
  ∃ c s1,
    _slurm_jobacct_context_create (Some 1%positive) good_world
      (State (<[1%positive := CStr ""]> ∅) None) = Some (Some c, s1, []) ∧
    _slurm_jobacct_context_destroy c busy_world s1 =
      Some (SLURM_SUCCESS, State (<[1%positive := CStr ""]> ∅) None, []).
Proof.
  apply (create_destroy_round_trip good_world busy_world
           (<[1%positive := CStr ""]> ∅) None 1 "").
  vm_compute. reflexivity.
Defined.

(** ** Resolution on a context that has a rack *)

(** X18.  [_slurm_jobacct_get_ops] builds the rack only on first reference:
    on a context that already has one it neither creates a rack nor reads
    the plugin directory; it selects the plugin of the context's type from
    the rack it has, records it, and succeeds exactly when that plugin
    exists and resolves all [n_syms] names. *)
Theorem get_ops_reuses_rack (w : world) (h : gmap addr cell) (g : option addr)
    (c q : addr) (ctx : slurm_jobacct_context) (type : string) (rack : plugrack) :
  h !! c = Some (CCtx ctx) → plugin_list ctx = Some rack →
  jobacct_type ctx = Some q → h !! q = Some (CStr type) →
  ∃ res ctx' t,
    _slurm_jobacct_get_ops c w (State h g) =
      Some (res, State (<[c := CCtx ctx']> h) g, t) ∧
    plugin_list ctx' = Some rack ∧ jobacct_type ctx' = Some q ∧
    cur_plugin ctx' = plugrack_use_by_type rack type ∧
    ¬ In EvRackCreate t ∧ ¬ In EvReadDir t ∧
    (res = None ∨ res = Some c) ∧
    (res = Some c ↔
       ∃ plug, plugrack_use_by_type rack type = Some plug ∧
               (n_syms ≤ resolved_count plug)%Z).
Proof.
  intros Hc Hrack Hq Hstr.
  destruct ctx as [ty pl plug0 e o]. cbn in Hrack, Hq. subst ty pl.
  unfold _slurm_jobacct_get_ops, resolved_count. mrun.
  destruct (plugrack_use_by_type rack type) as [plug|] eqn:Hplug; mrun.
  - destruct (plugin_get_syms plug n_syms syms) as [rc ptrs] eqn:Hsyms.
    mrun. destruct (Z.ltb_spec rc n_syms) as [Hlt|Hge]; mrun.
    + eexists None, _, _. split; [result_eq|].
      split_and!; try reflexivity; try (by left);
        try (cbn; intros H; repeat destruct H as [H|H]; done).
      split; [discriminate|].
      intros (plug' & [= <-] & Hge). rewrite Hsyms in Hge. cbn in Hge. lia.
    + eexists (Some c), _, _. split; [result_eq|].
      split_and!; try reflexivity; try (by right);
        try (cbn; intros H; repeat destruct H as [H|H]; done).
      split; [|done]. intros _. exists plug. rewrite Hsyms. done.
  - eexists None, _, _. split; [result_eq|].
    split_and!; try reflexivity; try (by left);
      try (cbn; intros H; repeat destruct H as [H|H]; done).
    split; [discriminate|]. intros (plug' & [=] & _).
Qed.

Lemma get_ops_reuses_rack_witness :
  ∃ ctx' t,
    _slurm_jobacct_get_ops 1 untyped_world (State racked_heap None) =
      Some (Some 1%positive, State (<[1%positive := CCtx ctx']> racked_heap) None, t) ∧
    cur_plugin ctx' = Some linux_plugin.
Proof.
  destruct (get_ops_reuses_rack untyped_world racked_heap None 1 2
              (set_plugin_list (Some (Rack (Some "jobacct") [linux_plugin]))
                               (new_context 2))
              "jobacct/linux" (Rack (Some "jobacct") [linux_plugin]))
    as (res & ctx' & t & Hrun & _ & _ & Hcur & _ & _ & _ & Hiff);
    [vm_compute; reflexivity | reflexivity | reflexivity
    | vm_compute; reflexivity |].
  assert (res = Some 1%positive) as ->.
  { apply Hiff. exists linux_plugin. split; [reflexivity | vm_compute; discriminate]. }
  exists ctx', t. split; [exact Hrun | exact Hcur].
Defined.

(** ** Programs of calls *)

Lemma lock_discipline_app b t1 t2 :
  lock_discipline b t1 = true →
  lock_discipline b (t1 ++ t2) = lock_discipline false t2.
Proof.
  revert b. induction t1 as [|e t1 IH]; intros b.
  - simpl. intros ->%negb_true_iff. reflexivity.
  - destruct e; cbn [app lock_discipline]; try apply IH;
      intros [Hb Ht]%andb_prop; rewrite Hb; cbn [andb];
      try (apply negb_true_iff in Hb; subst b); try subst b; by apply IH.
Qed.

(** X19.  Whatever sequence of facade calls a caller makes from a ready
    state, in whatever worlds, every call returns (no null or dangling
    pointer is called or dereferenced), the last state is ready again, the
    lock is free at the end and never taken twice or released while free
    in between, every backend call happens under it, and there is at most
    one backend call for each facade call. *)
Theorem run_calls_safe (calls : list (entry * world)) (s : state) :
  ready s = true →
  ∃ rs s' t,
    run_calls calls s = Some (rs, s', t) ∧
    ready s' = true ∧
    length rs = length calls ∧
    lock_discipline false t = true ∧
    length (backend_calls t) ≤ length calls.
Proof.
  revert s. induction calls as [|[e w] calls IH]; intros s Hready.
  - exists [], s, []. done.
  - destruct (facade_run e w s Hready)
      as (r & s1 & t1 & Hrun & Hready1 & Hlock & _ & _ & _ & Hlen & _).
    destruct (IH s1 Hready1) as (rs & s2 & t2 & Hrest & Hready2 & Hrs & Hlock2 & Hlen2).
    exists (r :: rs), s2, (t1 ++ t2). cbn [run_calls]. rewrite Hrun, Hrest.
    split; [reflexivity|]. split; [exact Hready2|].
    split; [cbn; lia|]. split.
    + rewrite (lock_discipline_app false t1 t2 Hlock). exact Hlock2.
    + unfold backend_calls in *. rewrite List.filter_app, length_app.
      cbn [length]. lia.
Qed.

Lemma run_calls_safe_witness :
  ∃ rs s' t,
    run_calls [(g_free 1, good_world); (g_alloc, partial_world);
               (g_alloc, good_world); (g_fini_slurmctld, busy_world);
               (g_startpoll 30, answering_world)] start = Some (rs, s', t) ∧
    lock_discipline false t = true ∧ length rs = 5.
Proof.
  destruct (run_calls_safe
              [(g_free 1, good_world); (g_alloc, partial_world);
               (g_alloc, good_world); (g_fini_slurmctld, busy_world);
               (g_startpoll 30, answering_world)] start)
    as (rs & s' & t & Hrun & _ & Hlen & Hlock & _); [reflexivity|].
  exists rs, s', t. split; [exact Hrun|]. split; [exact Hlock | exact Hlen].
Defined.

(** X20.  Between finalizations the context is set up once: from a ready
    state with a context, a sequence of calls without the finalize entry
    point leaves the state exactly as it is, whatever the worlds (so a
    change of the configured type or of the plugin directory goes
    unnoticed), reads no configuration, and makes exactly one backend call
    for each facade call. *)
Theorem run_calls_steady (calls : list (entry * world)) (h : gmap addr cell)
    (c : addr) :
  ready (State h (Some c)) = true →
  Forall (λ call, call.1 ≠ g_fini_slurmctld) calls →
  ∃ rs t,
    run_calls calls (State h (Some c)) = Some (rs, State h (Some c), t) ∧
    attempts_init t = false ∧
    length (backend_calls t) = length calls.
Proof.
  intros Hready. induction 1 as [|[e w] calls Hfini _ IH].
  - exists [], []. done.
  - cbn [fst] in Hfini.
    destruct (dispatch_run e w h c Hready Hfini) as (r & t1 & Hrun & Hatt & Hlen).
    destruct IH as (rs & t2 & Hrest & Hatt2 & Hlen2).
    exists (r :: rs), (t1 ++ t2). cbn [run_calls]. rewrite Hrun, Hrest.
    split; [reflexivity|]. split.
    + unfold attempts_init in *. rewrite existsb_app, Hatt, Hatt2. reflexivity.
    + unfold backend_calls in *. rewrite List.filter_app, length_app.
      cbn [length]. lia.
Qed.

Lemma run_calls_steady_witness :
  ∃ rs t,
    run_calls [(g_getinfo 1 2 3, untyped_world); (g_alloc, rackless_world);
               (g_suspendpoll, answering_world)] after_init
      = Some (rs, after_init, t) ∧
    attempts_init t = false.
Proof.
  destruct (run_calls_steady
              [(g_getinfo 1 2 3, untyped_world); (g_alloc, rackless_world);
               (g_suspendpoll, answering_world)] (heap after_init) 2)
    as (rs & t & Hrun & Hatt & _);
    [vm_compute; reflexivity | repeat constructor; discriminate |].
  exists rs, t. split; [exact Hrun | exact Hatt].
Defined.

End JobacctExtra.
